(** * Actuarial data generators: policies, claims and IFRS 17 reserves

    A shallow embedding of [data_generators/policies.py],
    [data_generators/claims.py] and [data_generators/reserves.py], and of
    the driver [main] of [data_generators/generate_all.py].

    Conventions of the embedding.
    - Python [float] values are rationals ([Q]); [==] on [Q] plays the
      role of Python's numeric [==].  [round(x, n)] rounds half to even
      at [n] decimals and stands for the double nearest its result.  A
      product, quotient or sum that the source rounds at once is taken
      exactly, and so are the sums of a column over a group.  A
      difference that the source uses unrounded (the outstanding
      reserve of a claim and the net margin of a cohort, whose sign
      selects a branch) is the difference of the doubles, correctly
      rounded ([Float64.sub]).
    - Python [int] values are [Z].
    - The process-wide pseudo-random generators are explicit states
      threaded through every draw: [G] for numpy's (class [RandomSource])
      and [F] for Faker's (class [FakerSource]).  The draws are constrained
      by the supports documented for the distributions.
    - A raised Python exception is the [inl] result of the monad [M].
    - A DataFrame under construction is the list of its columns; the
      finished table is the list of its rows, row [i] holding entry [i]
      of every column.
    - The key-value blobs built for [json.dumps] are kept as the records
      that are serialised.  Of the call itself the embedding has the
      outcome: the encoder serialises Python's own [str], [int], [float]
      and [bool] and raises [TypeError] on a [numpy.bool_]
      ([claims.py], line 145); the text it produces is not modelled.
    - The output directory is the list of the files [save_data] has
      written; failures of the file system are not part of the
      embedding. *)

From Stdlib Require Import String Ascii.
From Stdlib Require Import ZArith QArith Qround Qminmax Qabs Qpower Lia Lqa.
From Stdlib Require Import List Bool.
From Stdlib Require Import OrdersEx Sorted.
From Stdlib Require Import DecimalString DecimalFacts DecimalPos DecimalN.
Import ListNotations.

Local Open Scope Z_scope.

(** ** Python numeric primitives *)

Module Py.

Local Open Scope Q_scope.

(** Nearest integer, ties to the even neighbour. *)
Definition round_half_even (x : Q) : Z :=
  let f := Qfloor x in
  match Qcompare (x - inject_Z f) (1 # 2) with
  | Lt => f
  | Gt => (f + 1)%Z
  | Eq => if Z.even f then f else (f + 1)%Z
  end.

Definition pow10 (n : nat) : Q := inject_Z (10 ^ Z.of_nat n).

(** [round(x, ndigits)]. *)
Definition round (x : Q) (ndigits : nat) : Q :=
  inject_Z (round_half_even (x * pow10 ndigits)) / pow10 ndigits.

(** [int(x)]: truncation toward zero. *)
Definition int (x : Q) : Z := Z.quot (Qnum x) (Zpos (Qden x)).

(** [np.clip(x, lo, hi)]. *)
Definition clip (x lo hi : Q) : Q := Qmin (Qmax x lo) hi.

(** [range(lo, hi)]. *)
Definition range (lo hi : Z) : list Z :=
  map (fun i => (lo + Z.of_nat i)%Z) (seq 0 (Z.to_nat (hi - lo))).

(** A value with at most [n] decimals. *)
Definition decimals (n : nat) (x : Q) : Prop :=
  exists k : Z, x == inject_Z k / pow10 n.

End Py.

(** ** Double precision

    The binary64 numbers as the rationals they denote, with rounding to
    nearest, ties to the even significand.  Overflow is left out: the
    amounts of the generators stay far below the largest double. *)

Module Float64.

Local Open Scope Q_scope.

(** The exponent [e] of a positive [q]: [2^e <= q < 2^(e+1)]. *)
Definition binade (q : Q) : Z :=
  let e := (Z.log2 (Qnum q) - Z.log2 (Zpos (Qden q)))%Z in
  if Qle_bool (2 ^ e) q then e else (e - 1)%Z.

(** The exponent of the unit in the last place: 53 significant bits,
    and the fixed spacing [2^-1074] of the subnormal numbers. *)
Definition ulp_exponent (q : Q) : Z := Z.max (binade q - 52) (-1074).

(** The double nearest a positive [q], ties to the even significand. *)
Definition round_pos (q : Q) : Q :=
  let p := ulp_exponent q in
  inject_Z (Py.round_half_even (q / 2 ^ p)) * 2 ^ p.

(** The double nearest [q]. *)
Definition of_Q (q : Q) : Q :=
  match q ?= 0 with
  | Eq => 0
  | Gt => round_pos q
  | Lt => - round_pos (- q)
  end.

(** [x - y] on doubles: the difference of the doubles nearest [x] and
    [y], rounded to a double. *)
Definition sub (x y : Q) : Q := of_Q (of_Q x - of_Q y).

End Float64.

(** ** String formatting *)

Module Fmt.

Local Open Scope string_scope.

(** Decimal digits of a non-negative integer. *)
Definition digits (z : Z) : string :=
  NilZero.string_of_uint (N.to_uint (Z.to_N z)).

(** [str(z)] as an f-string renders an integer. *)
Definition str_int (z : Z) : string :=
  if (z <? 0)%Z then "-" ++ digits (- z) else digits z.

Fixpoint zeros (n : nat) : string :=
  match n with
  | O => ""
  | S n' => "0" ++ zeros n'
  end.

Definition zfill (width : nat) (s : string) : string :=
  zeros (width - String.length s) ++ s.

(** The format specification [08d]. *)
Definition format_08d (z : Z) : string :=
  if (z <? 0)%Z then "-" ++ zfill 7 (digits (- z)) else zfill 8 (digits z).

End Fmt.

(** ** Calendar dates

    [datetime] values at midnight, with the proleptic Gregorian calendar
    of Python's [datetime] module.  Adding a [timedelta] of whole days
    walks the calendar day by day; [toordinal_add_days] below shows that
    this is Python's ordinal arithmetic. *)

Module Dates.

Record date := mkdate { year : Z; month : Z; day : Z }.

Definition is_leap (y : Z) : bool :=
  (y mod 4 =? 0) && (negb (y mod 100 =? 0) || (y mod 400 =? 0)).

Definition days_in_month (y m : Z) : Z :=
  if m =? 2 then (if is_leap y then 29 else 28)
  else if (m =? 4) || (m =? 6) || (m =? 9) || (m =? 11) then 30
  else 31.

Definition days_before_year (y : Z) : Z :=
  let p := y - 1 in p * 365 + p / 4 - p / 100 + p / 400.

Definition days_before_month (y m : Z) : Z :=
  (match m with
   | 1 => 0 | 2 => 31 | 3 => 59 | 4 => 90 | 5 => 120 | 6 => 151
   | 7 => 181 | 8 => 212 | 9 => 243 | 10 => 273 | 11 => 304 | _ => 334
   end) + (if (2 <? m) && is_leap y then 1 else 0).

(** [d.toordinal()]. *)
Definition toordinal (d : date) : Z :=
  days_before_year (year d) + days_before_month (year d) (month d) + day d.

Definition valid (d : date) : Prop :=
  1 <= month d <= 12 /\ 1 <= day d <= days_in_month (year d) (month d).

Definition next_day (d : date) : date :=
  if day d <? days_in_month (year d) (month d)
  then mkdate (year d) (month d) (day d + 1)
  else if month d <? 12 then mkdate (year d) (month d + 1) 1
  else mkdate (year d + 1) 1 1.

Definition prev_day (d : date) : date :=
  if 1 <? day d then mkdate (year d) (month d) (day d - 1)
  else if 1 <? month d
       then mkdate (year d) (month d - 1) (days_in_month (year d) (month d - 1))
  else mkdate (year d - 1) 12 31.

(** [d + timedelta(days=n)]. *)
Definition add_days (d : date) (n : Z) : date :=
  if 0 <=? n then Nat.iter (Z.to_nat n) next_day d
  else Nat.iter (Z.to_nat (- n)) prev_day d.

(** [d.replace(month=m, day=k)]. *)
Definition replace_month_day (d : date) (m k : Z) : date := mkdate (year d) m k.

(** Comparison of datetimes: year, then month, then day. *)
Definition compare (a b : date) : comparison :=
  match year a ?= year b with
  | Eq => match month a ?= month b with
          | Eq => day a ?= day b
          | c => c
          end
  | c => c
  end.

Definition le (a b : date) : Prop := compare a b <> Gt.
Definition lt (a b : date) : Prop := compare a b = Lt.

(** Whole months since year 0, the quantity whose difference
    [development_month] takes. *)
Definition month_index (d : date) : Z := year d * 12 + month d.

End Dates.

(** ** Exceptions and the generator monad *)

Inductive exn : Set :=
| ValueError
| AttributeError
| TypeError
| IndexError
| KeyError.

(** A computation that consumes the generator state [G] and either
    raises or returns a value with the next state. *)
Definition M (G A : Type) : Type := G -> exn + (A * G).

Definition ret {G A} (a : A) : M G A := fun g => inr (a, g).

Definition bind {G A B} (c : M G A) (k : A -> M G B) : M G B :=
  fun g => match c g with
           | inl e => inl e
           | inr (a, g') => k a g'
           end.

Definition raise {G A} (e : exn) : M G A := fun _ => inl e.

(** A draw never raises. *)
Definition lift {G A} (draw : G -> A * G) : M G A := fun g => inr (draw g).

(** The table of a run, without the final generator state. *)
Definition outcome {G A} (r : exn + (A * G)) : exn + A :=
  match r with
  | inl e => inl e
  | inr (a, _) => inr a
  end.

Declare Scope monad_scope.
Delimit Scope monad_scope with monad.
Notation "x <- c ;; k" := (bind c (fun x => k))
  (at level 61, c at next level, right associativity) : monad_scope.
Notation "' pat <- c ;; k" := (bind c (fun x => match x with pat => k end))
  (at level 61, pat pattern, c at next level, right associativity) : monad_scope.

Local Open Scope monad_scope.

(** A [for] loop that appends one result per element. *)
Fixpoint mapM {G A B} (f : A -> M G B) (xs : list A) : M G (list B) :=
  match xs with
  | [] => ret []
  | x :: xs' => y <- f x ;; ys <- mapM f xs' ;; ret (y :: ys)
  end.

(** [size] successive draws; numpy refuses a negative size. *)
Definition draw_array {G A} (size : Z) (draw : G -> A * G) : M G (list A) :=
  if size <? 0 then raise ValueError
  else mapM (fun _ => lift draw) (repeat tt (Z.to_nat size)).

(** [zip] followed by a comprehension. *)
Fixpoint zip_with {A B C} (f : A -> B -> C) (xs : list A) (ys : list B) : list C :=
  match xs, ys with
  | x :: xs', y :: ys' => f x y :: zip_with f xs' ys'
  | _, _ => []
  end.

(** ** The random sources

    [G] is the state of numpy's process-wide legacy generator
    ([np.random]); seeding replaces it by a state that depends on the seed
    alone.  The range laws are the documented supports of the
    distributions. *)

Class RandomSource (G : Type) : Type := {
  np_seed : Z -> G -> G;
  random : G -> Q * G;
  randint : Z -> Z -> G -> Z * G;
  uniform : Q -> Q -> G -> Q * G;
  normal : Q -> Q -> G -> Q * G;
  exponential : Q -> G -> Q * G;
  lognormal : Q -> Q -> G -> Q * G;
  beta : Q -> Q -> G -> Q * G;
  gamma : Q -> Q -> G -> Q * G;
  choice_index : list Q -> G -> nat * G;
  np_seed_resets : forall s g g', np_seed s g = np_seed s g';
  randint_range : forall lo hi g,
    lo < hi -> lo <= fst (randint lo hi g) < hi;
  uniform_range : forall lo hi g,
    (lo <= hi)%Q -> (lo <= fst (uniform lo hi g) <= hi)%Q;
  lognormal_range : forall mu sigma g, (0 <= fst (lognormal mu sigma g))%Q;
  beta_range : forall a b g, (0 <= fst (beta a b g) <= 1)%Q;
  choice_index_range : forall p g,
    p <> [] -> (fst (choice_index p g) < length p)%nat
}.

(** The generator shared by all [Faker] instances, seeded by
    [Faker.seed]. *)
Class FakerSource (F : Type) : Type := {
  faker_seed : Z -> F -> F;
  date_between : Dates.date -> Dates.date -> F -> Dates.date * F;
  faker_seed_resets : forall s f f', faker_seed s f = faker_seed s f'
}.

(** The float power [x ** y] of the platform's libm. *)
Class FloatPow : Type := { fpow : Q -> Q -> Q }.

Section Draws.

Context {G : Type} {R : RandomSource G}.

(** [np.random.choice(values, p=p)]. *)
Definition choice {A} (values : list A) (default : A) (p : list Q) : G -> A * G :=
  fun g => let (i, g') := choice_index p g in (nth i values default, g').

(** [np.random.randint(lo, hi, size)]: an empty result for size 0,
    otherwise the bounds, which must fit the 64-bit integers of the
    result, and the size are checked. *)
Definition randint_array (lo hi size : Z) : M G (list Z) :=
  if size =? 0 then ret []
  else if (lo <? - 2 ^ 63) || (2 ^ 63 <? hi) || (hi <=? lo)
       then raise ValueError
  else draw_array size (randint lo hi).

End Draws.

(** ** policies.py *)

Module Policies.

Import Dates.

(** The dictionary passed to [json.dumps] for [risk_factors]: one shape
    per line of business, empty for the other lines. *)
Inductive RiskFactors : Type :=
| MotorFactors (vehicle_age driver_experience : Z) (safety_rating : string)
| PropertyFactors (construction_year : Z) (construction_type flood_zone : string)
| LifeFactors (smoker : bool) (health_rating occupation_class : string)
| NoFactors.

(** One row of the policies DataFrame. *)
Record Policy := {
  policy_id : Z;
  policy_number : string;
  effective_date : date;
  expiry_date : date;
  line_of_business : string;
  sum_insured : Q;
  premium : Q;
  geography : string;
  customer_age : Z;
  customer_gender : string;
  risk_factors : RiskFactors
}.

Definition start_date : date := mkdate 2020 1 1.
Definition end_date : date := mkdate 2024 12 31.

Definition lob_choices : list string :=
  ["Motor"; "Property"; "Life"; "Health"; "Pension"]%string.
Definition lob_weights : list Q := [0.35; 0.25; 0.20; 0.15; 0.05]%Q.

Definition geography_choices : list string :=
  ["CA"; "TX"; "FL"; "NY"; "IL"; "PA"; "OH"; "GA"; "NC"; "MI"; "Other"]%string.
Definition geography_weights : list Q :=
  [0.12; 0.10; 0.08; 0.08; 0.06; 0.05; 0.05; 0.04; 0.04; 0.04; 0.34]%Q.

(** Line 23. *)
Definition policy_ids (count : Z) : list Z := Py.range 1 (count + 1).

(** Line 24. *)
Definition policy_numbers (count : Z) : list string :=
  map (fun id => ("POL" ++ Fmt.format_08d id)%string) (policy_ids count).

(** [pd.DataFrame({...})]; the scalar [customer_age] is broadcast. *)
Definition data_frame
    (ids : list Z) (numbers : list string)
    (effective_dates expiry_dates : list date)
    (lines_of_business : list string) (sum_insured premiums : list Q)
    (geographies : list string) (customer_ages : Z)
    (customer_genders : list string) (risk_factors : list RiskFactors)
  : list Policy :=
  let d0 := mkdate 0 0 0 in
  map (fun i =>
         Build_Policy
           (nth i ids 0) (nth i numbers ""%string)
           (nth i effective_dates d0) (nth i expiry_dates d0)
           (nth i lines_of_business ""%string)
           (nth i sum_insured 0%Q) (nth i premiums 0%Q)
           (nth i geographies ""%string) customer_ages
           (nth i customer_genders ""%string) (nth i risk_factors NoFactors))
      (seq 0 (length ids)).

Section WithRandom.

Context {G F : Type} {R : RandomSource G} {K : FakerSource F}.

Local Open Scope monad_scope.

(** The state of the process: numpy's generator and Faker's. *)
Definition state : Type := G * F.

(** A numpy draw leaves Faker's generator alone, and conversely. *)
Definition np {A} (draw : G -> A * G) : state -> A * state :=
  fun s => let (a, g') := draw (fst s) in (a, (g', snd s)).

Definition fake {A} (draw : F -> A * F) : state -> A * state :=
  fun s => let (a, f') := draw (snd s) in (a, (fst s, f')).

(** Lines 49-58. *)
Definition sum_insured_draw (lob : string) : G -> Q * G :=
  (if lob =? "Motor" then lognormal 10.5 0.7
   else if lob =? "Property" then lognormal 12.5 0.8
   else if lob =? "Life" then lognormal 11.5 1.0
   else if lob =? "Health" then lognormal 9.0 0.5
   else lognormal 13.0 0.6)%string.

(** Lines 36-37. *)
Definition expiry_date_of (eff_date : date) : M state date :=
  u <- lift (np random) ;;
  if Qlt_le_dec 0.1 u then ret (add_days eff_date 365)
  else
    days <- lift (np (randint 30 365)) ;;
    ret (add_days eff_date days).

(** [x.astype(int)] at line 73.  [np.random.gamma(2, 20)] is called
    without a size, unlike the sized draws around it, and so returns one
    Python [float]; [float] has no attribute [astype]. *)
Definition float_astype_int (x : Q) : M state Z := raise AttributeError.

(** [customer_ages[i]] at line 84: [customer_ages] is a scalar, and a
    scalar cannot be subscripted. *)
Definition scalar_getitem (x : Z) (i : Z) : M state Z := raise IndexError.

(** Lines 81-95, for row [i]. *)
Definition risk_factors_of (lob : string) (customer_ages : Z) (i : Z)
  : M state RiskFactors :=
  (if lob =? "Motor" then
     vehicle_age <- lift (np (randint 0 20)) ;;
     age <- scalar_getitem customer_ages i ;;
     let driver_experience := Z.max 0 (age - 16) in
     safety_rating <-
       lift (np (choice ["Poor"; "Good"; "Excellent"] "" [0.2; 0.6; 0.2]%Q)) ;;
     ret (MotorFactors vehicle_age driver_experience safety_rating)
   else if lob =? "Property" then
     construction_year <- lift (np (randint 1950 2024)) ;;
     construction_type <-
       lift (np (choice ["Wood"; "Brick"; "Concrete"] "" [0.6; 0.3; 0.1]%Q)) ;;
     flood_zone <-
       lift (np (choice ["Low"; "Medium"; "High"] "" [0.7; 0.2; 0.1]%Q)) ;;
     ret (PropertyFactors construction_year construction_type flood_zone)
   else if lob =? "Life" then
     smoker <- lift (np (choice [true; false] false [0.15; 0.85]%Q)) ;;
     health_rating <-
       lift (np (choice ["Standard"; "Preferred"; "Super Preferred"] ""
                    [0.6; 0.3; 0.1]%Q)) ;;
     occupation_class <-
       lift (np (choice ["Professional"; "Standard"; "Hazardous"] ""
                    [0.4; 0.5; 0.1]%Q)) ;;
     ret (LifeFactors smoker health_rating occupation_class)
   else ret NoFactors)%string.

Definition generate_policies (count : Z) : M state (list Policy) :=
  let ids := policy_ids count in
  let numbers := policy_numbers count in
  effective_dates <-
    mapM (fun _ => lift (fake (date_between start_date end_date)))
         (Py.range 0 count) ;;
  expiry_dates <- mapM expiry_date_of effective_dates ;;
  lines_of_business <-
    draw_array count (np (choice lob_choices ""%string lob_weights)) ;;
  sum_insured <-
    mapM (fun lob =>
            si <- lift (np (sum_insured_draw lob)) ;;
            ret (Py.round si 2))
         lines_of_business ;;
  premium_rates <- draw_array count (np (uniform 0.02 0.08)) ;;
  let premiums :=
    zip_with (fun si rate => Py.round (si * rate) 2) sum_insured premium_rates in
  geographies <-
    draw_array count
      (np (choice geography_choices ""%string geography_weights)) ;;
  age <- lift (np (gamma 2 20)) ;;
  customer_ages <- float_astype_int age ;;
  let customer_ages := Z.min (Z.max customer_ages 18) 85 in
  customer_genders <-
    draw_array count (np (choice ["M"; "F"]%string ""%string [0.48; 0.52]%Q)) ;;
  risk_factors <-
    mapM (fun i =>
            risk_factors_of (nth (Z.to_nat i) lines_of_business ""%string)
                            customer_ages i)
         (Py.range 0 count) ;;
  ret (data_frame ids numbers effective_dates expiry_dates lines_of_business
         sum_insured premiums geographies customer_ages customer_genders
         risk_factors).

End WithRandom.

End Policies.

(** ** claims.py *)

Module Claims.

Import Dates.

(** The dictionary [attrs] of lines 139-144.  Its three flags are drawn
    by [np.random.choice] over [[True, False]] and so are [numpy.bool_]
    values, not Python's own [bool]. *)
Record ClaimAttributes := {
  complexity : string;
  legal_involvement : bool;
  catastrophe_related : bool;
  salvage_potential : bool
}.

(** One row of the claims DataFrame, columns in the order of the
    source; [claim_attributes] holds JSON text. *)
Record Claim := {
  claim_id : Z;
  claim_number : string;
  policy_id : Z;
  accident_date : date;
  report_date : date;
  accident_year : Z;
  development_month : Z;
  line_of_business : string;
  geography : string;
  claim_cause : string;
  claim_status : string;
  initial_reserve : Q;
  paid_amount : Q;
  outstanding_reserve : Q;
  incurred_amount : Q;
  claim_attributes : string
}.

(** The lists that lines 23-134 build, one entry per claim. *)
Record Columns := {
  claim_ids : list Z;
  claim_numbers : list string;
  policy_ids : list Z;
  accident_dates : list date;
  report_dates : list date;
  development_months : list Z;
  lines_of_business : list string;
  geographies : list string;
  claim_causes : list string;
  claim_statuses : list string;
  initial_reserves : list Q;
  paid_amounts : list Q;
  outstanding_reserves : list Q;
  developed_amounts : list Q
}.

Definition year_choices : list Z := [2020; 2021; 2022; 2023; 2024].
Definition year_weights : list Q := [0.15; 0.18; 0.20; 0.25; 0.22]%Q.

Definition lob_choices : list string :=
  ["Motor"; "Property"; "Life"; "Health"; "Pension"]%string.
Definition lob_weights : list Q := [0.40; 0.30; 0.15; 0.10; 0.05]%Q.

Definition geography_choices : list string :=
  ["CA"; "TX"; "FL"; "NY"; "IL"; "PA"; "OH"; "GA"; "NC"; "MI"; "Other"]%string.
Definition geography_weights : list Q :=
  [0.12; 0.10; 0.08; 0.08; 0.06; 0.05; 0.05; 0.04; 0.04; 0.04; 0.34]%Q.

(** [cause_by_lob[lob]]; a missing key is a [KeyError]. *)
Definition cause_by_lob (lob : string) : option (list string) :=
  (if lob =? "Motor" then
     Some ["Collision"; "Theft"; "Vandalism"; "Weather"; "Other"]
   else if lob =? "Property" then
     Some ["Fire"; "Theft"; "Weather"; "Water"; "Other"]
   else if lob =? "Life" then
     Some ["Natural"; "Accident"; "Illness"; "Other"; "Unknown"]
   else if lob =? "Health" then
     Some ["Surgery"; "Emergency"; "Routine"; "Specialist"; "Other"]
   else if lob =? "Pension" then
     Some ["Retirement"; "Disability"; "Death"; "Withdrawal"; "Other"]
   else None)%string.

Definition cause_weights : list Q := [0.3; 0.2; 0.2; 0.2; 0.1]%Q.

(** Lines 58-60: months since the accident, counted from 1. *)
Definition development_month_of (acc_date rep_date : date) : Z :=
  let months :=
    (year rep_date - year acc_date) * 12 + (month rep_date - month acc_date) in
  Z.max 1 (months + 1).

(** Line 51: [acc_date + timedelta(days=int(delay))]. *)
Definition report_date_of (acc_date : date) (delay : Q) : date :=
  add_days acc_date (Py.int delay).

(** Line 83-84. *)
Definition developed_amount (initial factor : Q) : Q :=
  Py.round (initial * Qmax 0.1 factor) 2.

(** Line 89. *)
Definition paid_amount_of (developed pattern : Q) : Q :=
  Py.round (developed * pattern) 2.

(** Line 95: the difference of two doubles. *)
Definition outstanding_of (developed paid : Q) : Q :=
  Qmax 0 (Float64.sub developed paid).

(** Lines 101-107. *)
Definition status_of (outstanding : Q) : string :=
  (if Qle_bool outstanding 10 then "Closed"
   else if Qle_bool outstanding 1000 then "Open"
   else "Reserved")%string.

(** Lines 148-165, [pd.DataFrame({...})]: row [i] takes entry [i] of
    each column. *)
Definition data_frame (cols : Columns) (claim_attributes : list string)
  : list Claim :=
  let d0 := mkdate 0 0 0 in
  map (fun i =>
         Build_Claim
           (nth i (claim_ids cols) 0) (nth i (claim_numbers cols) ""%string)
           (nth i (policy_ids cols) 0)
           (nth i (accident_dates cols) d0) (nth i (report_dates cols) d0)
           (year (nth i (accident_dates cols) d0))
           (nth i (development_months cols) 0)
           (nth i (lines_of_business cols) ""%string)
           (nth i (geographies cols) ""%string)
           (nth i (claim_causes cols) ""%string)
           (nth i (claim_statuses cols) ""%string)
           (nth i (initial_reserves cols) 0%Q) (nth i (paid_amounts cols) 0%Q)
           (nth i (outstanding_reserves cols) 0%Q)
           (nth i (developed_amounts cols) 0%Q)
           (nth i claim_attributes ""%string))
      (seq 0 (length (claim_ids cols))).

(** Line 145, [json.dumps(attrs)]: the encoder has no rule for the
    [numpy.bool_] flags of [attrs] and raises. *)
Definition json_dumps {G} (attrs : ClaimAttributes) : M G string :=
  raise TypeError.

(** The relations that lines 86-97 set between the amounts of a
    claim. *)
Definition amounts_consistent (c : Claim) : Prop :=
  (0 <= paid_amount c <= incurred_amount c)%Q /\
  (outstanding_reserve c
   == outstanding_of (incurred_amount c) (paid_amount c))%Q.

(** [(report_date - accident_date).days]: the report delay in whole days. *)
Definition report_delay_days (c : Claim) : Z :=
  toordinal (report_date c) - toordinal (accident_date c).

Section WithRandom.

Context {G : Type} {R : RandomSource G}.

Local Open Scope monad_scope.

(** Lines 68-77. *)
Definition get_development_factor (dev_month : Z) : G -> Q * G :=
  if dev_month <=? 12 then normal 0.95 0.1
  else if dev_month <=? 24 then normal 1.02 0.05
  else if dev_month <=? 36 then normal 1.01 0.03
  else normal 1.00 0.02.

(** Lines 23-134: every column but the attributes. *)
Definition claim_columns (policy_count total_claims : Z) : M G Columns :=
  policy_ids <- randint_array 1 (policy_count + 1) total_claims ;;
  let claim_ids := Py.range 1 (total_claims + 1) in
  let claim_numbers :=
    map (fun id => ("CLM" ++ Fmt.format_08d id)%string) claim_ids in
  accident_years <-
    draw_array total_claims (choice year_choices 0 year_weights) ;;
  accident_dates <-
    mapM (fun y =>
            m <- lift (randint 1 13) ;;
            d <- lift (randint 1 29) ;;
            ret (mkdate y m d))
         accident_years ;;
  report_delays <- draw_array total_claims (exponential 30) ;;
  let report_delays := map (fun x => Py.clip x 0 365) report_delays in
  let report_dates := zip_with report_date_of accident_dates report_delays in
  let development_months :=
    zip_with development_month_of accident_dates report_dates in
  initial_reserves <- draw_array total_claims (lognormal 8.5 1.5) ;;
  let initial_reserves := map (fun x => Py.round x 2) initial_reserves in
  developed_amounts <-
    mapM (fun p : Q * Z =>
            factor <- lift (get_development_factor (snd p)) ;;
            ret (developed_amount (fst p) factor))
         (combine initial_reserves development_months) ;;
  payment_patterns <- draw_array total_claims (beta 2 5) ;;
  let paid_amounts := zip_with paid_amount_of developed_amounts payment_patterns in
  let outstanding_reserves :=
    zip_with outstanding_of developed_amounts paid_amounts in
  let claim_status := map status_of outstanding_reserves in
  lines_of_business <-
    draw_array total_claims (choice lob_choices ""%string lob_weights) ;;
  claim_causes <-
    mapM (fun lob =>
            match cause_by_lob lob with
            | Some causes => lift (choice causes ""%string cause_weights)
            | None => raise KeyError
            end)
         lines_of_business ;;
  geographies <-
    draw_array total_claims
      (choice geography_choices ""%string geography_weights) ;;
  ret {| claim_ids := claim_ids;
         claim_numbers := claim_numbers;
         policy_ids := policy_ids;
         accident_dates := accident_dates;
         report_dates := report_dates;
         development_months := development_months;
         lines_of_business := lines_of_business;
         geographies := geographies;
         claim_causes := claim_causes;
         claim_statuses := claim_status;
         initial_reserves := initial_reserves;
         paid_amounts := paid_amounts;
         outstanding_reserves := outstanding_reserves;
         developed_amounts := developed_amounts |}.

(** The whole function: the columns, the attributes of lines 137-145,
    then the DataFrame. *)
Definition generate_claims (policy_count total_claims : Z) : M G (list Claim) :=
  cols <- claim_columns policy_count total_claims ;;
  claim_attributes <-
    mapM (fun _ =>
            c <- lift (choice ["Simple"; "Medium"; "Complex"]%string ""%string
                              [0.6; 0.3; 0.1]%Q) ;;
            l <- lift (choice [true; false] false [0.1; 0.9]%Q) ;;
            k <- lift (choice [true; false] false [0.05; 0.95]%Q) ;;
            s <- lift (choice [true; false] false [0.15; 0.85]%Q) ;;
            json_dumps (Build_ClaimAttributes c l k s))
         (Py.range 0 total_claims) ;;
  ret (data_frame cols claim_attributes).

End WithRandom.

End Claims.

(** ** reserves.py *)

Module Reserves.

Import Dates.

(** The [actuarial_assumptions] entry of the metadata. *)
Record ActuarialAssumptions := {
  discount_rate : Q;
  risk_margin : Q
}.

(** The dictionary passed to [json.dumps] for [reserve_metadata];
    [last_updated] is the valuation date whose [isoformat()] is stored. *)
Record ReserveMetadata := {
  actuarial_assumptions : ActuarialAssumptions;
  valuation_method : string;
  confidence_level : Q;
  last_updated : date
}.

(** One row of [contract_groups] after [groupby(...).agg(...).reset_index()]
    and the renaming of its columns. *)
Record Group := {
  g_line_of_business : string;
  g_geography : string;
  g_cohort_year : Z;
  g_policy_count : Z;
  g_claim_count : Z;
  g_total_incurred : Q;
  g_total_paid : Q;
  g_total_outstanding : Q
}.

(** One row of the returned cohort table. *)
Record ContractGroup := {
  line_of_business : string;
  geography : string;
  cohort_year : Z;
  policy_count : Z;
  claim_count : Z;
  total_incurred : Q;
  total_paid : Q;
  total_outstanding : Q;
  contract_group_id : string;
  valuation_date : date;
  pv_factor : Q;
  pv_claims : Q;
  pv_premiums : Q;
  risk_adjustment : Q;
  acquisition_costs : Q;
  initial_csm : Q;
  loss_component : Q;
  profitability_class : string;
  coverage_units_total : Z;
  coverage_units_current : Z;
  csm_amortization : Q;
  best_estimate_liability : Q;
  liability_remaining_coverage : Q;
  reserve_adequacy_ratio : Q;
  reserve_metadata : ReserveMetadata
}.

(** *** Grouping *)

Definition key : Type := string * string * Z.

Definition claim_key (c : Claims.Claim) : key :=
  (Claims.line_of_business c, Claims.geography c, Claims.accident_year c).

(** The key columns of a grouped row and of a returned row. *)
Definition group_key (grp : Group) : key :=
  (g_line_of_business grp, g_geography grp, g_cohort_year grp).

Definition row_key (r : ContractGroup) : key :=
  (line_of_business r, geography r, cohort_year r).

(** Lexicographic order of the group keys, the order in which a sorted
    [groupby] lists its groups. *)
Definition key_compare (a b : key) : comparison :=
  let '(l1, g1, y1) := a in
  let '(l2, g2, y2) := b in
  match String_as_OT.compare l1 l2 with
  | Eq => match String_as_OT.compare g1 g2 with
          | Eq => y1 ?= y2
          | c => c
          end
  | c => c
  end.

Definition key_lt (a b : key) : Prop := key_compare a b = Lt.

Definition key_eqb (a b : key) : bool :=
  match key_compare a b with
  | Eq => true
  | _ => false
  end.

(** The sorted list of distinct keys, built one claim at a time. *)
Fixpoint insert_key (k : key) (ks : list key) : list key :=
  match ks with
  | [] => [k]
  | k' :: rest =>
      match key_compare k k' with
      | Lt => k :: ks
      | Eq => ks
      | Gt => k' :: insert_key k rest
      end
  end.

Definition group_keys (claims : list Claims.Claim) : list key :=
  fold_right (fun c ks => insert_key (claim_key c) ks) [] claims.

Definition members (claims : list Claims.Claim) (k : key) : list Claims.Claim :=
  filter (fun c => key_eqb (claim_key c) k) claims.

Definition sum (xs : list Q) : Q := fold_left Qplus xs 0%Q.

(** ['nunique'], ['count'] and ['sum'] over the members of one group. *)
Definition aggregate (k : key) (rows : list Claims.Claim) : Group :=
  let '(lob, geo, y) := k in
  {| g_line_of_business := lob;
     g_geography := geo;
     g_cohort_year := y;
     g_policy_count :=
       Z.of_nat (length (nodup Z.eq_dec (map Claims.policy_id rows)));
     g_claim_count := Z.of_nat (length rows);
     g_total_incurred := sum (map Claims.incurred_amount rows);
     g_total_paid := sum (map Claims.paid_amount rows);
     g_total_outstanding := sum (map Claims.outstanding_reserve rows) |}.

(** Lines 20-32. *)
Definition groupby_agg (claims : list Claims.Claim) : list Group :=
  map (fun k => aggregate k (members claims k)) (group_keys claims).

(** *** Row derivations *)

(** Lines 50-59. *)
Definition quarter_end (val_date : date) : date :=
  if month val_date <=? 3 then replace_month_day val_date 3 31
  else if month val_date <=? 6 then replace_month_day val_date 6 30
  else if month val_date <=? 9 then replace_month_day val_date 9 30
  else replace_month_day val_date 12 31.

Definition base_date : date := mkdate 2024 12 31.

Definition valuation_date_of (quarters_back : Z) : date :=
  quarter_end (add_days base_date (- (quarters_back * 90))).

(** [discount_rates.get(lob, 0.04)]. *)
Definition discount_rate_of (lob : string) : Q :=
  (if lob =? "Motor" then 0.045
   else if lob =? "Property" then 0.042
   else if lob =? "Life" then 0.038
   else if lob =? "Health" then 0.040
   else if lob =? "Pension" then 0.035
   else 0.04)%string%Q.

(** Line 138: [net_margin], three subtractions of doubles from
    left to right. *)
Definition net_margin_of (pv_premiums pv_claims acq_costs risk_adj : Q) : Q :=
  Float64.sub (Float64.sub (Float64.sub pv_premiums pv_claims) acq_costs)
              risk_adj.

(** Lines 141-150: the values appended to [csm_values],
    [loss_components] and [profitability_classes]. *)
Definition csm_split (pv_premiums pv_claims acq_costs risk_adj : Q)
  : Q * Q * string :=
  let net_margin := net_margin_of pv_premiums pv_claims acq_costs risk_adj in
  if Qlt_le_dec 0 net_margin
  then (Py.round net_margin 2, 0%Q, "Profitable"%string)
  else (0%Q, Py.round (Qabs net_margin) 2, "Onerous"%string).

(** Lines 184-189. *)
Definition amortization_of (units_total units_current : Z) (csm : Q) : Q :=
  if 0 <? units_total
  then
    let amort_rate := (inject_Z units_current / inject_Z units_total)%Q in
    Py.round (csm * amort_rate * 0.25) 2
  else 0%Q.

(** Line 214. *)
Definition adequacy_ratio_of (total_outstanding pv_claims : Q) : Q :=
  Py.round (total_outstanding / Qmax 1 pv_claims) 4.

Fixpoint zip_with3 {A B C D} (f : A -> B -> C -> D)
    (xs : list A) (ys : list B) (zs : list C) : list D :=
  match xs, ys, zs with
  | x :: xs', y :: ys', z :: zs' => f x y z :: zip_with3 f xs' ys' zs'
  | _, _, _ => []
  end.

(** A loop over [iterrows()] that reads several columns: one step per
    row index. *)
Definition iterrows {B} (n : nat) (f : nat -> B) : list B := map f (seq 0 n).

(** [pd.DataFrame]: row [i] of the grouped table with entry [i] of each
    column added to it. *)
Definition data_frame (contract_groups : list Group)
    (contract_group_ids : list string) (valuation_dates : list date)
    (pv_factors present_value_claims present_value_premiums : list Q)
    (risk_adjustments acquisition_costs : list Q)
    (csm_values loss_components : list Q) (profitability_classes : list string)
    (coverage_units_totals coverage_units_currents : list Z)
    (csm_amortizations best_estimate_liabilities : list Q)
    (liabilities_remaining_coverage reserve_adequacy_ratios : list Q)
    (reserve_metadatas : list ReserveMetadata) : list ContractGroup :=
  let g0 := Build_Group "" "" 0 0 0 0 0 0 in
  let d0 := mkdate 0 0 0 in
  let m0 := Build_ReserveMetadata (Build_ActuarialAssumptions 0 0) "" 0 d0 in
  map (fun i =>
         let row := nth i contract_groups g0 in
         Build_ContractGroup
           (g_line_of_business row) (g_geography row) (g_cohort_year row)
           (g_policy_count row) (g_claim_count row) (g_total_incurred row)
           (g_total_paid row) (g_total_outstanding row)
           (nth i contract_group_ids ""%string) (nth i valuation_dates d0)
           (nth i pv_factors 0%Q) (nth i present_value_claims 0%Q)
           (nth i present_value_premiums 0%Q) (nth i risk_adjustments 0%Q)
           (nth i acquisition_costs 0%Q) (nth i csm_values 0%Q)
           (nth i loss_components 0%Q) (nth i profitability_classes ""%string)
           (nth i coverage_units_totals 0) (nth i coverage_units_currents 0)
           (nth i csm_amortizations 0%Q) (nth i best_estimate_liabilities 0%Q)
           (nth i liabilities_remaining_coverage 0%Q)
           (nth i reserve_adequacy_ratios 0%Q) (nth i reserve_metadatas m0))
      (seq 0 (length contract_groups)).

(** What [generate_reserves] establishes for a returned row: its
    aggregates are those of one group, and every derived column is the
    source's formula applied to the row's own columns and draws. *)
Definition derived (claims : list Claims.Claim) (r : ContractGroup) : Prop :=
  (exists grp, In grp (groupby_agg claims) /\
     row_key r = group_key grp /\
     policy_count r = g_policy_count grp /\
     claim_count r = g_claim_count grp /\
     total_incurred r = g_total_incurred grp /\
     total_paid r = g_total_paid grp /\
     total_outstanding r = g_total_outstanding grp) /\
  (exists pv_factor premium_ratio : Q,
     (1.10 <= premium_ratio <= 1.20)%Q /\
     pv_claims r = Py.round (total_incurred r * pv_factor) 2 /\
     pv_premiums r = Py.round (total_incurred r * pv_factor * premium_ratio) 2) /\
  (exists rate : Q, (0.05 <= rate <= 0.15)%Q /\
     risk_adjustment r = Py.round (pv_claims r * rate) 2) /\
  (exists rate : Q, (0.10 <= rate <= 0.25)%Q /\
     acquisition_costs r = Py.round (pv_premiums r * rate) 2) /\
  (initial_csm r, loss_component r, profitability_class r) =
    csm_split (pv_premiums r) (pv_claims r) (acquisition_costs r)
              (risk_adjustment r) /\
  (exists (months : Z) (remaining_ratio : Q),
     12 <= months /\ (0.5 <= remaining_ratio <= 1)%Q /\
     coverage_units_total r = policy_count r * months /\
     coverage_units_current r =
       Py.int (inject_Z (coverage_units_total r) * remaining_ratio)) /\
  csm_amortization r =
    amortization_of (coverage_units_total r) (coverage_units_current r)
                    (initial_csm r) /\
  best_estimate_liability r = Py.round (pv_claims r + risk_adjustment r) 2 /\
  liability_remaining_coverage r =
    Py.round (best_estimate_liability r + initial_csm r - loss_component r) 2 /\
  reserve_adequacy_ratio r =
    adequacy_ratio_of (total_outstanding r) (pv_claims r).

Section WithRandom.

Context {G : Type} {R : RandomSource G} {P : FloatPow}.

Local Open Scope monad_scope.

(** Lines 84-89. *)
Definition duration_of (lob : string) : G -> Q * G :=
  (if lob =? "Life" then normal 15 5
   else if lob =? "Pension" then normal 20 8
   else normal 3 1)%string.

(** Lines 80-104: the values appended to [pv_factors],
    [present_value_claims] and [present_value_premiums] for one row. *)
Definition present_values (row : Group) : M G (Q * Q * Q) :=
  let lob := g_line_of_business row in
  let rate := discount_rate_of lob in
  duration <- lift (duration_of lob) ;;
  let duration := Qmax 0.5 duration in
  let pv_factor := (1 / fpow (1 + rate) duration)%Q in
  let pv_claims := (g_total_incurred row * pv_factor)%Q in
  premium_ratio <- lift (uniform 1.10 1.20) ;;
  let pv_premiums := (pv_claims * premium_ratio)%Q in
  ret (Py.round pv_factor 6, Py.round pv_claims 2, Py.round pv_premiums 2).

(** Lines 163-168. *)
Definition coverage_months_of (lob : string) : G -> Z * G :=
  (if lob =? "Life" then randint 120 480
   else if lob =? "Pension" then randint 240 600
   else randint 12 60)%string.

(** Lines 162-176: the values appended to [coverage_units_total] and
    [coverage_units_current] for one row. *)
Definition coverage_units (row : Group) : M G (Z * Z) :=
  months <- lift (coverage_months_of (g_line_of_business row)) ;;
  let total_units := g_policy_count row * months in
  remaining_ratio <- lift (uniform 0.5 1.0) ;;
  let current_units := Py.int (inject_Z total_units * remaining_ratio) in
  ret (total_units, current_units).

(** Lines 224-232. *)
Definition metadata_of (lob : string) (risk_adj pv_claims : Q) (val_date : date)
  : M G ReserveMetadata :=
  confidence <- lift (choice [0.75; 0.85; 0.95]%Q 0%Q [0.2; 0.6; 0.2]%Q) ;;
  ret {| actuarial_assumptions :=
           {| discount_rate := discount_rate_of lob;
              risk_margin := Py.round (risk_adj / Qmax 1 pv_claims) 4 |};
         valuation_method := "IFRS_17";
         confidence_level := confidence;
         last_updated := val_date |}.

Definition generate_reserves (claims_df : list Claims.Claim)
  : M G (list ContractGroup) :=
  let contract_groups := groupby_agg claims_df in
  let n := length contract_groups in
  let contract_group_ids :=
    map (fun row =>
           (g_line_of_business row ++ "_" ++ g_geography row ++ "_"
            ++ Fmt.str_int (g_cohort_year row))%string)
        contract_groups in
  valuation_dates <-
    mapM (fun _ =>
            quarters_back <- lift (randint 0 8) ;;
            ret (valuation_date_of quarters_back))
         (seq 0 n) ;;
  pvs <- mapM present_values contract_groups ;;
  let pv_factors := map (fun t => fst (fst t)) pvs in
  let present_value_claims := map (fun t => snd (fst t)) pvs in
  let present_value_premiums := map (fun t => snd t) pvs in
  risk_adjustment_rates <- draw_array (Z.of_nat n) (uniform 0.05 0.15) ;;
  let risk_adjustments :=
    zip_with (fun pv_claims rate => Py.round (pv_claims * rate) 2)
             present_value_claims risk_adjustment_rates in
  acquisition_cost_rates <- draw_array (Z.of_nat n) (uniform 0.10 0.25) ;;
  let acquisition_costs :=
    zip_with (fun pv_premiums rate => Py.round (pv_premiums * rate) 2)
             present_value_premiums acquisition_cost_rates in
  let splits :=
    iterrows n (fun i =>
      csm_split (nth i present_value_premiums 0%Q)
                (nth i present_value_claims 0%Q)
                (nth i acquisition_costs 0%Q)
                (nth i risk_adjustments 0%Q)) in
  let csm_values := map (fun t => fst (fst t)) splits in
  let loss_components := map (fun t => snd (fst t)) splits in
  let profitability_classes := map (fun t => snd t) splits in
  coverage <- mapM coverage_units contract_groups ;;
  let coverage_units_totals := map (fun t => fst t) coverage in
  let coverage_units_currents := map (fun t => snd t) coverage in
  let csm_amortizations :=
    iterrows n (fun i =>
      amortization_of (nth i coverage_units_totals 0)
                      (nth i coverage_units_currents 0)
                      (nth i csm_values 0%Q)) in
  let best_estimate_liabilities :=
    zip_with (fun pv_claims risk_adj => Py.round (pv_claims + risk_adj) 2)
             present_value_claims risk_adjustments in
  let liabilities_remaining_coverage :=
    zip_with3 (fun bel csm loss => Py.round (bel + csm - loss) 2)
              best_estimate_liabilities csm_values loss_components in
  let reserve_adequacy_ratios :=
    zip_with adequacy_ratio_of
             (map g_total_outstanding contract_groups) present_value_claims in
  reserve_metadatas <-
    mapM (fun i =>
            metadata_of (g_line_of_business (nth i contract_groups
                                               (Build_Group "" "" 0 0 0 0 0 0)))
                        (nth i risk_adjustments 0%Q)
                        (nth i present_value_claims 0%Q)
                        (nth i valuation_dates (mkdate 0 0 0)))
         (seq 0 n) ;;
  ret (data_frame contract_groups contract_group_ids valuation_dates
         pv_factors present_value_claims present_value_premiums
         risk_adjustments acquisition_costs csm_values loss_components
         profitability_classes coverage_units_totals coverage_units_currents
         csm_amortizations best_estimate_liabilities
         liabilities_remaining_coverage reserve_adequacy_ratios
         reserve_metadatas).

End WithRandom.

End Reserves.

(** ** A replay generator

    A generator that replays a recorded tape of raw draws, mapping each
    into the support of the requested distribution.  It is the concrete
    random source on which the generators are run below. *)

Module Replay.

Import Dates.

Definition tape : Type := list Q.

Definition pop (t : tape) : Q * tape :=
  match t with
  | [] => (0%Q, [])
  | q :: t' => (q, t')
  end.

Definition clamp (lo hi q : Q) : Q := Qmax lo (Qmin hi q).

Definition draw {A} (f : Q -> A) (t : tape) : A * tape :=
  (f (fst (pop t)), snd (pop t)).

Definition replay_randint (lo hi : Z) : tape -> Z * tape :=
  draw (fun q => if lo <? hi then lo + (Qfloor q) mod (hi - lo) else lo).

Definition replay_choice_index (p : list Q) : tape -> nat * tape :=
  draw (fun q => Z.to_nat ((Qfloor q) mod (Z.of_nat (length p)))).

Definition replay_date_between (a b : date) : tape -> date * tape :=
  draw (fun q =>
          add_days a ((Qfloor q) mod (Z.max 1 (toordinal b - toordinal a + 1)))).

#[export, refine] Instance replay_source : RandomSource tape := {
  np_seed := fun s _ => [inject_Z s];
  random := draw (clamp 0 1);
  randint := replay_randint;
  uniform := fun lo hi => draw (clamp lo hi);
  normal := fun mu sigma => draw (fun q => mu + sigma * q)%Q;
  exponential := fun scale => draw (fun q => scale * Qabs q)%Q;
  lognormal := fun _ _ => draw Qabs;
  beta := fun _ _ => draw (clamp 0 1);
  gamma := fun _ _ => draw Qabs;
  choice_index := replay_choice_index
}.
Proof.
  - reflexivity.
  - intros lo hi g H. unfold replay_randint, draw. simpl.
    destruct (Z.ltb_spec lo hi); [|lia].
    pose proof (Z.mod_pos_bound (Qfloor (fst (pop g))) (hi - lo)). lia.
  - intros lo hi g H. unfold draw, clamp. simpl. split.
    + apply Q.le_max_l.
    + apply Q.max_lub; [exact H|apply Q.le_min_l].
  - intros mu sigma g. unfold draw. simpl. apply Qabs_nonneg.
  - intros a b g. unfold draw, clamp. simpl. split.
    + apply Q.le_max_l.
    + apply Q.max_lub; [discriminate|apply Q.le_min_l].
  - intros p g H. unfold replay_choice_index, draw. simpl.
    assert (L : 0 < Z.of_nat (length p)) by (destruct p; [congruence|simpl; lia]).
    pose proof (Z.mod_pos_bound (Qfloor (fst (pop g))) _ L). lia.
Defined.

#[export] Instance replay_faker : FakerSource tape := {|
  faker_seed := fun s _ => [inject_Z s];
  date_between := replay_date_between;
  faker_seed_resets := fun _ _ _ => eq_refl
|}.

(** Integer exponents are exact; the replayed runs only use those. *)
#[export] Instance replay_pow : FloatPow :=
  {| fpow := fun x y => Qpower x (Qfloor y) |}.

End Replay.

(** ** Replayed runs

    Concrete runs of the generators on recorded tapes; the columns and
    tables are the values the embedding computes.  A claims table is
    assembled as at lines 148-165 from the columns that a run of lines
    23-134 computes and an attribute column of empty JSON objects: a
    table as a caller passes it to [generate_reserves]. *)

Module Scenarios.

Import Dates Replay.

Definition table {A} (r : exn + (list A * tape)) : list A :=
  match r with
  | inr (rows, _) => rows
  | inl _ => []
  end.

Definition no_columns : Claims.Columns :=
  Claims.Build_Columns [] [] [] [] [] [] [] [] [] [] [] [] [] [].

Definition columns (r : exn + (Claims.Columns * tape)) : Claims.Columns :=
  match r with
  | inr (cols, _) => cols
  | inl _ => no_columns
  end.

(** Two claims with the same accident date, reported one and two days
    later. *)
Definition two_claims_tape : tape :=
  [3; 7;  2; 2;  0; 9; 0; 9;  1 / 30; 2 / 30;  100; 200;  0; 0;
   0.3; 0.4;  0; 1;  0; 1;  0; 10]%Q.

Definition two_columns : Claims.Columns :=
  Eval vm_compute in columns (Claims.claim_columns 10 2 two_claims_tape).

Definition two_attributes : list string := ["{}"; "{}"]%string.

Definition two_claims : list Claims.Claim :=
  Eval vm_compute in Claims.data_frame two_columns two_attributes.

Definition first_claim : Claims.Claim :=
  Eval vm_compute in
    nth 0 two_claims
      (Claims.Build_Claim 0 "" 0 (mkdate 0 0 0) (mkdate 0 0 0) 0 0 "" "" "" ""
         0 0 0 0 "").

Definition second_claim : Claims.Claim :=
  Eval vm_compute in nth 1 two_claims first_claim.

(** The draws of the attributes of the first claim, which line 145
    then fails to serialise. *)
Definition attribute_draws : tape := [0; 1; 1; 1]%Q.

(** The reserves of the two claims: two cohorts of one claim each. *)
Definition two_cohorts_tape : tape :=
  [1; 2;  0; 1.15; 0; 1.19;  0.07; 0.08;  0.15; 0.2;  20; 0.9; 30; 0.8;
   1; 2]%Q.

Definition two_cohorts : list Reserves.ContractGroup :=
  Eval vm_compute in table (Reserves.generate_reserves two_claims two_cohorts_tape).

Definition default_cohort : Reserves.ContractGroup :=
  Reserves.Build_ContractGroup "" "" 0 0 0 0 0 0 "" (mkdate 0 0 0)
    0 0 0 0 0 0 0 "" 0 0 0 0 0 0
    (Reserves.Build_ReserveMetadata (Reserves.Build_ActuarialAssumptions 0 0)
       "" 0 (mkdate 0 0 0)).

Definition first_cohort : Reserves.ContractGroup :=
  Eval vm_compute in nth 0 two_cohorts default_cohort.

(** One claim of the given initial reserve, developed by a factor of
    exactly 1. *)
Definition one_claim_tape (raw : Q) : tape :=
  [3; 3;  0; 9;  1 / 30;  raw;  0.5;  0.3;  0; 0; 0]%Q.

Definition one_claim (raw : Q) : list Claims.Claim :=
  Claims.data_frame (columns (Claims.claim_columns 10 1 (one_claim_tape raw)))
                    ["{}"]%string.

Definition one_cohort_tape : tape :=
  [0;  0; 1.19;  0.051;  0.101;  8; 0.9;  1]%Q.

(** A claim whose initial reserve rounds to 0.00: a cohort with
    [total_incurred = 0]. *)
Definition zero_claims : list Claims.Claim :=
  Eval vm_compute in one_claim 0.001.

Definition zero_cohort : Reserves.ContractGroup :=
  Eval vm_compute in
    nth 0 (table (Reserves.generate_reserves zero_claims one_cohort_tape))
      default_cohort.

(** A small profitable cohort. *)
Definition small_claims : list Claims.Claim :=
  Eval vm_compute in one_claim 2.18.

Definition small_cohort : Reserves.ContractGroup :=
  Eval vm_compute in
    nth 0 (table (Reserves.generate_reserves small_claims one_cohort_tape))
      default_cohort.

(** A cohort of one claim of 1.00 whose premiums of 1.05 cover claims of
    0.88, acquisition costs of 0.13 and a risk adjustment of 0.04: the
    net margin is the rounding error of the three subtractions. *)
Definition thin_claims : list Claims.Claim :=
  Eval vm_compute in one_claim 1.

Definition thin_cohort_tape : tape :=
  [0;  0; 1.2;  0.05;  0.12;  8; 0.9;  1]%Q.

Definition thin_cohort : Reserves.ContractGroup :=
  Eval vm_compute in
    nth 0 (table (Reserves.generate_reserves thin_claims thin_cohort_tape))
      default_cohort.

End Scenarios.

(** ** Vocabulary of the properties *)

Module Text.

(** The number a string of decimal digits denotes, leading zeros
    allowed; [None] when a character is not a digit. *)
Definition value (s : string) : option N :=
  option_map N.of_uint (NilEmpty.uint_of_string s).

(** Whether a character occurs in a string. *)
Fixpoint has_char (c : ascii) (s : string) : bool :=
  match s with
  | EmptyString => false
  | String a s' => Ascii.eqb a c || has_char c s'
  end.

End Text.

Module Cohorts.

Import Reserves.

(** The aggregate columns of a returned row, as a row of the grouped
    table. *)
Definition row_group (r : ContractGroup) : Group :=
  {| g_line_of_business := line_of_business r;
     g_geography := geography r;
     g_cohort_year := cohort_year r;
     g_policy_count := policy_count r;
     g_claim_count := claim_count r;
     g_total_incurred := total_incurred r;
     g_total_paid := total_paid r;
     g_total_outstanding := total_outstanding r |}.

(** The sum of an integer column. *)
Definition total (xs : list Z) : Z := fold_right Z.add 0 xs.

End Cohorts.

(** ** generate_all.py *)

Module GenerateAll.

(** The values [argparse] accepts for [--scale] and [--format]. *)
Inductive scale : Set := Sample | Medium | Full.
Inductive format : Set := Csv | Parquet.

Definition format_name (f : format) : string :=
  match f with
  | Csv => "csv"
  | Parquet => "parquet"
  end.

(** One entry of [scales]: the numbers of policies and of claims. *)
Record config := { policies : Z; claims : Z }.

(** Lines 34-40. *)
Definition scales (s : scale) : config :=
  match s with
  | Sample => {| policies := 100000; claims := 500000 |}
  | Medium => {| policies := 1000000; claims := 5000000 |}
  | Full => {| policies := 15000000; claims := 100000000 |}
  end.

(** What a call of [save_data] leaves in the output directory: the file
    name, the writer used and the number of records. *)
Record saved := { file_name : string; writer : format; records : nat }.

(** Lines 71-79: any format other than ['parquet'] is written as CSV. *)
Definition save_data {A} (df : list A) (name format_type : string) : saved :=
  {| file_name := (name ++ "." ++ format_type)%string;
     writer := if (format_type =? "parquet")%string then Parquet else Csv;
     records := length df |}.

Section WithRandom.

Context {G F : Type} {R : RandomSource G} {K : FakerSource F} {P : FloatPow}.

(** Lines 48-68 of [main]: the files saved before the run ended, and
    either the exception that ended it or the total number of records.
    The three generators share numpy's generator, each continuing where
    the previous one stopped. *)
Definition main (s : scale) (f : format) (st : G * F)
  : list saved * (exn + nat) :=
  let config := scales s in
  let fmt := format_name f in
  match Policies.generate_policies (policies config) st with
  | inl e => ([], inl e)
  | inr (policies_df, st1) =>
      let out1 := [save_data policies_df "policies" fmt] in
      match Claims.generate_claims (policies config) (claims config) (fst st1) with
      | inl e => (out1, inl e)
      | inr (claims_df, g2) =>
          let out2 := out1 ++ [save_data claims_df "claims" fmt] in
          match Reserves.generate_reserves claims_df g2 with
          | inl e => (out2, inl e)
          | inr (reserves_df, g3) =>
              (out2 ++ [save_data reserves_df "reserves" fmt],
               inr (length policies_df + length claims_df
                    + length reserves_df)%nat)
          end
      end
  end.

End WithRandom.

End GenerateAll.

(** ** Facts about rounding *)

Section RoundFacts.

Local Open Scope Q_scope.
Import Py.

Lemma pow10_pos n : 0 < pow10 n.
Proof.
  unfold pow10. change 0 with (inject_Z 0). rewrite <- Zlt_Qlt.
  apply Z.pow_pos_nonneg; lia.
Qed.

#[global] Instance round_half_even_comp : Proper (Qeq ==> eq) round_half_even.
Proof.
  intros x y E. unfold round_half_even.
  rewrite (Qfloor_comp _ _ E).
  assert (C : Qcompare (x - inject_Z (Qfloor y)) (1 # 2) = Qcompare (y - inject_Z (Qfloor y)) (1 # 2)).
  { apply Qcompare_comp; [rewrite E|]; reflexivity. }
  rewrite C. reflexivity.
Qed.

Lemma round_half_even_spec x :
  let r := round_half_even x in
  inject_Z r - x <= 1 # 2 /\ x - inject_Z r <= 1 # 2 /\
  (inject_Z r - x == 1 # 2 -> Z.even r = true) /\
  (x - inject_Z r == 1 # 2 -> Z.even r = true).
Proof.
  cbv zeta. unfold round_half_even.
  pose proof (Qfloor_le x) as Hlo. pose proof (Qlt_floor x) as Hhi.
  rewrite inject_Z_plus in Hhi. change (inject_Z 1) with 1 in Hhi.
  set (f := Qfloor x) in *.
  destruct (Qcompare (x - inject_Z f) (1 # 2)) eqn:C.
  - rewrite <- Qeq_alt in C. destruct (Z.even f) eqn:Ev.
    + repeat split; try lra. intros _; exact Ev.
    + rewrite inject_Z_plus. change (inject_Z 1) with 1.
      repeat split; try lra.
      intros _. rewrite Z.even_add, Ev. reflexivity.
  - rewrite <- Qlt_alt in C. repeat split; try lra.
  - rewrite <- Qgt_alt in C. rewrite inject_Z_plus. change (inject_Z 1) with 1.
    repeat split; try lra.
Qed.

Lemma round_half_even_mono x y : x <= y -> (round_half_even x <= round_half_even y)%Z.
Proof.
  intros L.
  destruct (round_half_even_spec x) as (Hx & _ & Ex & _).
  destruct (round_half_even_spec y) as (_ & Hy & _ & Ey).
  destruct (Z_le_gt_dec (round_half_even x) (round_half_even y)) as [|G]; [assumption|].
  exfalso.
  assert (G' : inject_Z (round_half_even y) + 1 <= inject_Z (round_half_even x)).
  { change 1 with (inject_Z 1). rewrite <- inject_Z_plus, <- Zle_Qle.
    clear - G. lia. }
  assert (Ex' : Z.even (round_half_even x) = true) by (apply Ex; lra).
  assert (Ey' : Z.even (round_half_even y) = true) by (apply Ey; lra).
  assert (E : round_half_even x = (round_half_even y + 1)%Z).
  { apply Z.le_antisymm; [|lia].
    rewrite Zle_Qle, inject_Z_plus. change (inject_Z 1) with 1. lra. }
  rewrite E, Z.even_add, Ey' in Ex'. discriminate.
Qed.

Lemma round_half_even_Z k : round_half_even (inject_Z k) = k.
Proof.
  unfold round_half_even. rewrite Qfloor_Z.
  assert (C : Qcompare (inject_Z k - inject_Z k) (1 # 2) = Lt).
  { rewrite <- Qlt_alt. lra. }
  rewrite C. reflexivity.
Qed.

#[global] Instance round_comp : Proper (Qeq ==> eq ==> Qeq) round.
Proof.
  intros x y E n ? <-. unfold round.
  assert (E' : x * pow10 n == y * pow10 n) by (rewrite E; reflexivity).
  rewrite (round_half_even_comp _ _ E'). reflexivity.
Qed.

Lemma round_mono x y n : x <= y -> round x n <= round y n.
Proof.
  intros L. unfold round. pose proof (pow10_pos n) as P.
  assert (M : (round_half_even (x * pow10 n) <= round_half_even (y * pow10 n))%Z).
  { apply round_half_even_mono. apply Qmult_le_compat_r; lra. }
  rewrite Zle_Qle in M.
  apply Qle_shift_div_l; [exact P|].
  unfold Qdiv. rewrite <- Qmult_assoc, (Qmult_comm (/ _)), Qmult_inv_r by lra.
  lra.
Qed.

Lemma round_decimals x n : decimals n x -> round x n == x.
Proof.
  intros [k E]. pose proof (pow10_pos n) as P. unfold round.
  assert (E' : x * pow10 n == inject_Z k).
  { rewrite E. field. lra. }
  rewrite (round_half_even_comp _ _ E'), round_half_even_Z, E. reflexivity.
Qed.

Lemma decimals_round x n : decimals n (round x n).
Proof. eexists. unfold round. reflexivity. Qed.

Lemma round_0 n : round 0 n == 0.
Proof.
  apply round_decimals. exists 0%Z. pose proof (pow10_pos n).
  change (inject_Z 0) with 0. field. lra.
Qed.

Lemma round_nonneg x n : 0 <= x -> 0 <= round x n.
Proof. intros H. rewrite <- (round_0 n). apply round_mono, H. Qed.

Lemma round_nonpos x n : x <= 0 -> round x n <= 0.
Proof. intros H. rewrite <- (round_0 n). apply round_mono, H. Qed.

(** Less than half a cent rounds to nothing. *)
Lemma round_below_half_cent x : 0 <= x -> x < 0.005 -> round x 2 == 0.
Proof.
  intros H0 H1. unfold round.
  destruct (round_half_even_spec (x * pow10 2)) as (A & B & _).
  assert (P : pow10 2 == 100) by reflexivity.
  set (k := round_half_even (x * pow10 2)) in *.
  assert (K : k = 0%Z).
  { assert (inject_Z k < inject_Z 1) by (change (inject_Z 1) with 1; nra).
    assert (inject_Z (-1) < inject_Z k)
      by (change (inject_Z (-1)) with (-1 # 1); nra).
    rewrite <- Zlt_Qlt in *. lia. }
  rewrite K. reflexivity.
Qed.

End RoundFacts.

(** ** Facts about double precision *)

Section Float64Facts.

Import Float64.

Local Open Scope Q_scope.

Lemma two_nonzero : ~ 2 == 0.
Proof. discriminate. Qed.

Lemma pow2_pos e : 0 < 2 ^ e.
Proof. apply Qpower_0_lt. reflexivity. Qed.

Lemma pow2_Z (a : Z) : (0 <= a)%Z -> 2 ^ a == inject_Z (2 ^ a).
Proof. intros Ha. symmetry. apply (Zpower_Qpower 2 a Ha). Qed.

Lemma pow2_sub a b : 2 ^ (a - b) == 2 ^ a / 2 ^ b.
Proof.
  unfold Z.sub, Qdiv. rewrite Qpower_plus by exact two_nonzero.
  rewrite Qpower_opp. reflexivity.
Qed.

Lemma pow2_le a b : (a <= b)%Z -> 2 ^ a <= 2 ^ b.
Proof. intros H. apply Qpower_le_compat_l; [exact H | discriminate]. Qed.

Lemma pow2_lt_inv a b : 2 ^ a < 2 ^ b -> (a < b)%Z.
Proof. intros H. apply (Qpower_lt_compat_l_inv 2); [exact H | reflexivity]. Qed.

Lemma Qnum_pos q : 0 < q -> (0 < Qnum q)%Z.
Proof. unfold Qlt. simpl. lia. Qed.

Lemma binade_spec q : 0 < q -> 2 ^ binade q <= q /\ q < 2 ^ (binade q + 1).
Proof.
  intros Hq. pose proof (Qnum_pos q Hq) as Hn.
  destruct (Z.log2_spec (Qnum q) Hn) as [Ha1 Ha2].
  destruct (Z.log2_spec (Zpos (Qden q)) (Pos2Z.is_pos _)) as [Hb1 Hb2].
  pose proof (Z.log2_nonneg (Qnum q)) as Ha0.
  pose proof (Z.log2_nonneg (Zpos (Qden q))) as Hb0.
  set (a := Z.log2 (Qnum q)) in *. set (b := Z.log2 (Zpos (Qden q))) in *.
  assert (Hpa : (0 < 2 ^ a)%Z) by (apply Z.pow_pos_nonneg; lia).
  assert (Hpb : (0 < 2 ^ b)%Z) by (apply Z.pow_pos_nonneg; lia).
  assert (Hup : q < 2 ^ (a - b + 1)).
  { replace (a - b + 1)%Z with (Z.succ a - b)%Z by lia.
    rewrite pow2_sub, !pow2_Z by lia.
    apply Qlt_shift_div_l; [unfold Qlt; simpl; lia|].
    unfold Qlt, Qmult, inject_Z. simpl. nia. }
  assert (Hlo : 2 ^ (a - b - 1) <= q).
  { replace (a - b - 1)%Z with (a - Z.succ b)%Z by lia.
    rewrite pow2_sub, !pow2_Z by lia.
    apply Qle_shift_div_r; [unfold Qlt; simpl; lia|].
    unfold Qle, Qmult, inject_Z. simpl. nia. }
  unfold binade. fold a b.
  destruct (Qle_bool (2 ^ (a - b)) q) eqn:E.
  - apply Qle_bool_iff in E. split; assumption.
  - split; [exact Hlo|].
    replace (a - b - 1 + 1)%Z with (a - b)%Z by lia.
    apply Qnot_le_lt. intros H. apply Qle_bool_iff in H. congruence.
Qed.

Lemma binade_unique q e :
  0 < q -> 2 ^ e <= q -> q < 2 ^ (e + 1) -> binade q = e.
Proof.
  intros Hq H1 H2. destruct (binade_spec q Hq) as [B1 B2].
  assert (e < binade q + 1)%Z
    by (apply pow2_lt_inv; eapply Qle_lt_trans; eassumption).
  assert (binade q < e + 1)%Z
    by (apply pow2_lt_inv; eapply Qle_lt_trans; eassumption).
  lia.
Qed.

Lemma binade_mono x y : 0 < x -> x <= y -> (binade x <= binade y)%Z.
Proof.
  intros Hx Hxy.
  assert (Hy : 0 < y) by (eapply Qlt_le_trans; eassumption).
  destruct (binade_spec x Hx) as [X1 _]. destruct (binade_spec y Hy) as [_ Y2].
  assert (binade x < binade y + 1)%Z; [|lia].
  apply pow2_lt_inv. eapply Qle_lt_trans; [exact X1|].
  eapply Qle_lt_trans; eassumption.
Qed.

Lemma binade_comp x y : 0 < x -> x == y -> binade x = binade y.
Proof.
  intros Hx E. symmetry. destruct (binade_spec x Hx) as [X1 X2].
  apply binade_unique; rewrite <- ?E; assumption.
Qed.

Lemma round_pos_comp x y : 0 < x -> x == y -> round_pos x == round_pos y.
Proof.
  intros Hx E. unfold round_pos, ulp_exponent.
  rewrite (binade_comp x y Hx E).
  rewrite (round_half_even_comp _ (y / 2 ^ Z.max (binade y - 52) (-1074))).
  - reflexivity.
  - rewrite E. reflexivity.
Qed.

Lemma round_pos_nonneg q : 0 <= q -> 0 <= round_pos q.
Proof.
  intros Hq. unfold round_pos.
  apply Qmult_le_0_compat; [|apply Qlt_le_weak, pow2_pos].
  change 0 with (inject_Z 0). rewrite <- Zle_Qle.
  rewrite <- (round_half_even_Z 0). apply round_half_even_mono.
  apply Qle_shift_div_l; [apply pow2_pos|]. rewrite Qmult_0_l. exact Hq.
Qed.

Lemma round_pos_mono x y : 0 < x -> x <= y -> round_pos x <= round_pos y.
Proof.
  intros Hx Hxy.
  assert (Hy : 0 < y) by (eapply Qlt_le_trans; eassumption).
  pose proof (binade_mono x y Hx Hxy) as Hb.
  destruct (binade_spec x Hx) as [X1 X2]. destruct (binade_spec y Hy) as [Y1 Y2].
  unfold round_pos, ulp_exponent.
  set (px := Z.max (binade x - 52) (-1074)).
  set (py := Z.max (binade y - 52) (-1074)).
  destruct (Z.eq_dec px py) as [E | N].
  - rewrite E. apply Qmult_le_compat_r; [|apply Qlt_le_weak, pow2_pos].
    rewrite <- Zle_Qle. apply round_half_even_mono.
    apply Qmult_le_compat_r; [exact Hxy|].
    apply Qlt_le_weak, Qinv_lt_0_compat, pow2_pos.
  - assert (Hpy : py = (binade y - 52)%Z) by lia.
    assert (Hlt : (binade x + 1 <= binade y)%Z) by lia.
    assert (Hd : (0 <= binade y - px)%Z) by lia.
    apply Qle_trans with (2 ^ binade y).
    + apply Qle_trans with (inject_Z (2 ^ (binade y - px)) * 2 ^ px).
      * apply Qmult_le_compat_r; [|apply Qlt_le_weak, pow2_pos].
        rewrite <- Zle_Qle.
        rewrite <- (round_half_even_Z (2 ^ (binade y - px))).
        apply round_half_even_mono.
        rewrite <- pow2_Z by exact Hd. rewrite pow2_sub.
        apply Qmult_le_compat_r;
          [|apply Qlt_le_weak, Qinv_lt_0_compat, pow2_pos].
        apply Qlt_le_weak. eapply Qlt_le_trans; [exact X2|].
        apply pow2_le. exact Hlt.
      * rewrite <- pow2_Z by exact Hd. rewrite pow2_sub.
        unfold Qdiv. rewrite <- Qmult_assoc, (Qmult_comm (/ _)).
        rewrite Qmult_inv_r, Qmult_1_r;
          [apply Qle_refl | apply Qnot_eq_sym, Qlt_not_eq, pow2_pos].
    + apply Qle_trans with (inject_Z (2 ^ 52) * 2 ^ py).
      * rewrite <- pow2_Z by lia. rewrite Hpy.
        rewrite <- Qpower_plus by exact two_nonzero.
        replace (52 + (binade y - 52))%Z with (binade y) by lia.
        apply Qle_refl.
      * apply Qmult_le_compat_r; [|apply Qlt_le_weak, pow2_pos].
        rewrite <- Zle_Qle.
        rewrite <- (round_half_even_Z (2 ^ 52)) at 1.
        apply round_half_even_mono.
        rewrite <- pow2_Z by lia.
        apply Qle_shift_div_l; [apply pow2_pos|].
        rewrite Hpy, <- Qpower_plus by exact two_nonzero.
        replace (52 + (binade y - 52))%Z with (binade y) by lia.
        exact Y1.
Qed.

Lemma of_Q_zero q : q == 0 -> of_Q q = 0.
Proof.
  intros E. unfold of_Q. rewrite (proj1 (Qeq_alt q 0) E). reflexivity.
Qed.

Lemma of_Q_pos q : 0 < q -> of_Q q = round_pos q.
Proof.
  intros H. unfold of_Q. rewrite (proj1 (Qgt_alt q 0) H). reflexivity.
Qed.

Lemma of_Q_neg q : q < 0 -> of_Q q = - round_pos (- q).
Proof.
  intros H. unfold of_Q. rewrite (proj1 (Qlt_alt q 0) H). reflexivity.
Qed.

Lemma of_Q_nonneg q : 0 <= q -> 0 <= of_Q q.
Proof.
  intros H. destruct (Qlt_le_dec 0 q) as [P | N].
  - rewrite of_Q_pos by exact P. apply round_pos_nonneg, H.
  - rewrite of_Q_zero; [apply Qle_refl | apply Qle_antisym; assumption].
Qed.

Lemma of_Q_nonpos q : q <= 0 -> of_Q q <= 0.
Proof.
  intros H. destruct (Qlt_le_dec q 0) as [P | N].
  - rewrite of_Q_neg by exact P.
    assert (0 <= round_pos (- q)) by (apply round_pos_nonneg; lra). lra.
  - rewrite of_Q_zero; [apply Qle_refl | apply Qle_antisym; assumption].
Qed.

Lemma of_Q_mono x y : x <= y -> of_Q x <= of_Q y.
Proof.
  intros H. destruct (Qlt_le_dec 0 x) as [Px | Nx].
  - rewrite !of_Q_pos by lra. apply round_pos_mono; assumption.
  - destruct (Qlt_le_dec y 0) as [Ly | Py].
    + rewrite !of_Q_neg by lra.
      assert (round_pos (- y) <= round_pos (- x))
        by (apply round_pos_mono; lra).
      lra.
    + apply Qle_trans with 0; [apply of_Q_nonpos, Nx | apply of_Q_nonneg, Py].
Qed.

Lemma of_Q_comp x y : x == y -> of_Q x == of_Q y.
Proof.
  intros E. destruct (Qlt_le_dec 0 x) as [Px | Nx].
  - rewrite !of_Q_pos by lra. apply round_pos_comp; assumption.
  - destruct (Qlt_le_dec x 0) as [Lx | Zx].
    + rewrite !of_Q_neg by lra.
      rewrite (round_pos_comp (- x) (- y)); [reflexivity | lra | lra].
    + rewrite !of_Q_zero by lra. reflexivity.
Qed.

Lemma sub_nonneg x y : y <= x -> 0 <= sub x y.
Proof.
  intros H. unfold sub. apply of_Q_nonneg.
  pose proof (of_Q_mono y x H). lra.
Qed.


Lemma sub_comp x x' y y' : x == x' -> y == y' -> sub x y == sub x' y'.
Proof.
  intros Hx Hy. unfold sub. apply of_Q_comp.
  rewrite (of_Q_comp x x' Hx), (of_Q_comp y y' Hy). reflexivity.
Qed.

End Float64Facts.

(** ** Facts about calendar dates *)

Section DateFacts.

Import Dates.

Lemma days_in_month_bounds y m : 28 <= days_in_month y m <= 31.
Proof.
  unfold days_in_month.
  destruct (m =? 2); [destruct (is_leap y); lia|].
  destruct ((m =? 4) || (m =? 6) || (m =? 9) || (m =? 11))%bool; lia.
Qed.

Lemma valid_next_day d : valid d -> valid (next_day d).
Proof.
  unfold valid, next_day. intros [Hm Hd].
  destruct (Z.ltb_spec (day d) (days_in_month (year d) (month d))); simpl.
  - lia.
  - destruct (Z.ltb_spec (month d) 12); simpl.
    + pose proof (days_in_month_bounds (year d) (month d + 1)). lia.
    + pose proof (days_in_month_bounds (year d + 1) 1). lia.
Qed.

Lemma valid_prev_day d : valid d -> valid (prev_day d).
Proof.
  unfold valid, prev_day. intros [Hm Hd].
  destruct (Z.ltb_spec 1 (day d)); simpl.
  - lia.
  - destruct (Z.ltb_spec 1 (month d)); simpl.
    + pose proof (days_in_month_bounds (year d) (month d - 1)). lia.
    + unfold days_in_month. simpl. lia.
Qed.

Lemma month_cases m : 1 <= m <= 12 ->
  m = 1 \/ m = 2 \/ m = 3 \/ m = 4 \/ m = 5 \/ m = 6 \/
  m = 7 \/ m = 8 \/ m = 9 \/ m = 10 \/ m = 11 \/ m = 12.
Proof. lia. Qed.

Lemma days_before_month_succ y m : 1 <= m < 12 ->
  days_before_month y (m + 1) = days_before_month y m + days_in_month y m.
Proof.
  intros H. assert (H' : 1 <= m <= 12) by lia.
  destruct (month_cases m H') as [E|[E|[E|[E|[E|[E|[E|[E|[E|[E|[E|E]]]]]]]]]]];
    subst m; try lia;
    unfold days_before_month, days_in_month; simpl;
    destruct (is_leap y); simpl; lia.
Qed.

Lemma days_before_year_succ y :
  days_before_year (y + 1) =
  days_before_year y + 365 + (if is_leap y then 1 else 0).
Proof.
  unfold days_before_year, is_leap. cbv zeta.
  replace (y + 1 - 1) with y by lia.
  destruct (Z.eqb_spec (y mod 4) 0), (Z.eqb_spec (y mod 100) 0),
    (Z.eqb_spec (y mod 400) 0); simpl;
    Z.div_mod_to_equations; lia.
Qed.

Lemma toordinal_next_day d : valid d -> toordinal (next_day d) = toordinal d + 1.
Proof.
  unfold valid, next_day, toordinal. intros [Hm Hd].
  destruct (Z.ltb_spec (day d) (days_in_month (year d) (month d))); simpl.
  - lia.
  - destruct (Z.ltb_spec (month d) 12); simpl.
    + rewrite days_before_month_succ by lia. lia.
    + assert (E : month d = 12) by lia. rewrite E in *.
      rewrite days_before_year_succ.
      unfold days_before_month, days_in_month in *. simpl in *.
      destruct (is_leap (year d)); simpl; lia.
Qed.

Lemma next_prev_day d : valid d -> next_day (prev_day d) = d.
Proof.
  destruct d as [y m k]. unfold valid, next_day, prev_day. simpl. intros [Hm Hd].
  destruct (Z.ltb_spec 1 k); simpl.
  - destruct (Z.ltb_spec (k - 1) (days_in_month y m)); [|lia].
    f_equal. lia.
  - destruct (Z.ltb_spec 1 m); simpl.
    + rewrite Z.ltb_irrefl.
      destruct (Z.ltb_spec (m - 1) 12); [|lia]. f_equal; lia.
    + assert (m = 1) by lia. subst m.
      unfold days_in_month. simpl. f_equal; lia.
Qed.

Lemma toordinal_prev_day d : valid d -> toordinal (prev_day d) = toordinal d - 1.
Proof.
  intros V. pose proof (toordinal_next_day _ (valid_prev_day _ V)) as H.
  rewrite next_prev_day in H by assumption. lia.
Qed.

Lemma iter_next_day_spec n d : valid d ->
  valid (Nat.iter n next_day d) /\
  toordinal (Nat.iter n next_day d) = toordinal d + Z.of_nat n.
Proof.
  intros V. induction n as [|n [IV IO]].
  - simpl. split; [assumption|lia].
  - rewrite Nat.iter_succ. split.
    + apply valid_next_day, IV.
    + rewrite toordinal_next_day by exact IV. lia.
Qed.

Lemma iter_prev_day_spec n d : valid d ->
  valid (Nat.iter n prev_day d) /\
  toordinal (Nat.iter n prev_day d) = toordinal d - Z.of_nat n.
Proof.
  intros V. induction n as [|n [IV IO]].
  - simpl. split; [assumption|lia].
  - rewrite Nat.iter_succ. split.
    + apply valid_prev_day, IV.
    + rewrite toordinal_prev_day by exact IV. lia.
Qed.

Lemma valid_add_days d n : valid d -> valid (add_days d n).
Proof.
  intros V. unfold add_days. destruct (0 <=? n).
  - apply iter_next_day_spec, V.
  - apply iter_prev_day_spec, V.
Qed.

(** Day-by-day addition agrees with ordinal arithmetic. *)
Lemma toordinal_add_days d n : valid d -> toordinal (add_days d n) = toordinal d + n.
Proof.
  intros V. unfold add_days. destruct (Z.leb_spec 0 n).
  - destruct (iter_next_day_spec (Z.to_nat n) d V) as [_ E]. rewrite E. lia.
  - destruct (iter_prev_day_spec (Z.to_nat (- n)) d V) as [_ E]. rewrite E. lia.
Qed.

Lemma month_index_next_day d : valid d ->
  month_index d <= month_index (next_day d).
Proof.
  unfold valid, next_day, month_index. intros [Hm Hd].
  destruct (day d <? days_in_month (year d) (month d)); simpl; [lia|].
  destruct (Z.ltb_spec (month d) 12); simpl; lia.
Qed.

Lemma month_index_iter_next_day n d : valid d ->
  month_index d <= month_index (Nat.iter n next_day d).
Proof.
  intros V. induction n as [|n IH].
  - simpl. lia.
  - rewrite Nat.iter_succ.
    pose proof (month_index_next_day _ (proj1 (iter_next_day_spec n d V))). lia.
Qed.

(** A later report date (more days added) never has a smaller month
    index. *)
Lemma month_index_add_days_mono d n1 n2 : valid d -> 0 <= n1 <= n2 ->
  month_index (add_days d n1) <= month_index (add_days d n2).
Proof.
  intros V [H1 H2]. unfold add_days.
  destruct (Z.leb_spec 0 n1); [|lia]. destruct (Z.leb_spec 0 n2); [|lia].
  replace (Z.to_nat n2) with ((Z.to_nat n2 - Z.to_nat n1) + Z.to_nat n1)%nat by lia.
  rewrite Nat.iter_add.
  apply month_index_iter_next_day, iter_next_day_spec, V.
Qed.

Lemma compare_refl d : compare d d = Eq.
Proof. unfold compare. rewrite !Z.compare_refl. reflexivity. Qed.

Lemma le_refl d : le d d.
Proof. unfold le. rewrite compare_refl. discriminate. Qed.

Lemma lt_iff a b : lt a b <->
  year a < year b \/
  (year a = year b /\ (month a < month b \/ (month a = month b /\ day a < day b))).
Proof.
  unfold lt, compare.
  destruct (Z.compare_spec (year a) (year b));
  destruct (Z.compare_spec (month a) (month b));
  destruct (Z.compare_spec (day a) (day b));
    split; intros HH; try discriminate HH; try reflexivity; lia.
Qed.

Lemma le_iff a b : le a b <->
  year a < year b \/
  (year a = year b /\ (month a < month b \/ (month a = month b /\ day a <= day b))).
Proof.
  unfold le, compare.
  destruct (Z.compare_spec (year a) (year b));
  destruct (Z.compare_spec (month a) (month b));
  destruct (Z.compare_spec (day a) (day b));
    split; intros HH; try discriminate; try congruence; lia.
Qed.

Lemma lt_next_day d : lt d (next_day d).
Proof.
  apply lt_iff. unfold next_day.
  destruct (day d <? days_in_month (year d) (month d)); simpl; [lia|].
  destruct (Z.ltb_spec (month d) 12); simpl; lia.
Qed.

Lemma le_lt_trans a b c : le a b -> lt b c -> lt a c.
Proof. rewrite le_iff, !lt_iff. lia. Qed.

Lemma lt_le a b : lt a b -> le a b.
Proof. unfold lt, le. intros ->. discriminate. Qed.

Lemma le_iter_next_day n d : le d (Nat.iter n next_day d).
Proof.
  induction n as [|n IH].
  - apply le_refl.
  - rewrite Nat.iter_succ. apply lt_le.
    eapply le_lt_trans; [exact IH|apply lt_next_day].
Qed.

Lemma le_add_days d n : 0 <= n -> le d (add_days d n).
Proof.
  intros H. unfold add_days. destruct (Z.leb_spec 0 n); [|lia].
  apply le_iter_next_day.
Qed.

End DateFacts.

(** ** Facts about the monad and its loops *)

Section MonadFacts.

Context {G : Type}.

Lemma bind_inr {A B} (c : M G A) (k : A -> M G B) g r :
  bind c k g = inr r -> exists a g1, c g = inr (a, g1) /\ k a g1 = inr r.
Proof.
  unfold bind. destruct (c g) as [e|[a g1]]; [discriminate|].
  intros H. exists a, g1. split; [reflexivity|exact H].
Qed.

Lemma ret_inr {A} (a : A) (g : G) r : ret a g = inr r -> r = (a, g).
Proof. unfold ret. congruence. Qed.

(** Every element of a loop's result comes from one run of its body. *)
Lemma mapM_Forall2 {A B} (f : A -> M G B) xs : forall g ys g',
  mapM f xs g = inr (ys, g') ->
  Forall2 (fun x y => exists g1 g2, f x g1 = inr (y, g2)) xs ys.
Proof.
  induction xs as [|x xs IH]; intros g ys g' H; simpl in H.
  - apply ret_inr in H. inversion H. constructor.
  - apply bind_inr in H. destruct H as (y & g1 & Hy & H).
    apply bind_inr in H. destruct H as (ys' & g2 & Hys & H).
    apply ret_inr in H. inversion H; subst.
    constructor; [eauto|eapply IH; eauto].
Qed.

Lemma mapM_length {A B} (f : A -> M G B) xs g ys g' :
  mapM f xs g = inr (ys, g') -> length ys = length xs.
Proof.
  intros H. apply mapM_Forall2 in H. symmetry. eapply Forall2_length, H.
Qed.

(** A loop whose body never raises returns. *)
Lemma mapM_total {A B} (f : A -> M G B) xs :
  (forall x g, In x xs -> exists y g', f x g = inr (y, g')) ->
  forall g, exists ys g', mapM f xs g = inr (ys, g').
Proof.
  induction xs as [|x xs IH]; intros Hf g; simpl.
  - eexists _, _. reflexivity.
  - destruct (Hf x g (or_introl eq_refl)) as (y & g1 & Hy).
    destruct (IH (fun x' g0 Hin => Hf x' g0 (or_intror Hin)) g1) as (ys & g2 & Hys).
    exists (y :: ys), g2. unfold bind. rewrite Hy, Hys. reflexivity.
Qed.

Lemma draw_array_inr {A} size (draw : G -> A * G) g ys g' :
  draw_array size draw g = inr (ys, g') ->
  0 <= size /\ length ys = Z.to_nat size /\
  Forall (fun y => exists g1, y = fst (draw g1)) ys.
Proof.
  unfold draw_array. destruct (Z.ltb_spec size 0) as [Hs|Hs]; [discriminate|].
  intros HM. split; [lia|]. split.
  - apply mapM_length in HM. rewrite HM, repeat_length. reflexivity.
  - apply mapM_Forall2 in HM.
    induction HM as [|x y xs ys' (g1 & g2 & E) _ IH]; constructor; [|exact IH].
    exists g1. unfold lift in E. inversion E as [E']. rewrite E'. reflexivity.
Qed.

Lemma zip_with_length {A B C} (f : A -> B -> C) xs ys :
  length ys = length xs -> length (zip_with f xs ys) = length xs.
Proof.
  revert ys. induction xs as [|x xs IH]; intros [|y ys] H; simpl in *;
    try reflexivity; try discriminate.
  f_equal. apply IH. lia.
Qed.

Lemma nth_zip_with {A B C} (f : A -> B -> C) xs ys i dx dy dz :
  (i < length xs)%nat -> (i < length ys)%nat ->
  nth i (zip_with f xs ys) dz = f (nth i xs dx) (nth i ys dy).
Proof.
  revert ys i. induction xs as [|x xs IH]; intros [|y ys] [|i] Hx Hy;
    simpl in *; try lia; try reflexivity.
  apply IH; lia.
Qed.

Lemma nth_map_lt {A B} (f : A -> B) xs i dx dy :
  (i < length xs)%nat -> nth i (map f xs) dy = f (nth i xs dx).
Proof.
  intros H. rewrite (nth_indep _ dy (f dx)) by (rewrite length_map; exact H).
  apply map_nth.
Qed.

Lemma Forall_nth_lt {A} (P : A -> Prop) xs i d :
  Forall P xs -> (i < length xs)%nat -> P (nth i xs d).
Proof. intros H L. rewrite Forall_forall in H. apply H, nth_In, L. Qed.

Lemma Forall2_nth_lt {A B} (P : A -> B -> Prop) xs ys i dx dy :
  Forall2 P xs ys -> (i < length xs)%nat -> P (nth i xs dx) (nth i ys dy).
Proof.
  intros H. revert i. induction H as [|x y xs ys Hxy _ IH]; intros [|i] L;
    simpl in *; try lia; [exact Hxy|apply IH; lia].
Qed.

End MonadFacts.

Tactic Notation "inv_bind" hyp(H) :=
  let a := fresh "v" in
  let g := fresh "g" in
  let E := fresh "E" in
  apply bind_inr in H; destruct H as (a & g & E & H).

Tactic Notation "inv_bind" hyp(H) "as" ident(a) ident(g) ident(E) :=
  apply bind_inr in H; destruct H as (a & g & E & H).

(** ** Facts about claims.py *)

Section ClaimsFacts.

Import Dates Claims.

Context {G : Type} {R : RandomSource G}.

Local Open Scope monad_scope.

Lemma lift_inr {A} (draw : G -> A * G) g a g' :
  lift draw g = inr (a, g') -> a = fst (draw g) /\ g' = snd (draw g).
Proof. unfold lift. intros H. inversion H as [E]. rewrite E. split; reflexivity. Qed.

Lemma range_length lo hi : length (Py.range lo hi) = Z.to_nat (hi - lo).
Proof. unfold Py.range. rewrite length_map, length_seq. reflexivity. Qed.

Lemma clip_range x lo hi : (lo <= hi)%Q -> (lo <= Py.clip x lo hi <= hi)%Q.
Proof.
  intros H. unfold Py.clip. split.
  - apply Q.min_glb; [apply Q.le_max_r|exact H].
  - apply Q.le_min_r.
Qed.

(** A row of the table is entry [i] of every column. *)
Lemma claims_data_frame_In r cols attrs :
  In r (data_frame cols attrs) ->
  exists i, (i < length (claim_ids cols))%nat /\
    claim_id r = nth i (claim_ids cols) 0 /\
    claim_number r = nth i (claim_numbers cols) ""%string /\
    policy_id r = nth i (policy_ids cols) 0 /\
    accident_date r = nth i (accident_dates cols) (mkdate 0 0 0) /\
    report_date r = nth i (report_dates cols) (mkdate 0 0 0) /\
    accident_year r = year (nth i (accident_dates cols) (mkdate 0 0 0)) /\
    development_month r = nth i (development_months cols) 0 /\
    line_of_business r = nth i (lines_of_business cols) ""%string /\
    geography r = nth i (geographies cols) ""%string /\
    claim_cause r = nth i (claim_causes cols) ""%string /\
    claim_status r = nth i (claim_statuses cols) ""%string /\
    initial_reserve r = nth i (initial_reserves cols) 0%Q /\
    paid_amount r = nth i (paid_amounts cols) 0%Q /\
    outstanding_reserve r = nth i (outstanding_reserves cols) 0%Q /\
    incurred_amount r = nth i (developed_amounts cols) 0%Q.
Proof.
  unfold data_frame. rewrite in_map_iff. intros (i & <- & Hi).
  apply in_seq in Hi. exists i. simpl. repeat split; lia.
Qed.

(** What lines 23-97 establish for the dates and the amounts of every
    claim: the facts hold of each row of a table assembled from the
    columns. *)
Lemma claim_columns_row policy_count total_claims g cols g' attrs r :
  claim_columns policy_count total_claims g = inr (cols, g') ->
  In r (data_frame cols attrs) ->
  valid (accident_date r) /\
  (exists delay, (0 <= delay <= 365)%Q /\
     report_date r = report_date_of (accident_date r) delay) /\
  development_month r =
    development_month_of (accident_date r) (report_date r) /\
  (exists raw factor, (0 <= raw)%Q /\
     initial_reserve r = Py.round raw 2 /\
     incurred_amount r = developed_amount (initial_reserve r) factor) /\
  (exists pattern, (0 <= pattern <= 1)%Q /\
     paid_amount r = paid_amount_of (incurred_amount r) pattern) /\
  outstanding_reserve r = outstanding_of (incurred_amount r) (paid_amount r).
Proof.
  unfold claim_columns. intros H Hr.
  inv_bind H. cbv beta zeta in H.
  inv_bind H. inv_bind H. inv_bind H. inv_bind H. inv_bind H. inv_bind H.
  inv_bind H. inv_bind H. inv_bind H.
  apply ret_inr in H. inversion H; subst cols g'. clear H.
  apply claims_data_frame_In in Hr.
  destruct Hr as (i & Hi & _ & _ & _ & Ha & Hrep & _ & Hdev & _ & _ & _ & _
                  & Hinit & Hpaid & Hout & Hinc).
  cbn [claim_ids accident_dates report_dates development_months
       initial_reserves paid_amounts outstanding_reserves developed_amounts]
    in Hi, Ha, Hrep, Hdev, Hinit, Hpaid, Hout, Hinc.
  rewrite range_length in Hi.
  replace (total_claims + 1 - 1) with total_claims in Hi by lia.
  apply draw_array_inr in E0, E2, E3, E5.
  destruct E0 as (_ & L0 & _), E2 as (_ & L2 & _),
    E3 as (_ & L3 & F3), E5 as (_ & L5 & F5).
  pose proof (mapM_length _ _ _ _ _ E1) as L1. rewrite L0 in L1.
  set (delays := map (fun x : Q => Py.clip x 0 365) v2) in *.
  assert (Ld : length delays = Z.to_nat total_claims)
    by (unfold delays; rewrite length_map; exact L2).
  set (report_dates := zip_with report_date_of v1 delays) in *.
  assert (Lr : length report_dates = Z.to_nat total_claims).
  { unfold report_dates. rewrite zip_with_length; lia. }
  set (months := zip_with development_month_of v1 report_dates) in *.
  assert (Lm : length months = Z.to_nat total_claims).
  { unfold months. rewrite zip_with_length; lia. }
  set (initials := map (fun x : Q => Py.round x 2) v3) in *.
  assert (Li : length initials = Z.to_nat total_claims)
    by (unfold initials; rewrite length_map; exact L3).
  pose proof (mapM_length _ _ _ _ _ E4) as L4.
  rewrite length_combine, Li, Lm, Nat.min_id in L4.
  set (paid := zip_with paid_amount_of v4 v5) in *.
  assert (Lp : length paid = Z.to_nat total_claims).
  { unfold paid. rewrite zip_with_length; lia. }
  (* the report date of row [i] *)
  assert (Hrep' : report_date r = report_date_of (accident_date r) (nth i delays 0%Q)).
  { rewrite Hrep, Ha. unfold report_dates. apply nth_zip_with; lia. }
  split; [|split; [|split; [|split; [|split]]]].
  - (* accident date *)
    rewrite Ha. apply mapM_Forall2 in E1.
    pose proof (Forall2_nth_lt _ _ _ i 0 (mkdate 0 0 0) E1) as V.
    destruct V as (ga & gb & V); [lia|].
    inv_bind V as m gm Em. inv_bind V as d gd Ed. apply ret_inr in V.
    apply lift_inr in Em, Ed. destruct Em as [-> _], Ed as [-> _].
    injection V as V' _. rewrite V'. unfold valid. simpl.
    pose proof (randint_range 1 13 ga ltac:(lia)).
    pose proof (randint_range 1 29 gm ltac:(lia)).
    pose proof (days_in_month_bounds (nth i v0 0) (fst (randint 1 13 ga))).
    lia.
  - exists (nth i delays 0%Q). split; [|exact Hrep'].
    unfold delays. rewrite (nth_map_lt _ _ _ 0%Q) by lia.
    apply clip_range. discriminate.
  - rewrite Hdev, Ha, Hrep. unfold months. apply nth_zip_with; lia.
  - apply mapM_Forall2 in E4.
    pose proof (Forall2_nth_lt _ _ _ i (0%Q, 0) 0%Q E4) as V.
    destruct V as (ga & gb & V); [rewrite length_combine; lia|].
    inv_bind V as factor gf Ef. apply ret_inr in V. injection V as V' _.
    rewrite combine_nth in V' by lia. simpl in V'.
    destruct (Forall_nth_lt _ _ i 0%Q F3 ltac:(lia)) as (gr & Hraw).
    exists (nth i v3 0%Q), factor. split; [|split].
    + rewrite Hraw. apply lognormal_range.
    + rewrite Hinit. unfold initials.
      rewrite (nth_map_lt _ _ _ 0%Q) by lia. reflexivity.
    + rewrite Hinc, Hinit. exact V'.
  - exists (nth i v5 0%Q). split.
    + destruct (Forall_nth_lt _ _ i 0%Q F5 ltac:(lia)) as (gp & ->).
      apply beta_range.
    + rewrite Hpaid, Hinc. unfold paid. apply nth_zip_with; lia.
  - rewrite Hout, Hinc, Hpaid. apply nth_zip_with; lia.
Qed.

Lemma int_nonneg q : (0 <= q)%Q -> 0 <= Py.int q.
Proof.
  unfold Qle, Py.int. simpl. intros H.
  apply Z.quot_pos; lia.
Qed.

Lemma development_month_month_index a b :
  development_month_of a b = Z.max 1 (month_index b - month_index a + 1).
Proof. unfold development_month_of, month_index. f_equal. lia. Qed.

Lemma incurred_nonneg_decimals raw factor :
  (0 <= raw)%Q ->
  (0 <= developed_amount (Py.round raw 2) factor)%Q /\
  Py.decimals 2 (developed_amount (Py.round raw 2) factor).
Proof.
  intros H. unfold developed_amount. split; [|apply decimals_round].
  apply round_nonneg. apply Qmult_le_0_compat.
  - apply round_nonneg, H.
  - eapply Qle_trans; [|apply Q.le_max_l]. discriminate.
Qed.

Lemma paid_le_incurred incurred pattern :
  (0 <= incurred)%Q -> Py.decimals 2 incurred -> (0 <= pattern <= 1)%Q ->
  (paid_amount_of incurred pattern <= incurred)%Q.
Proof.
  intros Hi Hd [Hp0 Hp1]. unfold paid_amount_of.
  rewrite <- (round_decimals incurred 2 Hd) at 2.
  apply round_mono. nra.
Qed.

(** The floor at 0 of line 95 never applies to a payment that does not
    exceed the incurred amount. *)
Lemma outstanding_of_difference incurred paid :
  (paid <= incurred)%Q ->
  (outstanding_of incurred paid == Float64.sub incurred paid)%Q /\
  (0 <= outstanding_of incurred paid)%Q.
Proof.
  intros H. pose proof (sub_nonneg incurred paid H) as S.
  unfold outstanding_of. split; [apply Q.max_r, S|].
  apply Q.le_max_l.
Qed.

(** C4. For every claim that [generate_claims] builds (a row of the
    table of lines 148-165 over the columns of lines 23-134),
    [outstanding_reserve] equals [incurred_amount - paid_amount], the
    difference Python takes of the two doubles; [outstanding_reserve]
    is not negative; and [report_date] is not before [accident_date]. *)
Theorem claim_outstanding_and_report_date
    policy_count total_claims g cols g' attrs r :
  claim_columns policy_count total_claims g = inr (cols, g') ->
  length attrs = length (claim_ids cols) ->
  In r (data_frame cols attrs) ->
  (outstanding_reserve r == Float64.sub (incurred_amount r) (paid_amount r))%Q /\
  outstanding_reserve r
    = Qmax 0 (Float64.sub (incurred_amount r) (paid_amount r)) /\
  (0 <= outstanding_reserve r)%Q /\
  Dates.le (accident_date r) (report_date r).
Proof.
  intros H _ Hr.
  destruct (claim_columns_row _ _ _ _ _ _ _ H Hr)
    as (_ & (delay & Hdelay & Hrep) & _ & (raw & factor & Hraw & Hinit & Hinc)
        & (pattern & Hpat & Hpaid) & Hout).
  rewrite Hinit in Hinc.
  destruct (incurred_nonneg_decimals raw factor Hraw) as [Hnn Hdec].
  rewrite <- Hinc in Hnn, Hdec.
  pose proof (paid_le_incurred _ _ Hnn Hdec Hpat) as Hle.
  rewrite <- Hpaid in Hle.
  destruct (outstanding_of_difference _ _ Hle) as [Hd H0].
  rewrite <- Hout in Hd, H0.
  split; [exact Hd|]. split; [exact Hout|]. split; [exact H0|].
  rewrite Hrep. unfold report_date_of. apply le_add_days, int_nonneg, Hdelay.
Qed.

(** C3 (amended). For every claim that [generate_claims] builds (a row
    of the table of lines 148-165 over the columns of lines 23-134),
    [development_month] equals
    [(report_date.year - accident_date.year) * 12 +
     (report_date.month - accident_date.month) + 1] floored at 1, never
    below 1; and among claims with the same accident date the development
    month is non-decreasing in the report delay: a claim reported at least
    as many days after the accident has a development month at least as
    large. *)
Theorem claim_development_month policy_count total_claims g cols g' attrs :
  claim_columns policy_count total_claims g = inr (cols, g') ->
  length attrs = length (claim_ids cols) ->
  (forall r, In r (data_frame cols attrs) ->
     development_month r =
       Z.max 1 ((year (report_date r) - year (accident_date r)) * 12
                + (month (report_date r) - month (accident_date r)) + 1)
     /\ 1 <= development_month r) /\
  (forall r1 r2, In r1 (data_frame cols attrs) -> In r2 (data_frame cols attrs) ->
     accident_date r1 = accident_date r2 ->
     report_delay_days r1 <= report_delay_days r2 ->
     development_month r1 <= development_month r2).
Proof.
  intros H _. split.
  - intros r Hr.
    destruct (claim_columns_row _ _ _ _ _ _ _ H Hr) as (_ & _ & Hdev & _).
    rewrite Hdev. unfold development_month_of. split; [reflexivity|lia].
  - intros r1 r2 Hr1 Hr2 Hacc Hdelay.
    destruct (claim_columns_row _ _ _ _ _ _ _ H Hr1)
      as (V1 & (d1 & Hd1 & Hrep1) & Hdev1 & _).
    destruct (claim_columns_row _ _ _ _ _ _ _ H Hr2)
      as (V2 & (d2 & Hd2 & Hrep2) & Hdev2 & _).
    unfold report_delay_days, report_date_of in *.
    rewrite Hrep1, Hrep2, <- Hacc in Hdelay.
    rewrite !toordinal_add_days in Hdelay by assumption.
    rewrite Hdev1, Hdev2, !development_month_month_index.
    rewrite Hrep1, Hrep2, <- Hacc.
    pose proof (int_nonneg d1 (proj1 Hd1)).
    pose proof (month_index_add_days_mono (accident_date r1)
                  (Py.int d1) (Py.int d2) V1 ltac:(lia)).
    lia.
Qed.

Lemma draw_array_returns {A} size (draw : G -> A * G) g :
  0 <= size -> exists ys g', draw_array size draw g = inr (ys, g').
Proof.
  intros H. unfold draw_array. destruct (Z.ltb_spec size 0); [lia|].
  apply mapM_total. intros x g0 _. unfold lift.
  destruct (draw g0). eexists _, _. reflexivity.
Qed.

Lemma lob_choice_has_causes g0 :
  exists causes,
    cause_by_lob (fst (choice lob_choices ""%string lob_weights g0)) = Some causes.
Proof.
  unfold choice.
  pose proof (choice_index_range lob_weights g0 ltac:(discriminate)) as L.
  destruct (choice_index lob_weights g0) as [i g1]. simpl in *.
  do 5 (destruct i as [|i]; [eexists; reflexivity|]).
  lia.
Qed.

(** For a policy count from 1 up to the largest 64-bit integer and a
    non-negative claim count, lines 23-134 raise nothing and build one
    entry per claim. *)
Lemma claim_columns_returns policy_count total_claims g :
  1 <= policy_count < 2 ^ 63 -> 0 <= total_claims ->
  exists cols g',
    claim_columns policy_count total_claims g = inr (cols, g') /\
    length (claim_ids cols) = Z.to_nat total_claims.
Proof.
  intros Hp Hc. unfold claim_columns. cbv zeta.
  assert (E0 : exists ids g0,
             randint_array 1 (policy_count + 1) total_claims g = inr (ids, g0)).
  { unfold randint_array. destruct (total_claims =? 0).
    - eexists _, _. reflexivity.
    - destruct (Z.ltb_spec 1 (- 2 ^ 63)); [lia|].
      destruct (Z.ltb_spec (2 ^ 63) (policy_count + 1)); [lia|].
      destruct (Z.leb_spec (policy_count + 1) 1); [lia|].
      apply draw_array_returns, Hc. }
  destruct E0 as (ids & g0 & E0). unfold bind at 1. rewrite E0.
  destruct (draw_array_returns total_claims (choice year_choices 0 year_weights)
              g0 Hc) as (years & g1 & E1).
  unfold bind at 1. rewrite E1.
  match goal with
  | |- context [bind (mapM ?f years)] =>
      destruct (mapM_total f years) with (g := g1) as (dates & g2 & E2)
  end.
  { intros y gy _. unfold bind, lift, ret.
    destruct (randint 1 13 gy) as [m gm]. destruct (randint 1 29 gm).
    eexists _, _. reflexivity. }
  unfold bind at 1. rewrite E2.
  destruct (draw_array_returns total_claims (exponential 30) g2 Hc)
    as (delays & g3 & E3).
  unfold bind at 1. rewrite E3.
  destruct (draw_array_returns total_claims (lognormal 8.5 1.5) g3 Hc)
    as (raws & g4 & E4).
  unfold bind at 1. rewrite E4.
  match goal with
  | |- context [bind (mapM ?f ?xs)] =>
      destruct (mapM_total f xs) with (g := g4) as (developed & g5 & E5)
  end.
  { intros p gp _. unfold bind, lift, ret.
    destruct (get_development_factor (snd p) gp). eexists _, _. reflexivity. }
  unfold bind at 1. rewrite E5.
  destruct (draw_array_returns total_claims (beta 2 5) g5 Hc)
    as (patterns & g6 & E6).
  unfold bind at 1. rewrite E6.
  destruct (draw_array_returns total_claims
              (choice lob_choices ""%string lob_weights) g6 Hc)
    as (lobs & g7 & E7).
  unfold bind at 1. rewrite E7.
  pose proof (draw_array_inr _ _ _ _ _ E7) as (_ & _ & Flob).
  match goal with
  | |- context [bind (mapM ?f lobs)] =>
      destruct (mapM_total f lobs) with (g := g7) as (causes & g8 & E8)
  end.
  { intros lob gl Hin. rewrite Forall_forall in Flob.
    destruct (Flob lob Hin) as (gc & ->).
    destruct (lob_choice_has_causes gc) as (cs & ->).
    unfold lift. destruct (choice cs ""%string cause_weights gl).
    eexists _, _. reflexivity. }
  unfold bind at 1. rewrite E8.
  destruct (draw_array_returns total_claims
              (choice geography_choices ""%string geography_weights) g8 Hc)
    as (geos & g9 & E9).
  unfold bind at 1. rewrite E9.
  eexists _, _. split; [reflexivity|].
  cbn [claim_ids]. rewrite range_length. f_equal. lia.
Qed.

(** The first pass of a loop that raises ends the loop. *)
Lemma mapM_raises_first {A B} (f : A -> M G B) x xs g e :
  f x g = inl e -> mapM f (x :: xs) g = inl e.
Proof. intros H. simpl. unfold bind. rewrite H. reflexivity. Qed.

(** The attributes loop of lines 138-145 ends at its first pass. *)
Lemma claim_attributes_raise total_claims (g : G) :
  0 < total_claims ->
  mapM (fun _ : Z =>
          c <- lift (choice ["Simple"; "Medium"; "Complex"]%string ""%string
                            [0.6; 0.3; 0.1]%Q) ;;
          l <- lift (choice [true; false] false [0.1; 0.9]%Q) ;;
          k <- lift (choice [true; false] false [0.05; 0.95]%Q) ;;
          s <- lift (choice [true; false] false [0.15; 0.85]%Q) ;;
          json_dumps (Build_ClaimAttributes c l k s))
       (Py.range 0 total_claims) g = inl TypeError.
Proof.
  intros H. unfold Py.range.
  destruct (Z.to_nat (total_claims - 0)) as [|n] eqn:E; [lia|].
  cbn [seq map]. apply mapM_raises_first.
  unfold bind, lift, json_dumps, raise.
  repeat match goal with
         | |- context [match ?d with (_, _) => _ end] => destruct d
         end.
  reflexivity.
Qed.

(** A table that [generate_claims] returns is assembled from the
    columns of lines 23-134 and as many attributes. *)
Lemma generate_claims_inr policy_count total_claims g rows g' :
  generate_claims policy_count total_claims g = inr (rows, g') ->
  exists cols g1 attrs,
    claim_columns policy_count total_claims g = inr (cols, g1) /\
    length attrs = Z.to_nat total_claims /\
    rows = data_frame cols attrs.
Proof.
  unfold generate_claims. intros H.
  inv_bind H as cols g1 E1. inv_bind H as attrs g2 E2.
  apply ret_inr in H. injection H as -> _.
  exists cols, g1, attrs. split; [exact E1|]. split; [|reflexivity].
  rewrite (mapM_length _ _ _ _ _ E2), range_length. f_equal. lia.
Qed.

End ClaimsFacts.

(** ** Facts about the grouping of reserves.py *)

Section GroupingFacts.

Import Reserves.

Lemma str_compare_spec x y :
  CompareSpec (x = y) (String_as_OT.compare x y = Lt)
    (String_as_OT.compare y x = Lt) (String_as_OT.compare x y).
Proof. exact (String_as_OT.compare_spec x y). Qed.

Lemma str_compare_refl x : String_as_OT.compare x x = Eq.
Proof.
  destruct (str_compare_spec x x) as [_|C|C]; [reflexivity| |];
    exfalso; revert C; apply String_as_OT.lt_strorder.
Qed.

Lemma str_lt_trans x y z :
  String_as_OT.compare x y = Lt -> String_as_OT.compare y z = Lt ->
  String_as_OT.compare x z = Lt.
Proof.
  intros H1 H2. change (String_as_OT.lt x z).
  transitivity y; assumption.
Qed.

Lemma key_compare_spec a b :
  CompareSpec (a = b) (key_lt a b) (key_lt b a) (key_compare a b).
Proof.
  destruct a as [[l1 g1] y1], b as [[l2 g2] y2]. unfold key_lt, key_compare.
  destruct (str_compare_spec l1 l2) as [El|Ll|Gl].
  - subst l2. rewrite str_compare_refl.
    destruct (str_compare_spec g1 g2) as [Eg|Lg|Gg].
    + subst g2. rewrite str_compare_refl.
      destruct (Z.compare_spec y1 y2) as [Ey|Ly|Gy]; constructor.
      * congruence.
      * reflexivity.
      * apply Z.compare_lt_iff. exact Gy.
    + constructor. reflexivity.
    + constructor. rewrite Gg. reflexivity.
  - constructor. reflexivity.
  - constructor. rewrite Gl. reflexivity.
Qed.

Lemma key_lt_irrefl a : ~ key_lt a a.
Proof.
  destruct a as [[l g] y]. unfold key_lt, key_compare.
  rewrite !str_compare_refl, Z.compare_refl. discriminate.
Qed.

Lemma key_lt_trans a b c : key_lt a b -> key_lt b c -> key_lt a c.
Proof.
  destruct a as [[l1 g1] y1], b as [[l2 g2] y2], c as [[l3 g3] y3].
  unfold key_lt, key_compare.
  destruct (str_compare_spec l1 l2) as [E12|L12|G12]; try discriminate;
  destruct (str_compare_spec l2 l3) as [E23|L23|G23]; try discriminate;
    subst; rewrite ?str_compare_refl; rewrite ?L12, ?L23;
    try (intros; reflexivity);
    try (intros _ _; rewrite (str_lt_trans _ _ _ L12 L23); reflexivity).
  destruct (str_compare_spec g1 g2) as [F12|M12|N12]; try discriminate;
  destruct (str_compare_spec g2 g3) as [F23|M23|N23]; try discriminate;
    subst; rewrite ?str_compare_refl; rewrite ?M12, ?M23;
    try (intros; reflexivity);
    try (intros _ _; rewrite (str_lt_trans _ _ _ M12 M23); reflexivity).
  rewrite !Z.compare_lt_iff. lia.
Qed.

Lemma key_eqb_eq a b : key_eqb a b = true <-> a = b.
Proof.
  unfold key_eqb. destruct (key_compare_spec a b) as [E|L|L]; split;
    try discriminate; try congruence; intros ->;
    exfalso; eapply key_lt_irrefl; eassumption.
Qed.

Lemma In_insert_key x k ks : In x (insert_key k ks) <-> x = k \/ In x ks.
Proof.
  induction ks as [|k' ks IH]; simpl.
  - intuition congruence.
  - destruct (key_compare_spec k k') as [E|L|L]; simpl.
    + subst. intuition congruence.
    + intuition congruence.
    + rewrite IH. intuition congruence.
Qed.

Lemma HdRel_insert_key a k ks :
  HdRel key_lt a ks -> key_lt a k -> HdRel key_lt a (insert_key k ks).
Proof.
  intros H L. destruct ks as [|k' ks]; simpl.
  - constructor. exact L.
  - inversion H; subst.
    destruct (key_compare k k'); constructor; assumption.
Qed.

Lemma Sorted_insert_key k ks :
  Sorted key_lt ks -> Sorted key_lt (insert_key k ks).
Proof.
  induction 1 as [|k' ks S IH H]; simpl.
  - repeat constructor.
  - destruct (key_compare_spec k k') as [E|L|L].
    + constructor; assumption.
    + constructor; [constructor; assumption|constructor; exact L].
    + constructor; [exact IH|apply HdRel_insert_key; assumption].
Qed.

Lemma group_keys_sorted claims : StronglySorted key_lt (group_keys claims).
Proof.
  apply Sorted_StronglySorted; [exact key_lt_trans|].
  induction claims as [|c cs IH]; simpl.
  - constructor.
  - apply Sorted_insert_key, IH.
Qed.

Lemma In_group_keys claims k :
  In k (group_keys claims) <-> exists c, In c claims /\ claim_key c = k.
Proof.
  induction claims as [|c cs IH]; simpl.
  - split; [contradiction|intros (c & [] & _)].
  - rewrite In_insert_key, IH. split.
    + intros [->|(c' & Hc & E)]; [exists c; auto|exists c'; auto].
    + intros (c' & [->|Hc] & E); [left; congruence|right; exists c'; auto].
Qed.

Lemma StronglySorted_NoDup ks : StronglySorted key_lt ks -> NoDup ks.
Proof.
  induction 1 as [|k ks S IH F]; constructor; [|exact IH].
  intros Hin. rewrite Forall_forall in F.
  eapply key_lt_irrefl, F, Hin.
Qed.

Lemma groupby_agg_keys claims :
  map group_key (groupby_agg claims) = group_keys claims.
Proof.
  unfold groupby_agg. rewrite map_map.
  rewrite <- (map_id (group_keys claims)) at 2.
  apply map_ext. intros [[l g] y]. reflexivity.
Qed.

Lemma map_nth_seq {A B} (f : A -> B) (xs : list A) d :
  map (fun i => f (nth i xs d)) (seq 0 (length xs)) = map f xs.
Proof.
  induction xs as [|x xs IH]; simpl; [reflexivity|].
  f_equal. rewrite <- seq_shift, map_map. exact IH.
Qed.

End GroupingFacts.

(** ** Facts about column sums *)

Section SumFacts.

Import Reserves.

Local Open Scope Q_scope.



Lemma sum_nil : sum [] == 0.
Proof. reflexivity. Qed.




End SumFacts.

(** ** Facts about reserves.py *)

Section ReservesFacts.

Import Dates Reserves.

Context {G : Type} {R : RandomSource G} {P : FloatPow}.

Local Open Scope monad_scope.

Lemma nth_iterrows {B} n (f : nat -> B) i d :
  (i < n)%nat -> nth i (iterrows n f) d = f i.
Proof.
  intros H. unfold iterrows.
  rewrite (nth_indep _ d (f 0%nat)) by (rewrite length_map, length_seq; exact H).
  rewrite map_nth, seq_nth by exact H. reflexivity.
Qed.

Lemma iterrows_length {B} n (f : nat -> B) : length (iterrows n f) = n.
Proof. unfold iterrows. rewrite length_map, length_seq. reflexivity. Qed.

Lemma zip_with3_length {A B C D} (f : A -> B -> C -> D) xs ys zs :
  length ys = length xs -> length zs = length xs ->
  length (zip_with3 f xs ys zs) = length xs.
Proof.
  revert ys zs. induction xs as [|x xs IH]; intros [|y ys] [|z zs] H1 H2;
    simpl in *; try reflexivity; try discriminate.
  f_equal. apply IH; lia.
Qed.

Lemma nth_zip_with3 {A B C D} (f : A -> B -> C -> D) xs ys zs i dx dy dz dw :
  (i < length xs)%nat -> (i < length ys)%nat -> (i < length zs)%nat ->
  nth i (zip_with3 f xs ys zs) dw = f (nth i xs dx) (nth i ys dy) (nth i zs dz).
Proof.
  revert ys zs i. induction xs as [|x xs IH]; intros [|y ys] [|z zs] [|i] Hx Hy Hz;
    simpl in *; try lia; try reflexivity.
  apply IH; lia.
Qed.

Lemma reserves_data_frame_In r c0 c1 c2 c3 c4 c5 c6 c7 c8 c9 c10 c11 c12 c13 c14 c15 c16 c17 :
  In r (data_frame c0 c1 c2 c3 c4 c5 c6 c7 c8 c9 c10 c11 c12 c13 c14 c15 c16 c17) ->
  exists i, (i < length c0)%nat /\
    r = let row := nth i c0 (Build_Group "" "" 0 0 0 0 0 0) in
        Build_ContractGroup
           (g_line_of_business row) (g_geography row) (g_cohort_year row)
           (g_policy_count row) (g_claim_count row) (g_total_incurred row)
           (g_total_paid row) (g_total_outstanding row)
           (nth i c1 ""%string) (nth i c2 (mkdate 0 0 0))
           (nth i c3 0%Q) (nth i c4 0%Q) (nth i c5 0%Q) (nth i c6 0%Q)
           (nth i c7 0%Q) (nth i c8 0%Q) (nth i c9 0%Q) (nth i c10 ""%string)
           (nth i c11 0) (nth i c12 0) (nth i c13 0%Q) (nth i c14 0%Q)
           (nth i c15 0%Q) (nth i c16 0%Q)
           (nth i c17 (Build_ReserveMetadata (Build_ActuarialAssumptions 0 0)
                         "" 0 (mkdate 0 0 0))).
Proof.
  unfold data_frame. rewrite in_map_iff. intros (i & <- & Hi).
  apply in_seq in Hi. exists i. split; [lia|reflexivity].
Qed.

Lemma generate_reserves_row claims g rows g' r :
  generate_reserves claims g = inr (rows, g') -> In r rows -> derived claims r.
Proof.
  unfold generate_reserves. cbv zeta. intros H Hr.
  inv_bind H as vdates g1 Ev. inv_bind H as pvs g2 Epv.
  inv_bind H as rrates g3 Er. inv_bind H as arates g4 Ea.
  inv_bind H as cov g5 Ec. inv_bind H as metas g6 Em.
  apply ret_inr in H. inversion H; subst rows g'. clear H.
  apply reserves_data_frame_In in Hr. destruct Hr as (i & Hi & ->). cbv zeta.
  set (groups := groupby_agg claims) in *.
  set (g0 := Build_Group "" "" 0 0 0 0 0 0) in *.
  set (grp := nth i groups g0) in *.
  pose proof (mapM_length _ _ _ _ _ Epv) as Lpv.
  pose proof (mapM_length _ _ _ _ _ Ec) as Lc.
  apply draw_array_inr in Er, Ea.
  destruct Er as (_ & Lr & Fr), Ea as (_ & La & Fa).
  rewrite Nat2Z.id in Lr, La.
  set (pvc := map (fun t : Q * Q * Q => snd (fst t)) pvs) in *.
  set (pvp := map (fun t : Q * Q * Q => snd t) pvs) in *.
  assert (Lpvc : length pvc = length groups)
    by (unfold pvc; rewrite length_map; exact Lpv).
  assert (Lpvp : length pvp = length groups)
    by (unfold pvp; rewrite length_map; exact Lpv).
  set (ras := zip_with (fun pv_claims rate : Q => Py.round (pv_claims * rate) 2)
                pvc rrates) in *.
  assert (Lras : length ras = length groups)
    by (unfold ras; rewrite zip_with_length; lia).
  set (acs := zip_with (fun pv_premiums rate : Q => Py.round (pv_premiums * rate) 2)
                pvp arates) in *.
  assert (Lacs : length acs = length groups)
    by (unfold acs; rewrite zip_with_length; lia).
  set (splits := iterrows (length groups) _) in *.
  assert (Lsp : length splits = length groups) by apply iterrows_length.
  set (csms := map (fun t : Q * Q * string => fst (fst t)) splits) in *.
  set (losses := map (fun t : Q * Q * string => snd (fst t)) splits) in *.
  set (classes := map (fun t : Q * Q * string => snd t) splits) in *.
  assert (Lcsm : length csms = length groups)
    by (unfold csms; rewrite length_map; exact Lsp).
  assert (Lloss : length losses = length groups)
    by (unfold losses; rewrite length_map; exact Lsp).
  set (totals := map (fun t : Z * Z => fst t) cov) in *.
  set (currents := map (fun t : Z * Z => snd t) cov) in *.
  set (bels := zip_with (fun pv_claims risk_adj : Q =>
                           Py.round (pv_claims + risk_adj) 2) pvc ras) in *.
  assert (Lbel : length bels = length groups)
    by (unfold bels; rewrite zip_with_length; lia).
  (* the draws of row [i] in the present-value loop *)
  assert (Hpv : exists pv_factor premium_ratio : Q,
             (1.10 <= premium_ratio <= 1.20)%Q /\
             nth i pvs (0, 0, 0)%Q =
               (Py.round pv_factor 6,
                Py.round (g_total_incurred grp * pv_factor) 2,
                Py.round (g_total_incurred grp * pv_factor * premium_ratio) 2)).
  { apply mapM_Forall2 in Epv.
    destruct (Forall2_nth_lt _ _ _ i g0 (0, 0, 0)%Q Epv Hi) as (ga & gb & V).
    unfold present_values in V.
    inv_bind V as duration gd Ed. inv_bind V as ratio gr Er.
    apply ret_inr in V. injection V as V _.
    apply lift_inr in Er. destruct Er as [-> _].
    eexists _, _. split; [|exact V].
    apply uniform_range. discriminate. }
  destruct Hpv as (pvf & ratio & Hratio & Hpv).
  assert (Hpvc : nth i pvc 0%Q = Py.round (g_total_incurred grp * pvf) 2).
  { unfold pvc. rewrite (nth_map_lt _ _ _ (0, 0, 0)%Q) by lia. rewrite Hpv. reflexivity. }
  assert (Hpvp : nth i pvp 0%Q = Py.round (g_total_incurred grp * pvf * ratio) 2).
  { unfold pvp. rewrite (nth_map_lt _ _ _ (0, 0, 0)%Q) by lia. rewrite Hpv. reflexivity. }
  (* the draws of row [i] in the coverage loop *)
  assert (Hcov : exists (months : Z) (remaining_ratio : Q),
             12 <= months /\ (0.5 <= remaining_ratio <= 1)%Q /\
             nth i cov (0, 0) =
               (g_policy_count grp * months,
                Py.int (inject_Z (g_policy_count grp * months) * remaining_ratio))).
  { apply mapM_Forall2 in Ec.
    destruct (Forall2_nth_lt _ _ _ i g0 (0, 0) Ec Hi) as (ga & gb & V).
    unfold coverage_units in V.
    inv_bind V as months gm Emo. inv_bind V as rr gr Err.
    apply ret_inr in V. injection V as V _.
    apply lift_inr in Emo, Err. destruct Emo as [-> _], Err as [-> _].
    eexists _, _. split; [|split; [|exact V]].
    - unfold coverage_months_of.
      destruct (_ =? _)%string; [|destruct (_ =? _)%string].
      + pose proof (randint_range 120 480 ga ltac:(lia)). lia.
      + pose proof (randint_range 240 600 ga ltac:(lia)). lia.
      + pose proof (randint_range 12 60 ga ltac:(lia)). lia.
    - destruct (uniform_range 0.5 1.0 gm ltac:(discriminate)) as [U1 U2].
      split; [exact U1|]. eapply Qle_trans; [exact U2|discriminate]. }
  destruct Hcov as (months & rr & Hmonths & Hrr & Hcov).
  assert (Htot : nth i totals 0 = g_policy_count grp * months).
  { unfold totals. rewrite (nth_map_lt _ _ _ (0, 0)) by lia. rewrite Hcov. reflexivity. }
  assert (Hcur : nth i currents 0 =
                 Py.int (inject_Z (g_policy_count grp * months) * rr)).
  { unfold currents. rewrite (nth_map_lt _ _ _ (0, 0)) by lia. rewrite Hcov. reflexivity. }
  assert (Hsplit : nth i splits (0%Q, 0%Q, ""%string) =
                   csm_split (nth i pvp 0%Q) (nth i pvc 0%Q)
                             (nth i acs 0%Q) (nth i ras 0%Q)).
  { unfold splits. rewrite nth_iterrows by exact Hi. reflexivity. }
  assert (Hcsm : nth i csms 0%Q = fst (fst (nth i splits (0%Q, 0%Q, ""%string)))).
  { unfold csms. rewrite (nth_map_lt _ _ _ (0%Q, 0%Q, ""%string)) by lia. reflexivity. }
  assert (Hloss : nth i losses 0%Q = snd (fst (nth i splits (0%Q, 0%Q, ""%string)))).
  { unfold losses. rewrite (nth_map_lt _ _ _ (0%Q, 0%Q, ""%string)) by lia. reflexivity. }
  assert (Hclass : nth i classes ""%string = snd (nth i splits (0%Q, 0%Q, ""%string))).
  { unfold classes. rewrite (nth_map_lt _ _ _ (0%Q, 0%Q, ""%string)) by lia. reflexivity. }
  unfold derived.
  cbn [row_key line_of_business geography cohort_year policy_count claim_count
       total_incurred total_paid total_outstanding pv_claims pv_premiums
       risk_adjustment acquisition_costs initial_csm loss_component
       profitability_class coverage_units_total coverage_units_current
       csm_amortization best_estimate_liability liability_remaining_coverage
       reserve_adequacy_ratio].
  split; [|split; [|split; [|split; [|split; [|split; [|split; [|split; [|split]]]]]]]].
  - exists grp. split; [apply nth_In; exact Hi|]. repeat split.
  - exists pvf, ratio. split; [exact Hratio|]. split; assumption.
  - destruct (Forall_nth_lt _ _ i 0%Q Fr ltac:(lia)) as (gx & Hx).
    exists (nth i rrates 0%Q). split.
    + rewrite Hx. apply uniform_range. discriminate.
    + unfold ras. rewrite (nth_zip_with _ _ _ _ 0%Q 0%Q) by lia. reflexivity.
  - destruct (Forall_nth_lt _ _ i 0%Q Fa ltac:(lia)) as (gx & Hx).
    exists (nth i arates 0%Q). split.
    + rewrite Hx. apply uniform_range. discriminate.
    + unfold acs. rewrite (nth_zip_with _ _ _ _ 0%Q 0%Q) by lia. reflexivity.
  - rewrite Hcsm, Hloss, Hclass, <- Hsplit.
    destruct (nth i splits (0%Q, 0%Q, ""%string)) as [[a b] c]. reflexivity.
  - exists months, rr. rewrite Htot, Hcur. repeat split; try assumption; apply Hrr.
  - rewrite nth_iterrows by exact Hi. reflexivity.
  - unfold bels. rewrite (nth_zip_with _ _ _ _ 0%Q 0%Q) by lia. reflexivity.
  - rewrite (nth_zip_with3 _ _ _ _ _ 0%Q 0%Q 0%Q) by lia. reflexivity.
  - rewrite (nth_zip_with _ _ _ _ 0%Q 0%Q) by (rewrite ?length_map; lia).
    rewrite (nth_map_lt _ _ _ g0) by exact Hi. reflexivity.
Qed.

Ltac returns_step :=
  intros;
  unfold present_values, coverage_units, metadata_of, bind, lift, ret;
  repeat match goal with
         | |- context [match ?d with (_, _) => _ end] => destruct d
         end;
  eexists _, _; reflexivity.

(** [generate_reserves] has no failing step: it returns a table for
    every claims table and every generator state. *)
Lemma generate_reserves_returns claims g :
  exists rows g', generate_reserves claims g = inr (rows, g').
Proof.
  unfold generate_reserves. cbv zeta.
  set (groups := groupby_agg claims).
  destruct (mapM_total
              (fun _ : nat => quarters_back <- lift (randint 0 8) ;;
                              ret (valuation_date_of quarters_back))
              (seq 0 (length groups))
              ltac:(returns_step) g) as (vd & g1 & E1).
  destruct (mapM_total present_values groups
              ltac:(returns_step) g1) as (pvs & g2 & E2).
  assert (D : forall lo hi g0, exists ys g0',
             draw_array (Z.of_nat (length groups)) (uniform lo hi) g0
             = inr (ys, g0')).
  { intros lo hi g0. unfold draw_array.
    destruct (Z.ltb_spec (Z.of_nat (length groups)) 0); [lia|].
    apply mapM_total. intros x g3 _. unfold lift.
    destruct (uniform lo hi g3). eexists _, _. reflexivity. }
  destruct (D 0.05%Q 0.15%Q g2) as (rr & g3 & E3).
  destruct (D 0.10%Q 0.25%Q g3) as (ar & g4 & E4).
  destruct (mapM_total coverage_units groups
              ltac:(returns_step) g4) as (cov & g5 & E5).
  unfold bind at 1. rewrite E1.
  unfold bind at 1. rewrite E2.
  unfold bind at 1. rewrite E3.
  unfold bind at 1. rewrite E4.
  unfold bind at 1. rewrite E5.
  unfold bind at 1.
  match goal with
  | |- context [mapM ?f ?xs g5] =>
      destruct (mapM_total f xs ltac:(returns_step) g5)
        as (ms & g6 & E6)
  end.
  rewrite E6.
  eexists _, _. reflexivity.
Qed.

Lemma group_policy_count_pos claims grp :
  In grp (groupby_agg claims) -> 1 <= g_policy_count grp.
Proof.
  unfold groupby_agg. rewrite in_map_iff. intros (k & <- & Hk).
  apply In_group_keys in Hk. destruct Hk as (c & Hc & Ek).
  destruct k as [[l y] z]. simpl.
  assert (Hin : In (Claims.policy_id c)
                   (nodup Z.eq_dec (map Claims.policy_id
                                      (members claims (l, y, z))))).
  { apply nodup_In, in_map. unfold members. apply filter_In.
    split; [exact Hc|]. apply key_eqb_eq. exact Ek. }
  destruct (nodup _ _); [contradiction|]. simpl. lia.
Qed.

(** The two branches of lines 141-150, read off the values appended. *)
Lemma csm_split_cases pp pc ac ra (c l : Q) (p : string) :
  (c, l, p) = csm_split pp pc ac ra ->
  let nm := net_margin_of pp pc ac ra in
  ((0 < nm)%Q /\ c = Py.round nm 2 /\ l = 0%Q /\ p = "Profitable"%string) \/
  ((nm <= 0)%Q /\ c = 0%Q /\ l = Py.round (Qabs nm) 2 /\ p = "Onerous"%string).
Proof.
  cbv zeta. unfold csm_split.
  destruct (Qlt_le_dec 0 (net_margin_of pp pc ac ra)) as [Hs|Hs];
    intros H; apply pair_equal_spec in H; destruct H as [H Hp];
    apply pair_equal_spec in H; destruct H as [Hc Hl]; [left|right]; auto.
Qed.

(** C1 (amended). For every cohort row returned by [generate_reserves]
    the sign of the net margin
    [pv_premiums - pv_claims - acquisition_costs - risk_adjustment], as
    Python computes it on the doubles, decides the split: if it is
    positive, [initial_csm] is the net margin rounded to 2 decimals,
    [loss_component] is [0.0] and the class is ['Profitable']; otherwise
    [initial_csm] is [0.0], [loss_component] is the absolute net margin
    rounded to 2 decimals and the class is ['Onerous'].  At most one of
    the two is nonzero (one of them is exactly [0.0]); both are zero
    when the net margin is less than half a cent in absolute value, in
    particular when it is zero. *)
Theorem csm_loss_split claims g rows g' r :
  generate_reserves claims g = inr (rows, g') ->
  In r rows ->
  let net_margin :=
    net_margin_of (pv_premiums r) (pv_claims r) (acquisition_costs r)
                  (risk_adjustment r) in
  ((0 < net_margin)%Q ->
     initial_csm r = Py.round net_margin 2 /\
     loss_component r = 0%Q /\
     profitability_class r = "Profitable"%string) /\
  ((net_margin <= 0)%Q ->
     initial_csm r = 0%Q /\
     loss_component r = Py.round (Qabs net_margin) 2 /\
     profitability_class r = "Onerous"%string) /\
  (initial_csm r = 0%Q \/ loss_component r = 0%Q) /\
  ((Qabs net_margin < 0.005)%Q ->
     (initial_csm r == 0)%Q /\ (loss_component r == 0)%Q).
Proof.
  intros H Hr. cbv zeta.
  destruct (generate_reserves_row _ _ _ _ _ H Hr)
    as (_ & _ & _ & _ & Hsplit & _).
  destruct (csm_split_cases _ _ _ _ _ _ _ Hsplit)
    as [(Hs & Hc & Hl & Hp)|(Hs & Hc & Hl & Hp)]; cbv zeta in Hs.
  - split; [|split; [|split]].
    + intros _. auto.
    + intros Hn. lra.
    + right. exact Hl.
    + intros Hn. split; [|rewrite Hl; reflexivity].
      rewrite Hc. apply round_below_half_cent; [lra|].
      rewrite Qabs_pos in Hn by lra. exact Hn.
  - split; [|split; [|split]].
    + intros Hn. lra.
    + intros _. auto.
    + left. exact Hc.
    + intros Hn. split; [rewrite Hc; reflexivity|].
      rewrite Hl. apply round_below_half_cent; [apply Qabs_nonneg|exact Hn].
Qed.

(** C2. For every cohort row returned by [generate_reserves],
    [best_estimate_liability] is [round(pv_claims + risk_adjustment, 2)]
    and [liability_remaining_coverage] is
    [round(best_estimate_liability + initial_csm - loss_component, 2)]. *)
Theorem liability_formulas claims g rows g' r :
  generate_reserves claims g = inr (rows, g') ->
  In r rows ->
  best_estimate_liability r = Py.round (pv_claims r + risk_adjustment r) 2 /\
  liability_remaining_coverage r =
    Py.round (best_estimate_liability r + initial_csm r - loss_component r) 2.
Proof.
  intros H Hr.
  destruct (generate_reserves_row _ _ _ _ _ H Hr)
    as (_ & _ & _ & _ & _ & _ & _ & Hbel & Hlrc & _).
  split; assumption.
Qed.




(** C7. [generate_reserves] applied to an empty claims table returns an
    empty cohort table and raises nothing. *)
Theorem empty_claims_empty_cohorts (g : G) :
  generate_reserves [] g = inr ([], g).
Proof. reflexivity. Qed.

Lemma int_bounds (n : Z) (q : Q) :
  0 <= n -> (0 <= q <= 1)%Q -> 0 <= Py.int (inject_Z n * q) <= n.
Proof.
  intros Hn [H0 H1].
  assert (Hp : (0 <= inject_Z n * q)%Q).
  { apply Qmult_le_0_compat; [|exact H0].
    change 0%Q with (inject_Z 0). rewrite <- Zle_Qle. exact Hn. }
  split; [apply int_nonneg, Hp|].
  assert (Hfl : Py.int (inject_Z n * q) = Qfloor (inject_Z n * q)).
  { unfold Py.int, Qfloor. destruct (inject_Z n * q)%Q as [a b] eqn:E.
    simpl. apply Z.quot_div_nonneg; [|lia].
    unfold Qle in Hp. simpl in Hp. lia. }
  rewrite Hfl.
  assert (Hn' : (0 <= inject_Z n)%Q).
  { change 0%Q with (inject_Z 0). rewrite <- Zle_Qle. exact Hn. }
  assert (Hle : (inject_Z n * q <= inject_Z n)%Q) by nra.
  apply Qfloor_resp_le in Hle. rewrite Qfloor_Z in Hle. exact Hle.
Qed.

(** C9 (amended). For every cohort row returned by [generate_reserves],
    [0 <= coverage_units_current <= coverage_units_total], the total is
    positive, the amortization rate
    [coverage_units_current / coverage_units_total] lies in [[0, 1]], and
    [csm_amortization] lies between 0 and [0.25 * initial_csm] rounded to
    2 decimals. *)
Theorem coverage_units_and_amortization claims g rows g' r :
  generate_reserves claims g = inr (rows, g') ->
  In r rows ->
  0 <= coverage_units_current r <= coverage_units_total r /\
  0 < coverage_units_total r /\
  (0 <= inject_Z (coverage_units_current r)
        / inject_Z (coverage_units_total r) <= 1)%Q /\
  (0 <= csm_amortization r <= Py.round (0.25 * initial_csm r) 2)%Q.
Proof.
  intros H Hr.
  destruct (generate_reserves_row _ _ _ _ _ H Hr)
    as ((grp & Hgrp & _ & Hpc & _) & _ & _ & _ & Hsplit
        & (months & rr & Hmonths & Hrr & Htot & Hcur) & Hamort & _).
  pose proof (group_policy_count_pos _ _ Hgrp) as Hpos. rewrite <- Hpc in Hpos.
  assert (Ht : 0 < coverage_units_total r) by (rewrite Htot; nia).
  assert (Hc : 0 <= coverage_units_current r <= coverage_units_total r).
  { rewrite Hcur. apply int_bounds; [lia|]. split; [|apply Hrr].
    eapply Qle_trans; [|apply Hrr]. discriminate. }
  assert (Htq : (0 < inject_Z (coverage_units_total r))%Q).
  { change 0%Q with (inject_Z 0). rewrite <- Zlt_Qlt. exact Ht. }
  assert (Hrate : (0 <= inject_Z (coverage_units_current r)
                        / inject_Z (coverage_units_total r) <= 1)%Q).
  { split.
    - apply Qle_shift_div_l; [exact Htq|]. rewrite Qmult_0_l.
      change 0%Q with (inject_Z 0). rewrite <- Zle_Qle. lia.
    - apply Qle_shift_div_r; [exact Htq|]. rewrite Qmult_1_l.
      rewrite <- Zle_Qle. lia. }
  assert (Hcsm : (0 <= initial_csm r)%Q).
  { destruct (csm_split_cases _ _ _ _ _ _ _ Hsplit)
      as [(Hs & Hc' & _)|(Hs & Hc' & _)]; cbv zeta in Hs; rewrite Hc'.
    - apply round_nonneg. lra.
    - apply Qle_refl. }
  repeat split; try lia; try apply Hrate.
  - rewrite Hamort. unfold amortization_of.
    destruct (Z.ltb_spec 0 (coverage_units_total r)); [|lia].
    apply round_nonneg. destruct Hrate as [Hr0 Hr1].
    apply Qmult_le_0_compat; [|discriminate].
    apply Qmult_le_0_compat; assumption.
  - rewrite Hamort. unfold amortization_of.
    destruct (Z.ltb_spec 0 (coverage_units_total r)); [|lia].
    apply round_mono. destruct Hrate as [Hr0 Hr1].
    set (rate := (inject_Z (coverage_units_current r)
                  / inject_Z (coverage_units_total r))%Q) in *.
    nra.
Qed.

Lemma generate_reserves_keys claims g rows g' :
  generate_reserves claims g = inr (rows, g') ->
  map row_key rows = group_keys claims.
Proof.
  unfold generate_reserves. cbv zeta. intros H.
  inv_bind H as vdates g1 Ev. inv_bind H as pvs g2 Epv.
  inv_bind H as rrates g3 Er. inv_bind H as arates g4 Ea.
  inv_bind H as cov g5 Ec. inv_bind H as metas g6 Em.
  apply ret_inr in H. inversion H; subst rows g'. clear H.
  unfold data_frame. rewrite map_map. cbv zeta.
  rewrite <- groupby_agg_keys.
  apply (map_nth_seq group_key).
Qed.

(** C10. The cohort table returned by [generate_reserves] has exactly
    one row per distinct [(line_of_business, geography, accident_year)]
    key of the input claims, in ascending lexicographic order of the
    key. *)
Theorem cohort_rows_sorted_by_key claims g rows g' :
  generate_reserves claims g = inr (rows, g') ->
  StronglySorted key_lt (map row_key rows) /\
  NoDup (map row_key rows) /\
  (forall k, In k (map row_key rows) <->
             exists c, In c claims /\ claim_key c = k).
Proof.
  intros H. rewrite (generate_reserves_keys _ _ _ _ H).
  split; [apply group_keys_sorted|]. split.
  - apply StronglySorted_NoDup, group_keys_sorted.
  - intros k. apply In_group_keys.
Qed.

End ReservesFacts.

(** ** Facts about policies.py *)

Section PoliciesFacts.

Import Policies.

Context {G F : Type} {R : RandomSource G} {K : FakerSource F}.

Local Open Scope monad_scope.

Lemma range_nil lo hi : hi <= lo -> Py.range lo hi = [].
Proof.
  intros H. unfold Py.range.
  replace (Z.to_nat (hi - lo)) with 0%nat by lia. reflexivity.
Qed.

Lemma nth_range lo hi i :
  (i < Z.to_nat (hi - lo))%nat -> nth i (Py.range lo hi) 0 = lo + Z.of_nat i.
Proof.
  intros H. unfold Py.range.
  rewrite (nth_map_lt _ _ _ 0%nat) by (rewrite length_seq; exact H).
  rewrite seq_nth by exact H. reflexivity.
Qed.

Lemma generate_policies_negative count (s : G * F) :
  count < 0 -> generate_policies count s = inl ValueError.
Proof.
  intros H. unfold generate_policies. cbv zeta.
  rewrite (range_nil 0 count) by lia. simpl.
  unfold bind at 1. simpl.
  unfold bind at 1. unfold draw_array.
  destruct (Z.ltb_spec count 0); [reflexivity|lia].
Qed.

(** Line 73 is reached for every count that is not negative, and
    raises. *)
Lemma generate_policies_attribute_error count (s : G * F) :
  0 <= count -> generate_policies count s = inl AttributeError.
Proof.
  intros Hc. unfold generate_policies. cbv zeta.
  match goal with
  | |- context [bind (mapM ?f ?xs)] =>
      destruct (mapM_total f xs) with (g := s) as (effs & s1 & E1)
  end.
  { intros x sx _. unfold lift. destruct (fake _ sx). eexists _, _. reflexivity. }
  unfold bind at 1. rewrite E1.
  destruct (mapM_total (expiry_date_of (F := F)) effs) with (g := s1)
    as (exps & s2 & E2).
  { intros d sd _. unfold expiry_date_of, bind, lift, ret.
    destruct (np random sd) as [u su]. destruct (Qlt_le_dec 0.1 u).
    - eexists _, _. reflexivity.
    - destruct (np (randint 30 365) su). eexists _, _. reflexivity. }
  unfold bind at 1. rewrite E2.
  destruct (draw_array_returns count
              (np (choice lob_choices ""%string lob_weights)) s2 Hc)
    as (lobs & s3 & E3).
  unfold bind at 1. rewrite E3.
  match goal with
  | |- context [bind (mapM ?f lobs)] =>
      destruct (mapM_total f lobs) with (g := s3) as (sis & s4 & E4)
  end.
  { intros lob sl _. unfold bind, lift, ret.
    destruct (np (sum_insured_draw lob) sl). eexists _, _. reflexivity. }
  unfold bind at 1. rewrite E4.
  destruct (draw_array_returns count (np (uniform 0.02 0.08)) s4 Hc)
    as (rates & s5 & E5).
  unfold bind at 1. rewrite E5.
  destruct (draw_array_returns count
              (np (choice geography_choices ""%string geography_weights)) s5 Hc)
    as (geos & s6 & E6).
  unfold bind at 1. rewrite E6.
  unfold bind at 1. unfold lift.
  destruct (np (gamma 2 20) s6). reflexivity.
Qed.

(** C5. [generate_policies(1)] does not return the one row with policy
    id 1 that the claim describes: line 73 applies [.astype(int)] to the
    Python float that [np.random.gamma(2, 20)], drawn without a size,
    returns, and the call ends with [AttributeError] whatever the
    generators hold. *)
Theorem generate_policies_one_policy (s : G * F) :
  generate_policies 1 s = inl AttributeError /\
  forall rows s', generate_policies 1 s <> inr (rows, s').
Proof.
  assert (E : generate_policies 1 s = inl AttributeError)
    by (apply generate_policies_attribute_error; lia).
  split; [exact E|]. intros rows s' E'. rewrite E in E'. discriminate.
Qed.

End PoliciesFacts.

(** ** The theorems on the replayed runs *)

Section Replayed.

Import Dates Replay Scenarios.

Lemma two_columns_run :
  Claims.claim_columns 10 2 two_claims_tape = inr (two_columns, []).
Proof. vm_compute. reflexivity. Qed.

Lemma two_claims_table :
  Claims.data_frame two_columns two_attributes = two_claims.
Proof. vm_compute. reflexivity. Qed.

Lemma two_attributes_length :
  length two_attributes = length (Claims.claim_ids two_columns).
Proof. reflexivity. Qed.

Lemma first_claim_built :
  In first_claim (Claims.data_frame two_columns two_attributes).
Proof. rewrite two_claims_table. left. reflexivity. Qed.

Lemma second_claim_built :
  In second_claim (Claims.data_frame two_columns two_attributes).
Proof. rewrite two_claims_table. right. left. reflexivity. Qed.

Lemma two_cohorts_run :
  Reserves.generate_reserves two_claims two_cohorts_tape = inr (two_cohorts, []).
Proof. vm_compute. reflexivity. Qed.

Lemma zero_cohort_run :
  Reserves.generate_reserves zero_claims one_cohort_tape = inr ([zero_cohort], []).
Proof. vm_compute. reflexivity. Qed.

Lemma small_cohort_run :
  Reserves.generate_reserves small_claims one_cohort_tape = inr ([small_cohort], []).
Proof. vm_compute. reflexivity. Qed.

Lemma thin_cohort_run :
  Reserves.generate_reserves thin_claims thin_cohort_tape = inr ([thin_cohort], []).
Proof. vm_compute. reflexivity. Qed.

(** The double-precision net margin of the thin cohort: premiums of
    1.05 less 0.88, 0.13 and 0.04 leave [5 * 2^-57], not zero. *)
Lemma thin_net_margin :
  (Reserves.net_margin_of 1.05 0.88 0.13 0.04 == 5 / 2 ^ 57)%Q.
Proof. vm_compute. reflexivity. Qed.

(** An outstanding reserve just above 10: incurred 16.01 less paid 6.01
    is [10.000000000000002] in double precision, and the claim is
    ['Open']. *)
Lemma double_difference_status :
  (Claims.outstanding_of 16.01 6.01 == 10 + 1 / 2 ^ 49)%Q /\
  Claims.status_of (Claims.outstanding_of 16.01 6.01) = "Open"%string.
Proof. split; vm_compute; reflexivity. Qed.


(** *** C1 *)

(** The small cohort is profitable: its CSM is the rounded net margin
    and its loss component is [0.0]. *)
Lemma csm_loss_split_witness :
  Reserves.generate_reserves small_claims one_cohort_tape
    = inr ([small_cohort], []) /\
  In small_cohort [small_cohort] /\
  (Reserves.initial_csm small_cohort = 0%Q \/
   Reserves.loss_component small_cohort = 0%Q).
Proof.
  split; [exact small_cohort_run|]. split; [left; reflexivity|].
  exact (proj1 (proj2 (proj2
           (csm_loss_split small_claims one_cohort_tape [small_cohort] []
              small_cohort small_cohort_run (or_introl eq_refl))))).
Defined.

(** Two cohorts in which it is not the case that exactly one of the
    CSM and the loss component is nonzero.  The cohort of a claim of
    0.00 has a net margin of zero: it is ['Onerous'] and both are zero.
    The thin cohort has a positive net margin below half a cent: it is
    ['Profitable'] and both are zero. *)
Lemma both_components_zero :
  Reserves.generate_reserves zero_claims one_cohort_tape
    = inr ([zero_cohort], []) /\
  Reserves.profitability_class zero_cohort = "Onerous"%string /\
  (Reserves.initial_csm zero_cohort == 0)%Q /\
  (Reserves.loss_component zero_cohort == 0)%Q /\
  ~ ((~ (Reserves.initial_csm zero_cohort == 0)%Q /\
      (Reserves.loss_component zero_cohort == 0)%Q) \/
     ((Reserves.initial_csm zero_cohort == 0)%Q /\
      ~ (Reserves.loss_component zero_cohort == 0)%Q)) /\
  Reserves.generate_reserves thin_claims thin_cohort_tape
    = inr ([thin_cohort], []) /\
  Reserves.profitability_class thin_cohort = "Profitable"%string /\
  (Reserves.initial_csm thin_cohort == 0)%Q /\
  (Reserves.loss_component thin_cohort == 0)%Q /\
  ~ ((~ (Reserves.initial_csm thin_cohort == 0)%Q /\
      (Reserves.loss_component thin_cohort == 0)%Q) \/
     ((Reserves.initial_csm thin_cohort == 0)%Q /\
      ~ (Reserves.loss_component thin_cohort == 0)%Q)).
Proof.
  assert (C : (Reserves.initial_csm zero_cohort == 0)%Q) by reflexivity.
  assert (L : (Reserves.loss_component zero_cohort == 0)%Q) by reflexivity.
  assert (C' : (Reserves.initial_csm thin_cohort == 0)%Q) by reflexivity.
  assert (L' : (Reserves.loss_component thin_cohort == 0)%Q) by reflexivity.
  split; [exact zero_cohort_run|]. split; [reflexivity|].
  split; [exact C|]. split; [exact L|].
  split; [intros [[H _]|[_ H]]; contradiction|].
  split; [exact thin_cohort_run|]. split; [reflexivity|].
  split; [exact C'|]. split; [exact L'|].
  intros [[H _]|[_ H]]; contradiction.
Qed.

(** *** C2 *)

Lemma liability_formulas_witness :
  Reserves.generate_reserves two_claims two_cohorts_tape
    = inr (two_cohorts, []) /\
  In first_cohort two_cohorts /\
  Reserves.best_estimate_liability first_cohort =
    Py.round (Reserves.pv_claims first_cohort
              + Reserves.risk_adjustment first_cohort) 2.
Proof.
  split; [exact two_cohorts_run|]. split; [left; reflexivity|].
  exact (proj1 (liability_formulas two_claims two_cohorts_tape two_cohorts []
                  first_cohort two_cohorts_run (or_introl eq_refl))).
Defined.

(** *** C3 *)

Lemma claim_development_month_witness :
  Claims.claim_columns 10 2 two_claims_tape = inr (two_columns, []) /\
  length two_attributes = length (Claims.claim_ids two_columns) /\
  In first_claim (Claims.data_frame two_columns two_attributes) /\
  1 <= Claims.development_month first_claim.
Proof.
  split; [exact two_columns_run|]. split; [reflexivity|].
  split; [exact first_claim_built|].
  exact (proj2 (proj1 (claim_development_month 10 2 two_claims_tape
                         two_columns [] two_attributes two_columns_run
                         two_attributes_length)
                  first_claim first_claim_built)).
Defined.

(** Two claims that lines 23-60 build with the same accident date, the
    second reported a day later than the first, in the same calendar
    month: the larger delay does not give a larger development
    month. *)
Lemma development_month_not_strict :
  Claims.claim_columns 10 2 two_claims_tape = inr (two_columns, []) /\
  In first_claim (Claims.data_frame two_columns two_attributes) /\
  In second_claim (Claims.data_frame two_columns two_attributes) /\
  Claims.accident_date first_claim = Claims.accident_date second_claim /\
  Claims.report_delay_days first_claim < Claims.report_delay_days second_claim /\
  ~ (Claims.development_month first_claim
     < Claims.development_month second_claim).
Proof.
  split; [exact two_columns_run|].
  split; [exact first_claim_built|]. split; [exact second_claim_built|].
  split; [reflexivity|]. split; [reflexivity|].
  vm_compute. discriminate.
Qed.

(** *** C4 *)

Lemma claim_outstanding_and_report_date_witness :
  Claims.claim_columns 10 2 two_claims_tape = inr (two_columns, []) /\
  length two_attributes = length (Claims.claim_ids two_columns) /\
  In first_claim (Claims.data_frame two_columns two_attributes) /\
  (Claims.outstanding_reserve first_claim
   == Float64.sub (Claims.incurred_amount first_claim)
                  (Claims.paid_amount first_claim))%Q.
Proof.
  split; [exact two_columns_run|]. split; [reflexivity|].
  split; [exact first_claim_built|].
  exact (proj1 (claim_outstanding_and_report_date 10 2 two_claims_tape
                  two_columns [] two_attributes first_claim two_columns_run
                  two_attributes_length first_claim_built)).
Defined.

(** *** C6 *)


(** *** C9 *)

Lemma coverage_units_and_amortization_witness :
  Reserves.generate_reserves small_claims one_cohort_tape
    = inr ([small_cohort], []) /\
  In small_cohort [small_cohort] /\
  0 <= Reserves.coverage_units_current small_cohort
    <= Reserves.coverage_units_total small_cohort.
Proof.
  split; [exact small_cohort_run|]. split; [left; reflexivity|].
  exact (proj1 (coverage_units_and_amortization small_claims one_cohort_tape
                  [small_cohort] [] small_cohort small_cohort_run
                  (or_introl eq_refl))).
Defined.

(** The small cohort has [initial_csm = 0.03] and 18 of 20 coverage
    units: [csm_amortization] is [round(0.00675, 2) = 0.01], above
    [0.25 * 0.03 = 0.0075]. *)
Lemma amortization_exceeds_quarter_csm :
  Reserves.generate_reserves small_claims one_cohort_tape
    = inr ([small_cohort], []) /\
  (Reserves.initial_csm small_cohort == 0.03)%Q /\
  (Reserves.csm_amortization small_cohort == 0.01)%Q /\
  ~ (Reserves.csm_amortization small_cohort
     <= 0.25 * Reserves.initial_csm small_cohort)%Q.
Proof.
  split; [exact small_cohort_run|].
  split; [reflexivity|]. split; [reflexivity|].
  intros H. vm_compute in H. apply H. reflexivity.
Qed.

(** *** C10 *)

Lemma cohort_rows_sorted_by_key_witness :
  Reserves.generate_reserves two_claims two_cohorts_tape
    = inr (two_cohorts, []) /\
  NoDup (map Reserves.row_key two_cohorts).
Proof.
  split; [exact two_cohorts_run|].
  exact (proj1 (proj2 (cohort_rows_sorted_by_key two_claims two_cohorts_tape
                         two_cohorts [] two_cohorts_run))).
Defined.

End Replayed.

(** ** More facts about calendar dates *)

Section MoreDateFacts.

Import Dates.

Lemma days_before_year_iter y n :
  days_before_year y + 365 * Z.of_nat n <= days_before_year (y + Z.of_nat n).
Proof.
  induction n as [|n IH].
  - change (Z.of_nat 0) with 0. replace (y + 0) with y by lia. lia.
  - replace (y + Z.of_nat (S n)) with (y + Z.of_nat n + 1) by lia.
    rewrite days_before_year_succ.
    destruct (is_leap (y + Z.of_nat n)); lia.
Qed.

Lemma days_before_year_mono y1 y2 :
  y1 <= y2 -> days_before_year y1 + 365 * (y2 - y1) <= days_before_year y2.
Proof.
  intros H. pose proof (days_before_year_iter y1 (Z.to_nat (y2 - y1))) as I.
  rewrite Z2Nat.id in I by lia.
  replace (y1 + (y2 - y1)) with y2 in I by lia. exact I.
Qed.

Lemma days_before_month_end y m : 1 <= m <= 12 ->
  0 <= days_before_month y m /\
  days_before_month y m + days_in_month y m
    <= 365 + (if is_leap y then 1 else 0).
Proof.
  intros H.
  destruct (month_cases m H) as [E|[E|[E|[E|[E|[E|[E|[E|[E|[E|[E|E]]]]]]]]]]];
    subst m; unfold days_before_month, days_in_month; simpl;
    destruct (is_leap y); simpl; lia.
Qed.

Lemma days_before_month_mono y m1 m2 : 1 <= m1 -> m1 < m2 -> m2 <= 12 ->
  days_before_month y m1 + days_in_month y m1 <= days_before_month y m2.
Proof.
  intros H1 H12 H2.
  replace m2 with (m1 + 1 + Z.of_nat (Z.to_nat (m2 - m1 - 1))) in * by lia.
  induction (Z.to_nat (m2 - m1 - 1)) as [|n IH].
  - rewrite Z.add_0_r. rewrite days_before_month_succ by lia. lia.
  - destruct (Z_le_gt_dec (m1 + 1 + Z.of_nat n) 12) as [L|L]; [|lia].
    specialize (IH ltac:(lia) L).
    replace (m1 + 1 + Z.of_nat (S n)) with (m1 + 1 + Z.of_nat n + 1) by lia.
    rewrite days_before_month_succ by lia.
    pose proof (days_in_month_bounds y (m1 + 1 + Z.of_nat n)). lia.
Qed.

(** The calendar order of valid dates is the order of their ordinals. *)
Lemma toordinal_lt a b : valid a -> valid b -> lt a b -> toordinal a < toordinal b.
Proof.
  intros [Ma Da] [Mb Db] L. apply lt_iff in L. unfold toordinal.
  destruct L as [Y|[Y [Mo|[Mo Dy]]]].
  - pose proof (days_before_month_end (year a) (month a) Ma) as [_ Ea].
    pose proof (days_before_month_end (year b) (month b) Mb) as [Sb _].
    pose proof (days_before_year_succ (year a)) as S.
    pose proof (days_before_year_mono (year a + 1) (year b) ltac:(lia)).
    destruct (is_leap (year a)); lia.
  - rewrite Y in *.
    pose proof (days_before_month_mono (year b) (month a) (month b)
                  ltac:(lia) Mo ltac:(lia)).
    lia.
  - rewrite Y, Mo in *. lia.
Qed.

Lemma month_index_toordinal a b : valid a -> valid b ->
  toordinal a <= toordinal b -> month_index a <= month_index b.
Proof.
  intros Va Vb H.
  destruct (Z_le_gt_dec (month_index a) (month_index b)) as [|C]; [assumption|].
  exfalso.
  assert (L : lt b a).
  { apply lt_iff. unfold month_index in C. destruct Va as [Ma _], Vb as [Mb _]. lia. }
  pose proof (toordinal_lt b a Vb Va L). lia.
Qed.

(** A date at most 365 days later lies at most twelve calendar months
    later. *)
Lemma month_index_add_days_year d n : valid d -> 0 <= n <= 365 ->
  month_index d <= month_index (add_days d n) <= month_index d + 12.
Proof.
  intros V Hn. split.
  - pose proof (month_index_add_days_mono d 0 n V ltac:(lia)) as H.
    exact H.
  - set (e := mkdate (year d + 1) (month d) (days_in_month (year d + 1) (month d))).
    assert (Ve : valid e).
    { destruct V as [Mo Dy]. unfold valid, e. simpl.
      pose proof (days_in_month_bounds (year d + 1) (month d)). lia. }
    assert (He : toordinal d + 365 <= toordinal e).
    { destruct V as [Mo Dy]. unfold toordinal, e. simpl.
      rewrite days_before_year_succ.
      destruct (month_cases _ Mo) as [E|[E|[E|[E|[E|[E|[E|[E|[E|[E|[E|E]]]]]]]]]]];
        rewrite E in *; unfold days_before_month, days_in_month in *; simpl in *;
        destruct (is_leap (year d)), (is_leap (year d + 1)); simpl in *; lia. }
    pose proof (month_index_toordinal (add_days d n) e (valid_add_days d n V) Ve) as H.
    rewrite toordinal_add_days in H by exact V.
    specialize (H ltac:(lia)). unfold month_index, e in *. simpl in *. lia.
Qed.

End MoreDateFacts.

(** ** Facts about the number formats *)

Section FormatFacts.

Import Fmt Text.


Lemma value_digits z : value (digits z) = Some (Z.to_N z).
Proof.
  unfold value, digits.
  assert (E : NilZero.string_of_uint (N.to_uint (Z.to_N z))
              = NilEmpty.string_of_uint (N.to_uint (Z.to_N z))).
  { destruct (N.to_uint (Z.to_N z)) eqn:D; try reflexivity.
    exfalso. destruct (Z.to_N z); simpl in D; [discriminate|].
    revert D. apply DecimalPos.Unsigned.to_uint_nonnil. }
  rewrite E, NilEmpty.usu. simpl. rewrite DecimalN.Unsigned.of_to. reflexivity.
Qed.

Lemma value_zeros n s : value (zeros n ++ s) = value s.
Proof.
  induction n as [|n IH]; [reflexivity|].
  unfold value in *. simpl.
  destruct (NilEmpty.uint_of_string (zeros n ++ s)) as [d|],
    (NilEmpty.uint_of_string s) as [d'|]; simpl in *; congruence.
Qed.

Lemma value_minus s : value ("-" ++ s) = None.
Proof.
  unfold value. simpl. destruct (NilEmpty.uint_of_string s); reflexivity.
Qed.

Lemma value_zfill w z : value (zfill w (digits z)) = Some (Z.to_N z).
Proof. unfold zfill. rewrite value_zeros. apply value_digits. Qed.

(** The format [08d] never maps two integers to the same text. *)
Lemma format_08d_inj a b : format_08d a = format_08d b -> a = b.
Proof.
  unfold format_08d.
  destruct (Z.ltb_spec a 0) as [Ha|Ha], (Z.ltb_spec b 0) as [Hb|Hb]; intros E.
  - injection E as E. apply (f_equal value) in E.
    rewrite !value_zfill in E. injection E as E. lia.
  - apply (f_equal value) in E. rewrite value_minus, value_zfill in E. discriminate.
  - apply (f_equal value) in E. rewrite value_minus, value_zfill in E. discriminate.
  - apply (f_equal value) in E. rewrite !value_zfill in E. injection E as E. lia.
Qed.

Lemma str_int_inj a b : str_int a = str_int b -> a = b.
Proof.
  unfold str_int.
  destruct (Z.ltb_spec a 0) as [Ha|Ha], (Z.ltb_spec b 0) as [Hb|Hb]; intros E.
  - injection E as E. apply (f_equal value) in E.
    rewrite !value_digits in E. injection E as E. lia.
  - apply (f_equal value) in E. rewrite value_minus, value_digits in E. discriminate.
  - apply (f_equal value) in E. rewrite value_minus, value_digits in E. discriminate.
  - apply (f_equal value) in E. rewrite !value_digits in E. injection E as E. lia.
Qed.


Lemma length_string_of_uint d :
  N.of_nat (String.length (NilEmpty.string_of_uint d)) = DecimalPos.Unsigned.usize d.
Proof. induction d; simpl String.length; simpl DecimalPos.Unsigned.usize; lia. Qed.

Lemma usize_revapp d d' :
  DecimalPos.Unsigned.usize (Decimal.revapp d d')
  = (DecimalPos.Unsigned.usize d + DecimalPos.Unsigned.usize d')%N.
Proof. revert d'. induction d; intros d'; simpl; rewrite ?IHd; simpl; lia. Qed.

Lemma of_lu_upper d :
  (DecimalPos.Unsigned.of_lu d < 10 ^ DecimalPos.Unsigned.usize d)%N.
Proof.
  induction d; cbn [DecimalPos.Unsigned.usize DecimalPos.Unsigned.of_lu];
    rewrite ?N.pow_succ_r'; [simpl|..]; lia.
Qed.

Lemma of_uint_upper d : (Pos.of_uint d < 10 ^ DecimalPos.Unsigned.usize d)%N.
Proof.
  rewrite DecimalPos.Unsigned.of_uint_alt.
  pose proof (of_lu_upper (Decimal.rev d)) as H.
  unfold Decimal.rev in H at 2. rewrite usize_revapp in H. simpl in H.
  rewrite N.add_0_r in H. exact H.
Qed.

Lemma of_uint_lower d : Decimal.nzhead d = d -> d <> Decimal.Nil ->
  (10 ^ (DecimalPos.Unsigned.usize d - 1) <= Pos.of_uint d)%N.
Proof.
  intros Hn Hd. rewrite DecimalPos.Unsigned.of_uint_alt.
  destruct d; try congruence;
    try (exfalso; eapply nzhead_nonzero; exact Hn);
    unfold Decimal.rev; cbn [Decimal.revapp];
    rewrite DecimalPos.Unsigned.of_lu_revapp;
    cbn [DecimalPos.Unsigned.usize];
    replace (N.succ (DecimalPos.Unsigned.usize d) - 1)%N
      with (DecimalPos.Unsigned.usize d) by lia;
    cbn [DecimalPos.Unsigned.of_lu]; nia.
Qed.

Lemma digits_nonpos z : z <= 0 -> digits z = "0"%string.
Proof.
  intros H. unfold digits. replace (Z.to_N z) with 0%N by lia. reflexivity.
Qed.

Lemma digits_length z : 0 < z ->
  let len := Z.of_nat (String.length (digits z)) in
  10 ^ (len - 1) <= z < 10 ^ len.
Proof.
  intros H. cbv zeta. unfold digits.
  set (n := Z.to_N z). set (d := N.to_uint n).
  assert (Hof : N.of_uint d = n) by apply DecimalN.Unsigned.of_to.
  assert (Hun : Decimal.unorm d = d).
  { rewrite <- DecimalN.Unsigned.to_of, Hof. reflexivity. }
  assert (Hnil : d <> Decimal.Nil).
  { rewrite <- Hun. apply unorm_nonnil. }
  assert (Hnz : Decimal.nzhead d = d).
  { rewrite <- Hun at 2. symmetry. apply unorm_nzhead. intros E.
    apply unorm_0 in E. rewrite Hun in E. rewrite E in Hof.
    simpl in Hof. lia. }
  assert (Es : NilZero.string_of_uint d = NilEmpty.string_of_uint d).
  { destruct d; try reflexivity. congruence. }
  rewrite Es.
  pose proof (length_string_of_uint d) as L.
  pose proof (of_uint_upper d) as U. pose proof (of_uint_lower d Hnz Hnil) as Lo.
  fold (N.of_uint d) in U, Lo. rewrite Hof in U, Lo. rewrite <- L in U, Lo.
  assert (Hpos : (0 < String.length (NilEmpty.string_of_uint d))%nat).
  { destruct d; simpl; try lia. congruence. }
  set (k := String.length (NilEmpty.string_of_uint d)) in *.
  split.
  - replace (Z.of_nat k - 1) with (Z.of_N (N.of_nat k - 1)) by lia.
    replace 10 with (Z.of_N 10) by reflexivity.
    rewrite <- N2Z.inj_pow. unfold n in Lo. lia.
  - replace (Z.of_nat k) with (Z.of_N (N.of_nat k)) by lia.
    replace 10 with (Z.of_N 10) by reflexivity.
    rewrite <- N2Z.inj_pow. unfold n in U. lia.
Qed.

Lemma zeros_length n : String.length (zeros n) = n.
Proof. induction n as [|n IH]; simpl; congruence. Qed.

Lemma string_length_append s1 s2 :
  String.length (s1 ++ s2) = (String.length s1 + String.length s2)%nat.
Proof. induction s1 as [|c s1 IH]; simpl; congruence. Qed.

Lemma zfill_length w s :
  String.length (zfill w s) = Nat.max w (String.length s).
Proof.
  unfold zfill. rewrite string_length_append, zeros_length. lia.
Qed.

Lemma format_08d_length z :
  (0 <= z < 10 ^ 8 -> String.length (format_08d z) = 8%nat) /\
  (10 ^ 8 <= z -> (8 < String.length (format_08d z))%nat).
Proof.
  unfold format_08d. split; intros H.
  - destruct (Z.ltb_spec z 0); [lia|]. rewrite zfill_length.
    destruct (Z.eq_dec z 0) as [->|Hz]; [reflexivity|].
    pose proof (digits_length z ltac:(lia)) as [Lo _]. cbv zeta in Lo.
    assert (L : (String.length (digits z) <= 8)%nat).
    { destruct (Nat.le_gt_cases (String.length (digits z)) 8) as [|C]; [assumption|].
      exfalso.
      assert (10 ^ 8 <= 10 ^ (Z.of_nat (String.length (digits z)) - 1))
        by (apply Z.pow_le_mono_r; lia).
      lia. }
    lia.
  - destruct (Z.ltb_spec z 0); [lia|]. rewrite zfill_length.
    pose proof (digits_length z ltac:(lia)) as [_ Hi]. cbv zeta in Hi.
    destruct (Nat.le_gt_cases (String.length (digits z)) 8) as [C|C]; [|lia].
    exfalso.
    assert (10 ^ Z.of_nat (String.length (digits z)) <= 10 ^ 8)
      by (apply Z.pow_le_mono_r; lia).
    lia.
Qed.

End FormatFacts.

(** ** The columns of claims.py *)

Section ClaimsTableFacts.

Import Dates Claims.

Context {G : Type} {R : RandomSource G}.

Local Open Scope monad_scope.

Lemma choice_In {A} (values : list A) (d : A) (p : list Q) (g : G) :
  p <> [] -> length values = length p -> In (fst (choice values d p g)) values.
Proof.
  intros Hp Hl. unfold choice.
  pose proof (choice_index_range p g Hp) as L.
  destruct (choice_index p g) as [i g1]. simpl in *.
  apply nth_In. lia.
Qed.

Lemma randint_array_inr lo hi size (g : G) ys g' :
  randint_array lo hi size g = inr (ys, g') ->
  0 <= size /\ length ys = Z.to_nat size /\ Forall (fun y => lo <= y < hi) ys.
Proof.
  unfold randint_array. destruct (Z.eqb_spec size 0) as [->|Hs].
  - intros H. apply ret_inr in H. injection H as -> _.
    split; [lia|]. split; [reflexivity|constructor].
  - destruct ((lo <? - 2 ^ 63) || (2 ^ 63 <? hi) || (hi <=? lo)) eqn:B;
      [discriminate|].
    apply orb_false_iff in B. destruct B as [_ B].
    apply Z.leb_gt in B.
    intros H. apply draw_array_inr in H. destruct H as (H0 & HL & HF).
    split; [exact H0|]. split; [exact HL|].
    eapply Forall_impl; [|exact HF]. intros y (g1 & ->).
    apply randint_range. exact B.
Qed.

(** The identifying and categorical columns that lines 23-134 build, as
    they show in each row of a table assembled from them. *)
Lemma claim_columns_row_columns policy_count total_claims g cols g' attrs r :
  claim_columns policy_count total_claims g = inr (cols, g') ->
  In r (data_frame cols attrs) ->
  1 <= claim_id r <= total_claims /\
  claim_number r = ("CLM" ++ Fmt.format_08d (claim_id r))%string /\
  1 <= policy_id r <= policy_count /\
  (In (year (accident_date r)) year_choices /\
   1 <= month (accident_date r) <= 12 /\ 1 <= day (accident_date r) <= 28) /\
  accident_year r = year (accident_date r) /\
  In (line_of_business r) lob_choices /\
  In (geography r) geography_choices /\
  (exists causes, cause_by_lob (line_of_business r) = Some causes /\
                  In (claim_cause r) causes) /\
  claim_status r = status_of (outstanding_reserve r).
Proof.
  unfold claim_columns. intros H Hr.
  inv_bind H as pids g0 E0. cbv beta zeta in H.
  inv_bind H as years g1 E1. inv_bind H as dates g2 E2.
  inv_bind H as delays g3 E3. inv_bind H as raws g4 E4.
  inv_bind H as developed g5 E5. inv_bind H as patterns g6 E6.
  inv_bind H as lobs g7 E7. inv_bind H as causes g8 E8.
  inv_bind H as geos g9 E9.
  apply ret_inr in H. inversion H; subst cols g'. clear H.
  apply claims_data_frame_In in Hr.
  destruct Hr as (i & Hi & Hid & Hnum & Hpid & Hacc & _ & Hyear & _ & Hlob
                  & Hgeo & Hcause & Hstatus & _ & _ & Hout & _).
  cbn [claim_ids claim_numbers policy_ids accident_dates lines_of_business
       geographies claim_causes claim_statuses outstanding_reserves]
    in Hi, Hid, Hnum, Hpid, Hacc, Hyear, Hlob, Hgeo, Hcause, Hstatus, Hout.
  rewrite range_length in Hi.
  replace (total_claims + 1 - 1) with total_claims in Hi by lia.
  apply randint_array_inr in E0. destruct E0 as (Hn & L0 & F0).
  apply draw_array_inr in E1, E3, E4, E6, E7, E9.
  destruct E1 as (_ & L1 & F1), E3 as (_ & L3 & _), E4 as (_ & L4 & _),
    E6 as (_ & L6 & _), E7 as (_ & L7 & F7), E9 as (_ & L9 & F9).
  pose proof (mapM_length _ _ _ _ _ E2) as L2. rewrite L1 in L2.
  pose proof (mapM_length _ _ _ _ _ E8) as L8. rewrite L7 in L8.
  assert (Hidv : claim_id r = Z.of_nat i + 1).
  { rewrite Hid, nth_range by lia. lia. }
  split; [lia|].
  split; [|split; [|split; [|split; [|split; [|split; [|split]]]]]].
  - rewrite Hnum, (nth_map_lt _ _ _ 0) by (rewrite range_length; lia).
    rewrite <- Hid. reflexivity.
  - rewrite Hpid. pose proof (Forall_nth_lt _ _ i 0 F0 ltac:(lia)) as B.
    cbv beta in B. lia.
  - rewrite Hacc. apply mapM_Forall2 in E2.
    pose proof (Forall2_nth_lt _ _ _ i 0 (mkdate 0 0 0) E2) as V.
    destruct V as (ga & gb & V); [lia|].
    inv_bind V as m gm Em. inv_bind V as d gd Ed. apply ret_inr in V.
    apply lift_inr in Em, Ed. destruct Em as [-> _], Ed as [-> _].
    injection V as V' _. rewrite V'. cbn [year month day].
    pose proof (randint_range 1 13 ga ltac:(lia)).
    pose proof (randint_range 1 29 gm ltac:(lia)).
    split; [|lia].
    destruct (Forall_nth_lt _ _ i 0 F1 ltac:(lia)) as (gy & ->).
    apply choice_In; [discriminate|reflexivity].
  - rewrite Hyear, Hacc. reflexivity.
  - rewrite Hlob.
    destruct (Forall_nth_lt _ _ i ""%string F7 ltac:(lia)) as (gl & ->).
    apply choice_In; [discriminate|reflexivity].
  - rewrite Hgeo.
    destruct (Forall_nth_lt _ _ i ""%string F9 ltac:(lia)) as (gl & ->).
    apply choice_In; [discriminate|reflexivity].
  - rewrite Hlob, Hcause. apply mapM_Forall2 in E8.
    pose proof (Forall2_nth_lt _ _ _ i ""%string ""%string E8) as V.
    destruct V as (ga & gb & V); [lia|].
    destruct (cause_by_lob (nth i lobs ""%string)) as [cs|] eqn:Ec;
      [|discriminate V].
    exists cs. split; [reflexivity|].
    apply lift_inr in V. destruct V as [-> _].
    apply choice_In; [discriminate|].
    unfold cause_by_lob in Ec.
    repeat match type of Ec with
           | (if ?b then _ else _) = _ => destruct b
           end; inversion Ec; reflexivity.
  - rewrite Hstatus, Hout.
    assert (L5 : length developed = Z.to_nat total_claims).
    { rewrite (mapM_length _ _ _ _ _ E5), length_combine, length_map, L4.
      rewrite zip_with_length; [lia|].
      rewrite zip_with_length; [reflexivity|]. rewrite length_map. lia. }
    rewrite (nth_map_lt _ _ _ 0%Q); [reflexivity|].
    rewrite zip_with_length; [lia|]. rewrite zip_with_length; lia.
Qed.

End ClaimsTableFacts.

(** ** Properties of the claims that claims.py builds *)

Section ClaimsTableProperties.

Import Dates Claims.

Context {G : Type} {R : RandomSource G}.

Local Open Scope monad_scope.

Lemma NoDup_map_injective {A B} (f : A -> B) (l : list A) :
  (forall a b, f a = f b -> a = b) -> NoDup l -> NoDup (map f l).
Proof.
  intros Hf. induction 1 as [|x l Hx _ IH]; simpl; constructor; [|exact IH].
  rewrite in_map_iff. intros (y & E & Hy). apply Hf in E. subst y. contradiction.
Qed.

Lemma range_NoDup lo hi : NoDup (Py.range lo hi).
Proof.
  unfold Py.range. apply NoDup_map_injective; [|apply seq_NoDup].
  intros a b H. lia.
Qed.

Lemma In_range lo hi x : In x (Py.range lo hi) <-> lo <= x < hi.
Proof.
  unfold Py.range. rewrite in_map_iff. split.
  - intros (i & <- & Hi). apply in_seq in Hi. lia.
  - intros H. exists (Z.to_nat (x - lo)). split; [lia|].
    apply in_seq. lia.
Qed.

(** Lines 26-27 fix the ids and the numbers of the claims. *)
Lemma claim_columns_ids policy_count total_claims g cols g' :
  claim_columns policy_count total_claims g = inr (cols, g') ->
  claim_ids cols = Py.range 1 (total_claims + 1) /\
  claim_numbers cols
  = map (fun id => ("CLM" ++ Fmt.format_08d id)%string) (claim_ids cols).
Proof.
  unfold claim_columns. intros H.
  inv_bind H as pids g0 E0. cbv beta zeta in H.
  inv_bind H as years g1 E1. inv_bind H as dates g2 E2.
  inv_bind H as delays g3 E3. inv_bind H as raws g4 E4.
  inv_bind H as developed g5 E5. inv_bind H as patterns g6 E6.
  inv_bind H as lobs g7 E7. inv_bind H as causes g8 E8.
  inv_bind H as geos g9 E9.
  apply ret_inr in H. inversion H; subst cols g'. clear H.
  split; reflexivity.
Qed.

Lemma data_frame_claim_ids cols attrs :
  map claim_id (data_frame cols attrs) = claim_ids cols.
Proof.
  unfold data_frame. rewrite map_map. cbn [claim_id].
  etransitivity; [apply (map_nth_seq (fun x : Z => x))|apply map_id].
Qed.

Lemma int_floor q : (0 <= q)%Q -> Py.int q = Qfloor q.
Proof.
  destruct q as [a b]. intros Hq. unfold Py.int, Qfloor. simpl.
  apply Z.quot_div_nonneg; [|lia]. unfold Qle in Hq. simpl in Hq. lia.
Qed.

(** X4. [generate_claims] returns a table only when there is no claim
    to generate: with [total_claims = 0] it returns the empty table and
    leaves the generator untouched, whatever the policy count; a
    negative [total_claims], or a positive one with a policy count
    below 1 or beyond the 64-bit integers, raises the [ValueError] of
    [np.random.randint]; and a positive [total_claims] with a policy
    count from 1 up to the largest 64-bit integer ends with the
    [TypeError] of line 145, where [json.dumps] meets the [numpy.bool_]
    flags of the first claim's attributes. *)
Theorem generate_claims_outcome policy_count total_claims (g : G) :
  (total_claims = 0 ->
     generate_claims policy_count total_claims g = inr ([], g)) /\
  (total_claims < 0 ->
     generate_claims policy_count total_claims g = inl ValueError) /\
  (0 < total_claims -> policy_count < 1 \/ 2 ^ 63 <= policy_count ->
     generate_claims policy_count total_claims g = inl ValueError) /\
  (0 < total_claims -> 1 <= policy_count < 2 ^ 63 ->
     generate_claims policy_count total_claims g = inl TypeError) /\
  (forall rows g',
     generate_claims policy_count total_claims g = inr (rows, g') ->
     total_claims = 0 /\ rows = []).
Proof.
  assert (Hneg : total_claims < 0 ->
            generate_claims policy_count total_claims g = inl ValueError).
  { intros H. unfold generate_claims, bind at 1, claim_columns, bind at 1,
      randint_array.
    destruct (Z.eqb_spec total_claims 0); [lia|].
    destruct ((1 <? - 2 ^ 63) || (2 ^ 63 <? policy_count + 1)
              || (policy_count + 1 <=? 1)); [reflexivity|].
    unfold draw_array. destruct (Z.ltb_spec total_claims 0); [reflexivity|lia]. }
  assert (Hpc : 0 < total_claims -> policy_count < 1 \/ 2 ^ 63 <= policy_count ->
            generate_claims policy_count total_claims g = inl ValueError).
  { intros H Hp. unfold generate_claims, bind at 1, claim_columns, bind at 1,
      randint_array.
    destruct (Z.eqb_spec total_claims 0); [lia|].
    destruct ((1 <? - 2 ^ 63) || (2 ^ 63 <? policy_count + 1)
              || (policy_count + 1 <=? 1)) eqn:B; [reflexivity|].
    apply orb_false_iff in B. destruct B as [B1 B2].
    apply orb_false_iff in B1. destruct B1 as [_ B1].
    apply Z.ltb_ge in B1. apply Z.leb_gt in B2. lia. }
  assert (Hty : 0 < total_claims -> 1 <= policy_count < 2 ^ 63 ->
            generate_claims policy_count total_claims g = inl TypeError).
  { intros H Hp.
    destruct (claim_columns_returns policy_count total_claims g Hp ltac:(lia))
      as (cols & g1 & E & _).
    unfold generate_claims, bind at 1. rewrite E.
    unfold bind at 1. rewrite (claim_attributes_raise total_claims g1 H).
    reflexivity. }
  split; [intros ->; reflexivity|].
  split; [exact Hneg|]. split; [exact Hpc|]. split; [exact Hty|].
  intros rows g' E.
  destruct (Z.lt_trichotomy total_claims 0) as [C|[C|C]].
  - rewrite (Hneg C) in E. discriminate.
  - subst total_claims. split; [reflexivity|].
    cbv in E. injection E as <- _. reflexivity.
  - exfalso. destruct (Z.lt_ge_cases policy_count 1) as [P1|P1].
    + rewrite (Hpc C (or_introl P1)) in E. discriminate.
    + destruct (Z.lt_ge_cases policy_count (2 ^ 63)) as [P2|P2].
      * rewrite (Hty C (conj P1 P2)) in E. discriminate.
      * rewrite (Hpc C (or_intror P2)) in E. discriminate.
Qed.

(** X5. Lines 26-27 number the claims in order: the [claim_id] column
    is [1..total_claims], every [claim_number] is ["CLM"] followed by
    the [08d] rendering of the claim's own [claim_id], no two claims
    share a claim number, and the numbers are 11 characters long as
    long as there are fewer than 10^8 claims. *)
Theorem claim_numbers_identify_claims
    policy_count total_claims (g : G) cols g' attrs :
  claim_columns policy_count total_claims g = inr (cols, g') ->
  length attrs = length (claim_ids cols) ->
  length (data_frame cols attrs) = Z.to_nat total_claims /\
  map claim_id (data_frame cols attrs) = Py.range 1 (total_claims + 1) /\
  (forall r, In r (data_frame cols attrs) ->
     claim_number r = ("CLM" ++ Fmt.format_08d (claim_id r))%string /\
     (total_claims < 10 ^ 8 -> String.length (claim_number r) = 11%nat)) /\
  NoDup (map claim_number (data_frame cols attrs)).
Proof.
  intros H _. destruct (claim_columns_ids _ _ _ _ _ H) as [Hc _].
  pose proof (data_frame_claim_ids cols attrs) as Hids. rewrite Hc in Hids.
  assert (Hnum : forall r, In r (data_frame cols attrs) ->
            claim_number r = ("CLM" ++ Fmt.format_08d (claim_id r))%string).
  { intros r Hr.
    apply (claim_columns_row_columns _ _ _ _ _ _ _ H Hr). }
  split; [|split; [exact Hids|split]].
  - rewrite <- (length_map claim_id), Hids, range_length. f_equal. lia.
  - intros r Hr. split; [apply Hnum, Hr|]. intros Hb.
    destruct (claim_columns_row_columns _ _ _ _ _ _ _ H Hr) as (Hid & Hn & _).
    rewrite Hn. cbn [String.append String.length].
    rewrite (proj1 (format_08d_length (claim_id r))) by lia. reflexivity.
  - assert (E : map claim_number (data_frame cols attrs)
                = map (fun id => ("CLM" ++ Fmt.format_08d id)%string)
                      (map claim_id (data_frame cols attrs))).
    { rewrite map_map. apply map_ext_in. exact Hnum. }
    rewrite E, Hids.
    apply NoDup_map_injective; [|apply range_NoDup].
    intros a b Hab. injection Hab as Hab. apply format_08d_inj, Hab.
Qed.

(** X6. Line 23 links every claim to a policy that [generate_policies]
    numbers for the same policy count: [policy_id] lies in
    [1..policy_count], the ids of line 23 of [policies.py]. *)
Theorem claim_policy_id_in_range
    policy_count total_claims (g : G) cols g' attrs r :
  claim_columns policy_count total_claims g = inr (cols, g') ->
  length attrs = length (claim_ids cols) ->
  In r (data_frame cols attrs) ->
  1 <= policy_id r <= policy_count /\
  In (policy_id r) (Policies.policy_ids policy_count).
Proof.
  intros H _ Hr.
  destruct (claim_columns_row_columns _ _ _ _ _ _ _ H Hr) as (_ & _ & Hp & _).
  split; [exact Hp|]. unfold Policies.policy_ids. apply In_range. lia.
Qed.

(** X7. Every accident date built by lines 34-44 is a real calendar
    date between 2020-01-01 and 2024-12-28 whose day of the month is at
    most 28, and [accident_year] is its year. *)
Theorem accident_date_domain policy_count total_claims (g : G) cols g' attrs r :
  claim_columns policy_count total_claims g = inr (cols, g') ->
  length attrs = length (claim_ids cols) ->
  In r (data_frame cols attrs) ->
  valid (accident_date r) /\
  2020 <= year (accident_date r) <= 2024 /\
  1 <= day (accident_date r) <= 28 /\
  accident_year r = year (accident_date r) /\
  Dates.le (mkdate 2020 1 1) (accident_date r) /\
  Dates.le (accident_date r) (mkdate 2024 12 28).
Proof.
  intros H _ Hr.
  destruct (claim_columns_row_columns _ _ _ _ _ _ _ H Hr)
    as (_ & _ & _ & (Hy & Hm & Hd) & Hay & _).
  assert (Hy' : 2020 <= year (accident_date r) <= 2024).
  { unfold year_choices in Hy. simpl in Hy. lia. }
  split; [|split; [exact Hy'|split; [exact Hd|split; [exact Hay|split]]]].
  - unfold valid. split; [exact Hm|].
    pose proof (days_in_month_bounds (year (accident_date r))
                  (month (accident_date r))). lia.
  - apply le_iff. simpl. lia.
  - apply le_iff. simpl. lia.
Qed.

(** X8. Lines 47-60 report a claim on a real calendar date at most 365
    days after its accident, so its [development_month] lies in
    [1..13]; [get_development_factor] therefore only ever draws from
    [normal(0.95, 0.1)] or [normal(1.02, 0.05)]: its branches for
    development months above 24 are never taken. *)
Theorem development_month_at_most_13
    policy_count total_claims (g : G) cols g' attrs r :
  claim_columns policy_count total_claims g = inr (cols, g') ->
  length attrs = length (claim_ids cols) ->
  In r (data_frame cols attrs) ->
  valid (report_date r) /\
  0 <= report_delay_days r <= 365 /\
  1 <= development_month r <= 13 /\
  (get_development_factor (development_month r) = normal 0.95 0.1 \/
   get_development_factor (development_month r) = normal 1.02 0.05).
Proof.
  intros H _ Hr.
  destruct (claim_columns_row _ _ _ _ _ _ _ H Hr)
    as (V & (delay & Hdelay & Hrep) & Hdev & _).
  assert (Hint : 0 <= Py.int delay <= 365).
  { split; [apply int_nonneg, Hdelay|].
    rewrite (int_floor _ (proj1 Hdelay)).
    change 365 with (Qfloor 365). apply Qfloor_resp_le, Hdelay. }
  assert (Hdays : report_delay_days r = Py.int delay).
  { unfold report_delay_days. rewrite Hrep. unfold report_date_of.
    rewrite toordinal_add_days by exact V. lia. }
  assert (Hmonth : 1 <= development_month r <= 13).
  { rewrite Hdev, development_month_month_index, Hrep. unfold report_date_of.
    pose proof (month_index_add_days_year (accident_date r) (Py.int delay) V Hint).
    lia. }
  split; [rewrite Hrep; apply valid_add_days, V|].
  split; [lia|]. split; [exact Hmonth|].
  unfold get_development_factor.
  destruct (Z.leb_spec (development_month r) 12); [left; reflexivity|].
  destruct (Z.leb_spec (development_month r) 24); [right; reflexivity|lia].
Qed.

(** X9. Lines 99-107 decide the status of a claim by its own
    [outstanding_reserve], the double that line 95 computes: ['Closed']
    exactly when it is at most 10, ['Open'] exactly when it is above 10
    and at most 1000, ['Reserved'] exactly when it is above 1000. *)
Theorem claim_status_thresholds
    policy_count total_claims (g : G) cols g' attrs r :
  claim_columns policy_count total_claims g = inr (cols, g') ->
  length attrs = length (claim_ids cols) ->
  In r (data_frame cols attrs) ->
  (claim_status r = "Closed"%string <-> (outstanding_reserve r <= 10)%Q) /\
  (claim_status r = "Open"%string <->
     (10 < outstanding_reserve r)%Q /\ (outstanding_reserve r <= 1000)%Q) /\
  (claim_status r = "Reserved"%string <-> (1000 < outstanding_reserve r)%Q).
Proof.
  intros H _ Hr.
  destruct (claim_columns_row_columns _ _ _ _ _ _ _ H Hr)
    as (_ & _ & _ & _ & _ & _ & _ & _ & Hs).
  rewrite Hs. unfold status_of.
  destruct (Qle_bool (outstanding_reserve r) 10) eqn:B1.
  - apply Qle_bool_iff in B1.
    repeat split; intros; try discriminate; try assumption; try reflexivity;
      exfalso; lra.
  - assert (N1 : ~ (outstanding_reserve r <= 10)%Q)
      by (rewrite <- Qle_bool_iff, B1; discriminate).
    destruct (Qle_bool (outstanding_reserve r) 1000) eqn:B2.
    + apply Qle_bool_iff in B2.
      repeat split; intros; try discriminate; try assumption; try reflexivity;
        try lra; exfalso; lra.
    + assert (N2 : ~ (outstanding_reserve r <= 1000)%Q)
        by (rewrite <- Qle_bool_iff, B2; discriminate).
      repeat split; intros; try discriminate; try reflexivity; try lra;
        exfalso; lra.
Qed.

(** X10. The categorical columns that lines 110-134 build take listed
    values only: the line of business and the geography come from their
    choice lists, [cause_by_lob] has an entry for the line of business
    (the lookup of line 125 raises no [KeyError]) and the claim cause
    is one of that entry's causes. *)
Theorem claim_categories policy_count total_claims (g : G) cols g' attrs r :
  claim_columns policy_count total_claims g = inr (cols, g') ->
  length attrs = length (claim_ids cols) ->
  In r (data_frame cols attrs) ->
  In (line_of_business r) lob_choices /\
  In (geography r) geography_choices /\
  (exists causes, cause_by_lob (line_of_business r) = Some causes /\
                  In (claim_cause r) causes).
Proof.
  intros H _ Hr.
  destruct (claim_columns_row_columns _ _ _ _ _ _ _ H Hr)
    as (_ & _ & _ & _ & _ & Hl & Hg & Hc & _).
  repeat split; assumption.
Qed.

(** The amounts that lines 64-97 build are consistent. *)
Lemma claim_amounts policy_count total_claims (g : G) cols g' attrs r :
  claim_columns policy_count total_claims g = inr (cols, g') ->
  In r (data_frame cols attrs) ->
  (0 <= initial_reserve r)%Q /\
  (Py.round (initial_reserve r * 0.1) 2 <= incurred_amount r)%Q /\
  amounts_consistent r.
Proof.
  intros H Hr.
  destruct (claim_columns_row _ _ _ _ _ _ _ H Hr)
    as (_ & _ & _ & (raw & factor & Hraw & Hinit & Hinc)
        & (pattern & Hpat & Hpaid) & Hout).
  assert (Hi0 : (0 <= initial_reserve r)%Q)
    by (rewrite Hinit; apply round_nonneg, Hraw).
  pose proof (incurred_nonneg_decimals raw factor Hraw) as [Hnn Hdec].
  rewrite <- Hinit, <- Hinc in Hnn, Hdec.
  assert (Hle : (paid_amount r <= incurred_amount r)%Q).
  { rewrite Hpaid. apply paid_le_incurred; assumption. }
  split; [exact Hi0|]. split; [|split; [split|]].
  - rewrite Hinc. unfold developed_amount. apply round_mono.
    pose proof (Q.le_max_l 0.1 factor) as M. nra.
  - rewrite Hpaid. unfold paid_amount_of. apply round_nonneg.
    apply Qmult_le_0_compat; [exact Hnn|apply Hpat].
  - exact Hle.
  - rewrite Hout. reflexivity.
Qed.

(** X11. Line 83 floors the development factor at 0.1:
    [incurred_amount] is at least the initial reserve times 0.1,
    rounded to 2 decimals, however negative the drawn factor; the
    initial reserve is not negative and
    [0 <= paid_amount <= incurred_amount]. *)
Theorem incurred_floor policy_count total_claims (g : G) cols g' attrs r :
  claim_columns policy_count total_claims g = inr (cols, g') ->
  length attrs = length (claim_ids cols) ->
  In r (data_frame cols attrs) ->
  (0 <= initial_reserve r)%Q /\
  (Py.round (initial_reserve r * 0.1) 2 <= incurred_amount r)%Q /\
  (0 <= paid_amount r <= incurred_amount r)%Q.
Proof.
  intros H _ Hr.
  destruct (claim_amounts _ _ _ _ _ _ _ H Hr) as (A & B & C & _).
  repeat split; try assumption; apply C.
Qed.

End ClaimsTableProperties.

(** ** The columns of the cohort table *)

Section ReservesColumnFacts.

Import Dates Reserves.

Context {G : Type} {R : RandomSource G} {P : FloatPow}.

Local Open Scope monad_scope.

(** The identifying columns, the valuation date, the coverage period
    and the metadata of a returned row. *)
Lemma generate_reserves_row_columns claims g rows g' r :
  generate_reserves claims g = inr (rows, g') -> In r rows ->
  contract_group_id r =
    (line_of_business r ++ "_" ++ geography r ++ "_"
     ++ Fmt.str_int (cohort_year r))%string /\
  (exists quarters_back, 0 <= quarters_back < 8 /\
     valuation_date r = valuation_date_of quarters_back) /\
  (exists duration : Q,
     let f := (1 / fpow (1 + discount_rate_of (line_of_business r))
                        (Qmax 0.5 duration))%Q in
     pv_factor r = Py.round f 6 /\
     pv_claims r = Py.round (total_incurred r * f) 2) /\
  (exists (months : Z) (remaining_ratio : Q),
     (exists g0, months = fst (coverage_months_of (line_of_business r) g0)) /\
     (0.5 <= remaining_ratio <= 1)%Q /\
     coverage_units_total r = policy_count r * months /\
     coverage_units_current r =
       Py.int (inject_Z (coverage_units_total r) * remaining_ratio)) /\
  (exists confidence : Q,
     In confidence [0.75; 0.85; 0.95]%Q /\
     reserve_metadata r =
       {| actuarial_assumptions :=
            {| discount_rate := discount_rate_of (line_of_business r);
               risk_margin :=
                 Py.round (risk_adjustment r / Qmax 1 (pv_claims r)) 4 |};
          valuation_method := "IFRS_17";
          confidence_level := confidence;
          last_updated := valuation_date r |}).
Proof.
  unfold generate_reserves. cbv zeta. intros H Hr.
  inv_bind H as vdates g1 Ev. inv_bind H as pvs g2 Epv.
  inv_bind H as rrates g3 Er. inv_bind H as arates g4 Ea.
  inv_bind H as cov g5 Ec. inv_bind H as metas g6 Em.
  apply ret_inr in H. inversion H; subst rows g'. clear H.
  apply reserves_data_frame_In in Hr. destruct Hr as (i & Hi & ->). cbv zeta.
  set (groups := groupby_agg claims) in *.
  set (g0 := Build_Group "" "" 0 0 0 0 0 0) in *.
  set (grp := nth i groups g0) in *.
  pose proof (mapM_length _ _ _ _ _ Ev) as Lv. rewrite length_seq in Lv.
  pose proof (mapM_length _ _ _ _ _ Epv) as Lpv.
  pose proof (mapM_length _ _ _ _ _ Ec) as Lc.
  pose proof (mapM_length _ _ _ _ _ Em) as Lm. rewrite length_seq in Lm.
  cbn [contract_group_id line_of_business geography cohort_year valuation_date
       pv_factor pv_claims total_incurred coverage_units_total
       coverage_units_current policy_count reserve_metadata risk_adjustment].
  split; [|split; [|split; [|split]]].
  - rewrite (nth_map_lt _ _ _ g0) by exact Hi. reflexivity.
  - apply mapM_Forall2 in Ev.
    destruct (Forall2_nth_lt _ _ _ i 0%nat (mkdate 0 0 0) Ev)
      as (ga & gb & V); [rewrite length_seq; exact Hi|].
    inv_bind V as q gq Eq. apply ret_inr in V. injection V as V _.
    apply lift_inr in Eq. destruct Eq as [-> _].
    eexists. split; [|exact V]. apply randint_range. lia.
  - apply mapM_Forall2 in Epv.
    destruct (Forall2_nth_lt _ _ _ i g0 (0, 0, 0)%Q Epv Hi) as (ga & gb & V).
    unfold present_values in V.
    inv_bind V as duration gd Ed. inv_bind V as ratio gr Err.
    apply ret_inr in V. injection V as V _.
    exists duration. cbv zeta.
    rewrite !(nth_map_lt _ _ _ (0, 0, 0)%Q) by lia. fold grp in V.
    rewrite V. split; reflexivity.
  - apply mapM_Forall2 in Ec.
    destruct (Forall2_nth_lt _ _ _ i g0 (0, 0) Ec Hi) as (ga & gb & V).
    unfold coverage_units in V.
    inv_bind V as months gm Emo. inv_bind V as rr gr Err.
    apply ret_inr in V. injection V as V _.
    apply lift_inr in Emo, Err. destruct Emo as [-> _], Err as [-> _].
    fold grp in V.
    eexists _, _. split; [eexists; reflexivity|]. split; [|split].
    + destruct (uniform_range 0.5 1.0 gm ltac:(discriminate)) as [U1 U2].
      split; [exact U1|]. eapply Qle_trans; [exact U2|discriminate].
    + rewrite (nth_map_lt _ _ _ (0, 0)) by lia. rewrite V. reflexivity.
    + rewrite !(nth_map_lt _ _ _ (0, 0)) by lia. rewrite V. reflexivity.
  - apply mapM_Forall2 in Em.
    destruct (Forall2_nth_lt _ _ _ i 0%nat
                (Build_ReserveMetadata (Build_ActuarialAssumptions 0 0)
                   "" 0 (mkdate 0 0 0)) Em)
      as (ga & gb & V); [rewrite length_seq; exact Hi|].
    rewrite seq_nth in V by exact Hi. simpl Nat.add in V.
    unfold metadata_of in V.
    inv_bind V as confidence gc Eco. apply ret_inr in V. injection V as V _.
    apply lift_inr in Eco. destruct Eco as [-> _].
    eexists. split; [|exact V].
    apply choice_In; [discriminate|reflexivity].
Qed.

End ReservesColumnFacts.

(** ** Quarter ends and group sums *)

Section QuarterFacts.

Import Dates Reserves.

(** X12. The snap of lines 52-59 maps every calendar date to the last
    day of its own calendar quarter: the result is a real date of the
    same year, one of 03-31, 06-30, 09-30 and 12-31, in the same quarter
    as the date, never before it, and snapping again changes nothing. *)
Theorem quarter_end_closes_quarter d : valid d ->
  valid (quarter_end d) /\
  year (quarter_end d) = year d /\
  In (month (quarter_end d), day (quarter_end d))
     [(3, 31); (6, 30); (9, 30); (12, 31)] /\
  (month (quarter_end d) - 1) / 3 = (month d - 1) / 3 /\
  Dates.le d (quarter_end d) /\
  quarter_end (quarter_end d) = quarter_end d.
Proof.
  intros [Hm Hd]. unfold quarter_end, replace_month_day.
  pose proof (days_in_month_bounds (year d) (month d)) as B.
  assert (D30 : month d = 6 \/ month d = 9 -> day d <= 30).
  { intros [E|E]; rewrite E in Hd; unfold days_in_month in Hd; simpl in Hd; lia. }
  destruct (Z.leb_spec (month d) 3); [|destruct (Z.leb_spec (month d) 6);
    [|destruct (Z.leb_spec (month d) 9)]]; cbn [year month day];
    (split; [unfold valid, days_in_month; simpl; lia|]);
    (split; [reflexivity|]);
    (split; [simpl; tauto|]);
    (split; [Z.div_mod_to_equations; lia|]);
    (split; [apply le_iff; cbn [year month day]; lia|]);
    reflexivity.
Qed.

End QuarterFacts.

Section GroupSums.

Import Reserves Cohorts.

Local Open Scope Q_scope.

Lemma members_cons c cs k :
  members (c :: cs) k =
  if key_eqb (claim_key c) k then c :: members cs k else members cs k.
Proof. reflexivity. Qed.

Lemma group_counts_skip c cs ks :
  ~ In (claim_key c) ks ->
  map (fun k => Z.of_nat (length (members (c :: cs) k))) ks
  = map (fun k => Z.of_nat (length (members cs k))) ks.
Proof.
  intros Hn. apply map_ext_in. intros k Hk. rewrite members_cons.
  destruct (key_eqb (claim_key c) k) eqn:E; [|reflexivity].
  apply key_eqb_eq in E. exfalso. apply Hn. rewrite E. exact Hk.
Qed.

Lemma group_counts_conserved claims : forall ks,
  NoDup ks -> (forall c, In c claims -> In (claim_key c) ks) ->
  total (map (fun k => Z.of_nat (length (members claims k))) ks)
  = Z.of_nat (length claims).
Proof.
  induction claims as [|c cs IH]; intros ks Hnd Hin.
  - clear Hnd Hin. induction ks as [|k ks IHk]; [reflexivity|].
    cbn [map total fold_right] in *. unfold total in IHk. rewrite IHk.
    reflexivity.
  - change (length (c :: cs)) with (S (length cs)). rewrite Nat2Z.inj_succ.
    rewrite <- (IH ks Hnd (fun c' Hc' => Hin c' (or_intror Hc'))).
    pose proof (Hin c (or_introl eq_refl)) as Hk. clear IH Hin.
    induction ks as [|k ks IHk]; [contradiction|].
    inversion Hnd as [|? ? Hnk Hnd']; subst.
    cbn [map]. unfold total in *. cbn [fold_right]. rewrite members_cons.
    destruct (key_eqb (claim_key c) k) eqn:E.
    + apply key_eqb_eq in E.
      rewrite group_counts_skip by (rewrite E; exact Hnk).
      cbn [length]. lia.
    + destruct Hk as [Hk|Hk].
      * exfalso. subst k.
        assert (key_eqb (claim_key c) (claim_key c) = true)
          by (apply key_eqb_eq; reflexivity).
        congruence.
      * specialize (IHk Hnd' Hk). lia.
Qed.

End GroupSums.

(** ** Properties of the cohort table *)

Section TextFacts.

Import Text.

Lemma split_at_char c a b x y :
  has_char c a = false -> has_char c b = false ->
  (a ++ String c x)%string = (b ++ String c y)%string -> a = b /\ x = y.
Proof.
  revert b. induction a as [|k a IH]; intros [|k' b] Ha Hb E; simpl in *.
  - injection E as E. auto.
  - injection E as E1 E2. subst k'. rewrite Ascii.eqb_refl in Hb. discriminate.
  - injection E as E1 E2. subst k. rewrite Ascii.eqb_refl in Ha. discriminate.
  - injection E as E1 E2. subst k'.
    apply orb_false_iff in Ha, Hb. destruct Ha as [_ Ha], Hb as [_ Hb].
    destruct (IH b Ha Hb E2) as [-> ->]. auto.
Qed.

End TextFacts.

Section CohortTableProperties.

Import Dates Reserves Cohorts Text.

Context {G : Type} {R : RandomSource G} {P : FloatPow}.

Local Open Scope monad_scope.

Lemma generate_reserves_groups claims (g : G) rows g' :
  generate_reserves claims g = inr (rows, g') ->
  map row_group rows = groupby_agg claims.
Proof.
  unfold generate_reserves. cbv zeta. intros H.
  inv_bind H as vdates g1 Ev. inv_bind H as pvs g2 Epv.
  inv_bind H as rrates g3 Er. inv_bind H as arates g4 Ea.
  inv_bind H as cov g5 Ec. inv_bind H as metas g6 Em.
  apply ret_inr in H. inversion H; subst rows g'. clear H.
  unfold data_frame. rewrite map_map. cbv zeta.
  etransitivity; [|apply map_id].
  etransitivity; [|apply (map_nth_seq (fun x : Group => x) _
                            (Build_Group "" "" 0 0 0 0 0 0))].
  apply map_ext. intros i. unfold row_group. cbn.
  destruct (nth i (groupby_agg claims) _). reflexivity.
Qed.

Lemma length_group_keys claims : (length (group_keys claims) <= length claims)%nat.
Proof.
  induction claims as [|c cs IH]; simpl; [lia|].
  assert (L : forall k ks, (length (insert_key k ks) <= S (length ks))%nat).
  { intros k ks. induction ks as [|k' ks IHk]; simpl; [lia|].
    destruct (key_compare k k'); simpl; lia. }
  specialize (L (claim_key c) (group_keys cs)). lia.
Qed.

Lemma nodup_length_le (xs : list Z) :
  (length (nodup Z.eq_dec xs) <= length xs)%nat.
Proof.
  induction xs as [|x xs IH]; simpl; [lia|].
  destruct (in_dec Z.eq_dec x xs); simpl; lia.
Qed.

(** X15. [generate_reserves] has no failing step: for every claims
    table, also one with lines of business it does not know, and every
    generator state it returns a table, with at most one row per
    claim. *)
Theorem generate_reserves_never_raises claims (g : G) :
  exists rows g',
    generate_reserves claims g = inr (rows, g') /\
    (length rows <= length claims)%nat.
Proof.
  destruct (generate_reserves_returns claims g) as (rows & g' & H).
  exists rows, g'. split; [exact H|].
  rewrite <- (length_map row_key), (generate_reserves_keys _ _ _ _ H).
  apply length_group_keys.
Qed.

(** X16. The cohorts partition the claims: the [claim_count] column
    adds up to the number of claims, the [claim_count] of a row is the
    number of claims with the row's key, and
    [1 <= policy_count <= claim_count] in every row. *)
Theorem cohorts_partition_claims claims (g : G) rows g' :
  generate_reserves claims g = inr (rows, g') ->
  total (map claim_count rows) = Z.of_nat (length claims) /\
  (forall r, In r rows ->
     1 <= policy_count r <= claim_count r /\
     claim_count r =
       Z.of_nat (length (filter (fun c => key_eqb (claim_key c) (row_key r))
                                claims))).
Proof.
  intros H. pose proof (generate_reserves_groups _ _ _ _ H) as Hg.
  split.
  - assert (E : map claim_count rows = map g_claim_count (map row_group rows)).
    { rewrite map_map. reflexivity. }
    rewrite E, Hg. unfold groupby_agg. rewrite map_map.
    rewrite <- (group_counts_conserved claims (group_keys claims)).
    + f_equal. apply map_ext. intros [[l y] z]. reflexivity.
    + apply StronglySorted_NoDup, group_keys_sorted.
    + intros c Hc. apply In_group_keys. exists c. auto.
  - intros r Hr.
    assert (Hin : In (row_group r) (groupby_agg claims)).
    { rewrite <- Hg. apply in_map, Hr. }
    pose proof (group_policy_count_pos _ _ Hin) as Hpos.
    unfold groupby_agg in Hin. apply in_map_iff in Hin.
    destruct Hin as ([[l y] z] & E & _).
    assert (Ek : row_key r = (l, y, z)).
    { unfold row_key. apply (f_equal group_key) in E. simpl in E.
      unfold group_key in E. simpl in E. congruence. }
    assert (Ec : claim_count r = Z.of_nat (length (members claims (l, y, z)))).
    { apply (f_equal g_claim_count) in E. simpl in E. congruence. }
    assert (Ep : policy_count r =
                 Z.of_nat (length (nodup Z.eq_dec
                   (map Claims.policy_id (members claims (l, y, z)))))).
    { apply (f_equal g_policy_count) in E. simpl in E. congruence. }
    simpl in Hpos. split.
    + split; [exact Hpos|]. rewrite Ep, Ec.
      pose proof (nodup_length_le (map Claims.policy_id (members claims (l, y, z)))).
      rewrite length_map in *. lia.
    + rewrite Ec, Ek. reflexivity.
Qed.

(** X13. Every valuation date is one of the seven quarter ends from
    2023-06-30 to 2024-12-31, a real calendar date not after the base
    date; going back one quarter (90 days) snaps forward to the base
    date again, so offsets 0 and 1 give the same date. *)
Theorem valuation_date_values claims (g : G) rows g' r :
  generate_reserves claims g = inr (rows, g') ->
  In r rows ->
  In (valuation_date r)
     [mkdate 2024 12 31; mkdate 2024 9 30; mkdate 2024 6 30; mkdate 2024 3 31;
      mkdate 2023 12 31; mkdate 2023 9 30; mkdate 2023 6 30] /\
  valid (valuation_date r) /\
  Dates.le (valuation_date r) base_date /\
  valuation_date_of 1 = valuation_date_of 0.
Proof.
  intros H Hr.
  destruct (generate_reserves_row_columns _ _ _ _ _ H Hr)
    as (_ & (q & Hq & Hv) & _).
  assert (C : q = 0 \/ q = 1 \/ q = 2 \/ q = 3 \/ q = 4 \/ q = 5 \/ q = 6 \/ q = 7)
    by lia.
  rewrite Hv.
  destruct C as [->|[->|[->|[->|[->|[->|[->| ->]]]]]]];
    (split; [vm_compute; tauto|]);
    (split; [vm_compute; repeat split; discriminate|]);
    (split; [vm_compute; discriminate|reflexivity]).
Qed.

(** X14. The metadata of a returned row describes that row: the method
    is ['IFRS_17'], [last_updated] is the row's valuation date, the
    confidence level is 0.75, 0.85 or 0.95, the discount rate is the one
    of the row's line of business, 0.04 for a line the table of rates
    does not list, and the risk margin is
    [round(risk_adjustment / max(1, pv_claims), 4)] of the row's own
    columns. *)
Theorem reserve_metadata_contents claims (g : G) rows g' r :
  generate_reserves claims g = inr (rows, g') ->
  In r rows ->
  let m := reserve_metadata r in
  valuation_method m = "IFRS_17"%string /\
  last_updated m = valuation_date r /\
  In (confidence_level m) [0.75; 0.85; 0.95]%Q /\
  discount_rate (actuarial_assumptions m)
    = discount_rate_of (line_of_business r) /\
  (~ In (line_of_business r) Claims.lob_choices ->
   discount_rate (actuarial_assumptions m) = 0.04%Q) /\
  risk_margin (actuarial_assumptions m)
    = Py.round (risk_adjustment r / Qmax 1 (pv_claims r)) 4.
Proof.
  intros H Hr. cbv zeta.
  destruct (generate_reserves_row_columns _ _ _ _ _ H Hr)
    as (_ & _ & _ & _ & (conf & Hc & ->)).
  cbn [valuation_method last_updated confidence_level actuarial_assumptions
       discount_rate risk_margin].
  repeat split; try assumption.
  intros Hn. unfold discount_rate_of, Claims.lob_choices in *.
  repeat match goal with
         | |- context [String.eqb ?a ?b] =>
             destruct (String.eqb_spec a b) as [E|_];
             [exfalso; apply Hn; rewrite E; simpl; tauto|]
         end.
  reflexivity.
Qed.

Lemma contract_group_id_format claims (g : G) rows g' r :
  generate_reserves claims g = inr (rows, g') -> In r rows ->
  contract_group_id r =
    (line_of_business r ++ "_" ++ geography r ++ "_"
     ++ Fmt.str_int (cohort_year r))%string.
Proof. intros H Hr. apply (generate_reserves_row_columns _ _ _ _ _ H Hr). Qed.

Lemma contract_group_ids_NoDup claims (g : G) rows g' :
  generate_reserves claims g = inr (rows, g') ->
  (forall c, In c claims ->
     has_char "_" (Claims.line_of_business c) = false /\
     has_char "_" (Claims.geography c) = false) ->
  NoDup (map contract_group_id rows).
Proof.
  intros H Hu.
  set (f := fun k : key =>
              let '(l, y, z) := k in
              (l ++ "_" ++ y ++ "_" ++ Fmt.str_int z)%string).
  assert (E : map contract_group_id rows = map f (map row_key rows)).
  { rewrite map_map. apply map_ext_in. intros r Hr.
    rewrite (contract_group_id_format _ _ _ _ _ H Hr). reflexivity. }
  rewrite E, (generate_reserves_keys _ _ _ _ H).
  assert (Hk : forall k, In k (group_keys claims) ->
             has_char "_" (fst (fst k)) = false /\
             has_char "_" (snd (fst k)) = false).
  { intros k Hin. apply In_group_keys in Hin. destruct Hin as (c & Hc & <-).
    exact (Hu c Hc). }
  pose proof (StronglySorted_NoDup _ (group_keys_sorted claims)) as Hnd.
  revert Hk Hnd. generalize (group_keys claims). intros ks Hk Hnd.
  induction Hnd as [|k ks Hn _ IH]; simpl; constructor.
  - rewrite in_map_iff. intros (k' & Ek & Hin). apply Hn.
    destruct (Hk k (or_introl eq_refl)) as [A1 A2].
    destruct (Hk k' (or_intror Hin)) as [B1 B2].
    destruct k as [[l y] z], k' as [[l' y'] z']. simpl in *.
    apply split_at_char in Ek; [|assumption|assumption].
    destruct Ek as [-> Ek].
    apply split_at_char in Ek; [|assumption|assumption].
    destruct Ek as [-> Ek]. apply str_int_inj in Ek. subst. exact Hin.
  - apply IH. intros k' Hin. apply Hk. right. exact Hin.
Qed.

(** X18. [contract_group_id] is the row's line of business, geography
    and cohort year joined by underscores; when no line of business and
    no geography of the claims contains an underscore, no two rows share
    an id. *)
Theorem contract_group_ids_unique claims (g : G) rows g' :
  generate_reserves claims g = inr (rows, g') ->
  forallb (fun c => negb (has_char "_" (Claims.line_of_business c))
                    && negb (has_char "_" (Claims.geography c))) claims = true ->
  (forall r, In r rows ->
     contract_group_id r =
       (line_of_business r ++ "_" ++ geography r ++ "_"
        ++ Fmt.str_int (cohort_year r))%string) /\
  NoDup (map contract_group_id rows).
Proof.
  intros H Hu. split.
  - intros r Hr. exact (contract_group_id_format _ _ _ _ _ H Hr).
  - apply (contract_group_ids_NoDup _ _ _ _ H). intros c Hc.
    rewrite forallb_forall in Hu. specialize (Hu c Hc).
    apply andb_true_iff in Hu. destruct Hu as [U1 U2].
    apply negb_true_iff in U1, U2. auto.
Qed.

End CohortTableProperties.

(** ** Properties of the cohort rows and of policies.py *)

Section CohortRowProperties.

Import Dates Reserves Cohorts Text.

Context {G : Type} {R : RandomSource G} {P : FloatPow}.

Local Open Scope monad_scope.

(** X19. [coverage_units_total] is the row's policy count times a
    coverage period in months that depends on the line of business:
    120 to 479 for ['Life'], 240 to 599 for ['Pension'], 12 to 59 for
    every other line; at least half of the units remain:
    [coverage_units_total <= 2 * coverage_units_current + 1]. *)
Theorem coverage_period_by_line claims (g : G) rows g' r :
  generate_reserves claims g = inr (rows, g') ->
  In r rows ->
  (exists months,
     coverage_units_total r = policy_count r * months /\
     (line_of_business r = "Life"%string -> 120 <= months <= 479) /\
     (line_of_business r = "Pension"%string -> 240 <= months <= 599) /\
     (line_of_business r <> "Life"%string ->
      line_of_business r <> "Pension"%string -> 12 <= months <= 59)) /\
  coverage_units_total r <= 2 * coverage_units_current r + 1.
Proof.
  intros H Hr.
  destruct (generate_reserves_row_columns _ _ _ _ _ H Hr)
    as (_ & _ & _ & (months & rr & (g0 & Hm) & Hrr & Htot & Hcur) & _).
  destruct (generate_reserves_row _ _ _ _ _ H Hr)
    as ((grp & Hgrp & _ & Hpc & _) & _).
  pose proof (group_policy_count_pos _ _ Hgrp) as Hpos. rewrite <- Hpc in Hpos.
  assert (Hm12 : 12 <= months).
  { rewrite Hm. unfold coverage_months_of.
    destruct (_ =? _)%string; [|destruct (_ =? _)%string].
    - pose proof (randint_range 120 480 g0 ltac:(lia)). lia.
    - pose proof (randint_range 240 600 g0 ltac:(lia)). lia.
    - pose proof (randint_range 12 60 g0 ltac:(lia)). lia. }
  split.
  - exists months. split; [exact Htot|]. rewrite Hm. unfold coverage_months_of.
    split; [|split].
    + intros ->. simpl. pose proof (randint_range 120 480 g0 ltac:(lia)). lia.
    + intros ->. simpl. pose proof (randint_range 240 600 g0 ltac:(lia)). lia.
    + intros N1 N2.
      destruct (String.eqb_spec (line_of_business r) "Life"); [contradiction|].
      destruct (String.eqb_spec (line_of_business r) "Pension"); [contradiction|].
      pose proof (randint_range 12 60 g0 ltac:(lia)). lia.
  - assert (Ht : 0 <= coverage_units_total r) by (rewrite Htot; nia).
    set (t := coverage_units_total r) in *.
    assert (Htq : (0 <= inject_Z t)%Q).
    { change 0%Q with (inject_Z 0). rewrite <- Zle_Qle. exact Ht. }
    assert (Hp : (0 <= inject_Z t * rr)%Q).
    { apply Qmult_le_0_compat; [exact Htq|]. 
      eapply Qle_trans; [|apply Hrr]. discriminate. }
    rewrite Hcur, (int_floor _ Hp).
    assert (Hhalf : (inject_Z t * (1 # 2) <= inject_Z t * rr)%Q).
    { destruct Hrr as [Hr1 _].
      assert ((1 # 2) <= rr)%Q by (eapply Qle_trans; [|exact Hr1]; discriminate).
      nra. }
    apply Qfloor_resp_le in Hhalf.
    assert (Hfl : t / 2 <= Qfloor (inject_Z t * (1 # 2))).
    { unfold Qfloor, Qmult, inject_Z. simpl. rewrite Z.mul_1_r. lia. }
    Z.div_mod_to_equations. lia.
Qed.

(** X20. Neither [initial_csm] nor [loss_component] is negative and
    every row is ['Profitable'] or ['Onerous'].  A profitable row has no
    loss component and a liability for remaining coverage not below its
    best estimate liability; an onerous row has no CSM, amortizes
    nothing, and its liability for remaining coverage is not above its
    best estimate liability. *)
Theorem profitability_consequences claims (g : G) rows g' r :
  generate_reserves claims g = inr (rows, g') ->
  In r rows ->
  (0 <= initial_csm r)%Q /\ (0 <= loss_component r)%Q /\
  (profitability_class r = "Profitable"%string \/
   profitability_class r = "Onerous"%string) /\
  (profitability_class r = "Profitable"%string ->
     loss_component r = 0%Q /\
     (best_estimate_liability r <= liability_remaining_coverage r)%Q) /\
  (profitability_class r = "Onerous"%string ->
     initial_csm r = 0%Q /\ (csm_amortization r == 0)%Q /\
     (liability_remaining_coverage r <= best_estimate_liability r)%Q).
Proof.
  intros H Hr.
  destruct (generate_reserves_row _ _ _ _ _ H Hr)
    as (_ & _ & _ & _ & Hsplit & _ & Hamort & Hbel & Hlrc & _).
  assert (Hb2 : (Py.round (best_estimate_liability r) 2
                 == best_estimate_liability r)%Q).
  { apply round_decimals. rewrite Hbel. apply decimals_round. }
  destruct (csm_split_cases _ _ _ _ _ _ _ Hsplit)
    as [(Hs & Hc & Hl & Hp)|(Hs & Hc & Hl & Hp)]; cbv zeta in Hs.
  - assert (C0 : (0 <= initial_csm r)%Q) by (rewrite Hc; apply round_nonneg; lra).
    split; [exact C0|]. split; [rewrite Hl; apply Qle_refl|].
    split; [left; exact Hp|]. split.
    + intros _. split; [exact Hl|].
      rewrite <- Hb2 at 1. rewrite Hlrc. apply round_mono. rewrite Hl. lra.
    + rewrite Hp. discriminate.
  - assert (L0 : (0 <= loss_component r)%Q).
    { rewrite Hl. apply round_nonneg.
      exact (Qabs_nonneg (net_margin_of (pv_premiums r) (pv_claims r)
                            (acquisition_costs r) (risk_adjustment r))). }
    split; [rewrite Hc; apply Qle_refl|]. split; [exact L0|].
    split; [right; exact Hp|]. split.
    + rewrite Hp. discriminate.
    + intros _. split; [exact Hc|]. split.
      * rewrite Hamort, Hc. unfold amortization_of.
        destruct (0 <? coverage_units_total r); [|reflexivity].
        transitivity (Py.round 0 2); [|apply round_0].
        apply round_comp; [ring|reflexivity].
      * rewrite Hlrc. rewrite <- Hb2 at 2. apply round_mono. rewrite Hc. lra.
Qed.

(** X23. The loadings stay within their rates: for a present value of
    claims that is not negative, [risk_adjustment] lies between 5% and
    15% of it (each rounded to 2 decimals) and
    [best_estimate_liability] is not below it; for a present value of
    premiums that is not negative, [acquisition_costs] lies between 10%
    and 25% of it (each rounded to 2 decimals). *)
Theorem loading_rates_in_range claims (g : G) rows g' r :
  generate_reserves claims g = inr (rows, g') ->
  In r rows ->
  ((0 <= pv_claims r)%Q ->
     (Py.round (pv_claims r * 0.05) 2 <= risk_adjustment r)%Q /\
     (risk_adjustment r <= Py.round (pv_claims r * 0.15) 2)%Q /\
     (pv_claims r <= best_estimate_liability r)%Q) /\
  ((0 <= pv_premiums r)%Q ->
     (Py.round (pv_premiums r * 0.10) 2 <= acquisition_costs r)%Q /\
     (acquisition_costs r <= Py.round (pv_premiums r * 0.25) 2)%Q).
Proof.
  intros H Hr.
  destruct (generate_reserves_row _ _ _ _ _ H Hr)
    as (_ & (pvf & ratio & _ & Hpv & _) & (rr & [Hr1 Hr2] & Hra)
        & (ar & [Ha1 Ha2] & Hac) & _ & _ & _ & Hbel & _).
  split.
  - intros Hp.
    assert (R1 : (Py.round (pv_claims r * 0.05) 2 <= risk_adjustment r)%Q).
    { rewrite Hra. apply round_mono. nra. }
    split; [exact R1|]. split.
    + rewrite Hra. apply round_mono. nra.
    + assert (D : (Py.round (pv_claims r) 2 == pv_claims r)%Q).
      { apply round_decimals. rewrite Hpv. apply decimals_round. }
      rewrite <- D at 1. rewrite Hbel. apply round_mono.
      assert (Z0 : (0 <= Py.round (pv_claims r * 0.05) 2)%Q).
      { apply round_nonneg. nra. }
      lra.
  - intros Hp. split; rewrite Hac; apply round_mono; nra.
Qed.

End CohortRowProperties.

Section PoliciesProperties.

Import Dates Policies.

Context {G F : Type} {R : RandomSource G} {K : FakerSource F}.

Local Open Scope monad_scope.

(** Line 73 is reached for every count that is not negative. *)
(** X1. [generate_policies] returns no table for any count: a negative
    count fails with numpy's [ValueError] for a negative size, and every
    other count reaches line 73, where [.astype(int)] is applied to the
    Python float that [np.random.gamma(2, 20)] returns, and fails with
    [AttributeError]. *)
Theorem generate_policies_never_returns count (s : G * F) :
  (count < 0 -> generate_policies count s = inl ValueError) /\
  (0 <= count -> generate_policies count s = inl AttributeError) /\
  (forall rows s', generate_policies count s <> inr (rows, s')).
Proof.
  split; [apply generate_policies_negative|].
  split; [apply generate_policies_attribute_error|].
  intros rows s' E. destruct (Z.lt_ge_cases count 0) as [C|C].
  - rewrite (generate_policies_negative _ _ C) in E. discriminate.
  - rewrite (generate_policies_attribute_error _ _ C) in E. discriminate.
Qed.

(** X2. The policy numbers of line 24: one per policy, pairwise
    distinct, the one of policy [i + 1] being ["POL"] followed by the
    [08d] rendering of [i + 1]; they are 11 characters long while there
    are fewer than 10^8 policies, and from 10^8 policies on the last one
    is longer ([08d] pads, it never truncates). *)
Theorem policy_numbers_identify_policies count :
  length (policy_numbers count) = Z.to_nat count /\
  NoDup (policy_numbers count) /\
  (forall i, 0 <= i < count ->
     nth (Z.to_nat i) (policy_numbers count) ""%string
       = ("POL" ++ Fmt.format_08d (i + 1))%string) /\
  (forall n, In n (policy_numbers count) ->
     count < 10 ^ 8 -> String.length n = 11%nat) /\
  (10 ^ 8 <= count ->
     (11 < String.length (nth (Z.to_nat (count - 1)) (policy_numbers count)
                              ""%string))%nat).
Proof.
  unfold policy_numbers, policy_ids.
  split; [|split; [|split; [|split]]].
  - rewrite length_map, range_length. f_equal. lia.
  - apply NoDup_map_injective; [|apply range_NoDup].
    intros a b Hab. injection Hab as Hab. apply format_08d_inj, Hab.
  - intros i Hi. rewrite (nth_map_lt _ _ _ 0) by (rewrite range_length; lia).
    rewrite nth_range by lia. do 2 f_equal. lia.
  - intros n Hn Hc. apply in_map_iff in Hn. destruct Hn as (id & <- & Hid).
    apply In_range in Hid. cbn [String.append String.length].
    rewrite (proj1 (format_08d_length id)) by lia. reflexivity.
  - intros Hc. rewrite (nth_map_lt _ _ _ 0) by (rewrite range_length; lia).
    rewrite nth_range by lia. cbn [String.append String.length].
    pose proof (proj2 (format_08d_length (1 + Z.of_nat (Z.to_nat (count - 1))))
                  ltac:(lia)).
    lia.
Qed.

(** X3. The expiry date drawn for a policy (lines 36-37) never fails
    and is a real calendar date 30 to 365 days after the effective date,
    hence strictly later. *)
Theorem expiry_date_window eff_date (s : G * F) :
  valid eff_date ->
  exists d s',
    expiry_date_of eff_date s = inr (d, s') /\
    valid d /\
    30 <= toordinal d - toordinal eff_date <= 365 /\
    Dates.lt eff_date d.
Proof.
  intros V. unfold expiry_date_of, bind, lift, ret.
  destruct (np random s) as [u su].
  assert (Hlt : forall n, 30 <= n <= 365 -> Dates.lt eff_date (add_days eff_date n)).
  { intros n Hn. 
    destruct (Dates.compare eff_date (add_days eff_date n)) eqn:C; unfold Dates.lt.
    - exfalso.
      assert (E : toordinal eff_date = toordinal (add_days eff_date n)).
      { unfold Dates.compare in C.
        destruct (Z.compare_spec (year eff_date) (year (add_days eff_date n)));
          try discriminate.
        destruct (Z.compare_spec (month eff_date) (month (add_days eff_date n)));
          try discriminate.
        apply Z.compare_eq in C. unfold toordinal. congruence. }
      rewrite toordinal_add_days in E by exact V. lia.
    - exact C.
    - exfalso. pose proof (le_add_days eff_date n ltac:(lia)) as L.
      apply L. exact C. }
  destruct (Qlt_le_dec 0.1 u).
  - eexists _, _. split; [reflexivity|]. split; [apply valid_add_days, V|].
    rewrite toordinal_add_days by exact V. split; [lia|]. apply Hlt. lia.
  - unfold np. pose proof (randint_range 30 365 (fst su) ltac:(lia)) as B.
    destruct (randint 30 365 (fst su)) as [days g1]. simpl in B.
    eexists _, _. split; [reflexivity|]. split; [apply valid_add_days, V|].
    rewrite toordinal_add_days by exact V. split; [lia|]. apply Hlt. lia.
Qed.

End PoliciesProperties.

(** ** Facts about generate_all.py *)

Section GenerateAllFacts.

Import GenerateAll.

Context {G F : Type} {R : RandomSource G} {K : FakerSource F} {P : FloatPow}.

(** X22. [main] writes no dataset: for every scale and output format
    it ends with the [AttributeError] raised inside [generate_policies],
    before the first call of [save_data]. *)
Theorem main_saves_nothing (s : scale) (f : format) (st : G * F) :
  main s f st = ([], inl AttributeError).
Proof.
  unfold main. cbv zeta.
  rewrite generate_policies_attribute_error; [reflexivity|].
  destruct s; simpl; lia.
Qed.

End GenerateAllFacts.

(** ** The properties on the replayed runs *)

Section ReplayedProperties.

Import Dates Replay Scenarios.

Lemma first_cohort_in : In first_cohort two_cohorts.
Proof. left. reflexivity. Qed.

(** *** X1 *)

Lemma generate_policies_never_returns_witness :
  0 <= 3 /\
  Policies.generate_policies 3 (([], []) : tape * tape) = inl AttributeError.
Proof.
  split; [lia|].
  exact (proj1 (proj2 (generate_policies_never_returns 3 (([], []) : tape * tape)))
           ltac:(lia)).
Defined.

(** *** X2 *)

Lemma policy_numbers_identify_policies_witness :
  0 <= 2 < 3 /\
  nth (Z.to_nat 2) (Policies.policy_numbers 3) ""%string = "POL00000003"%string.
Proof.
  split; [lia|].
  exact (proj1 (proj2 (proj2 (policy_numbers_identify_policies 3))) 2 ltac:(lia)).
Defined.

(** *** X3 *)

Lemma expiry_date_window_witness :
  valid (mkdate 2020 1 15) /\
  exists d s',
    Policies.expiry_date_of (mkdate 2020 1 15) (([0.5%Q], []) : tape * tape)
      = inr (d, s') /\
    valid d /\
    30 <= toordinal d - toordinal (mkdate 2020 1 15) <= 365 /\
    Dates.lt (mkdate 2020 1 15) d.
Proof.
  assert (V : valid (mkdate 2020 1 15)) by (vm_compute; repeat split; discriminate).
  split; [exact V|].
  exact (expiry_date_window (mkdate 2020 1 15) (([0.5%Q], []) : tape * tape) V).
Defined.

(** *** X4 *)

(** Two claims for ten policies: the columns are built, and the first
    pass of the attributes loop ends the call. *)
Lemma generate_claims_outcome_witness :
  0 < 2 /\ 1 <= 10 < 2 ^ 63 /\
  Claims.generate_claims 10 2 (two_claims_tape ++ attribute_draws)
    = inl TypeError.
Proof.
  split; [lia|]. split; [lia|].
  exact (proj1 (proj2 (proj2 (proj2
           (generate_claims_outcome 10 2 (two_claims_tape ++ attribute_draws)))))
           ltac:(lia) ltac:(lia)).
Defined.

(** *** X5 *)

Lemma claim_numbers_identify_claims_witness :
  Claims.claim_columns 10 2 two_claims_tape = inr (two_columns, []) /\
  length two_attributes = length (Claims.claim_ids two_columns) /\
  NoDup (map Claims.claim_number (Claims.data_frame two_columns two_attributes)).
Proof.
  split; [exact two_columns_run|]. split; [reflexivity|].
  exact (proj2 (proj2 (proj2
           (claim_numbers_identify_claims 10 2 two_claims_tape two_columns []
              two_attributes two_columns_run two_attributes_length)))).
Defined.

(** *** X6 *)

Lemma claim_policy_id_in_range_witness :
  Claims.claim_columns 10 2 two_claims_tape = inr (two_columns, []) /\
  length two_attributes = length (Claims.claim_ids two_columns) /\
  In first_claim (Claims.data_frame two_columns two_attributes) /\
  1 <= Claims.policy_id first_claim <= 10.
Proof.
  split; [exact two_columns_run|]. split; [reflexivity|].
  split; [exact first_claim_built|].
  exact (proj1 (claim_policy_id_in_range 10 2 two_claims_tape two_columns []
                  two_attributes first_claim two_columns_run
                  two_attributes_length first_claim_built)).
Defined.

(** *** X7 *)

Lemma accident_date_domain_witness :
  Claims.claim_columns 10 2 two_claims_tape = inr (two_columns, []) /\
  length two_attributes = length (Claims.claim_ids two_columns) /\
  In first_claim (Claims.data_frame two_columns two_attributes) /\
  valid (Claims.accident_date first_claim).
Proof.
  split; [exact two_columns_run|]. split; [reflexivity|].
  split; [exact first_claim_built|].
  exact (proj1 (accident_date_domain 10 2 two_claims_tape two_columns []
                  two_attributes first_claim two_columns_run
                  two_attributes_length first_claim_built)).
Defined.

(** *** X8 *)

Lemma development_month_at_most_13_witness :
  Claims.claim_columns 10 2 two_claims_tape = inr (two_columns, []) /\
  length two_attributes = length (Claims.claim_ids two_columns) /\
  In first_claim (Claims.data_frame two_columns two_attributes) /\
  1 <= Claims.development_month first_claim <= 13.
Proof.
  split; [exact two_columns_run|]. split; [reflexivity|].
  split; [exact first_claim_built|].
  exact (proj1 (proj2 (proj2 (development_month_at_most_13 10 2
                                two_claims_tape two_columns [] two_attributes
                                first_claim two_columns_run
                                two_attributes_length first_claim_built)))).
Defined.

(** *** X9 *)

Lemma claim_status_thresholds_witness :
  Claims.claim_columns 10 2 two_claims_tape = inr (two_columns, []) /\
  length two_attributes = length (Claims.claim_ids two_columns) /\
  In first_claim (Claims.data_frame two_columns two_attributes) /\
  (Claims.claim_status first_claim = "Open"%string <->
   (10 < Claims.outstanding_reserve first_claim)%Q /\
   (Claims.outstanding_reserve first_claim <= 1000)%Q).
Proof.
  split; [exact two_columns_run|]. split; [reflexivity|].
  split; [exact first_claim_built|].
  exact (proj1 (proj2 (claim_status_thresholds 10 2 two_claims_tape
                         two_columns [] two_attributes first_claim
                         two_columns_run two_attributes_length
                         first_claim_built))).
Defined.

(** *** X10 *)

Lemma claim_categories_witness :
  Claims.claim_columns 10 2 two_claims_tape = inr (two_columns, []) /\
  length two_attributes = length (Claims.claim_ids two_columns) /\
  In first_claim (Claims.data_frame two_columns two_attributes) /\
  In (Claims.line_of_business first_claim) Claims.lob_choices.
Proof.
  split; [exact two_columns_run|]. split; [reflexivity|].
  split; [exact first_claim_built|].
  exact (proj1 (claim_categories 10 2 two_claims_tape two_columns []
                  two_attributes first_claim two_columns_run
                  two_attributes_length first_claim_built)).
Defined.

(** *** X11 *)

Lemma incurred_floor_witness :
  Claims.claim_columns 10 2 two_claims_tape = inr (two_columns, []) /\
  length two_attributes = length (Claims.claim_ids two_columns) /\
  In first_claim (Claims.data_frame two_columns two_attributes) /\
  (Py.round (Claims.initial_reserve first_claim * 0.1) 2
   <= Claims.incurred_amount first_claim)%Q.
Proof.
  split; [exact two_columns_run|]. split; [reflexivity|].
  split; [exact first_claim_built|].
  exact (proj1 (proj2 (incurred_floor 10 2 two_claims_tape two_columns []
                         two_attributes first_claim two_columns_run
                         two_attributes_length first_claim_built))).
Defined.

(** *** X12 *)

Lemma quarter_end_closes_quarter_witness :
  valid (mkdate 2024 5 31) /\
  Reserves.quarter_end (mkdate 2024 5 31) = mkdate 2024 6 30 /\
  valid (Reserves.quarter_end (mkdate 2024 5 31)).
Proof.
  assert (V : valid (mkdate 2024 5 31)) by (vm_compute; repeat split; discriminate).
  split; [exact V|]. split; [reflexivity|].
  exact (proj1 (quarter_end_closes_quarter (mkdate 2024 5 31) V)).
Defined.

(** *** X13 *)

Lemma valuation_date_values_witness :
  Reserves.generate_reserves two_claims two_cohorts_tape
    = inr (two_cohorts, []) /\
  In first_cohort two_cohorts /\
  valid (Reserves.valuation_date first_cohort).
Proof.
  split; [exact two_cohorts_run|]. split; [exact first_cohort_in|].
  exact (proj1 (proj2 (valuation_date_values two_claims two_cohorts_tape
                         two_cohorts [] first_cohort two_cohorts_run
                         first_cohort_in))).
Defined.

(** *** X14 *)

Lemma reserve_metadata_contents_witness :
  Reserves.generate_reserves two_claims two_cohorts_tape
    = inr (two_cohorts, []) /\
  In first_cohort two_cohorts /\
  Reserves.last_updated (Reserves.reserve_metadata first_cohort)
    = Reserves.valuation_date first_cohort.
Proof.
  split; [exact two_cohorts_run|]. split; [exact first_cohort_in|].
  exact (proj1 (proj2 (reserve_metadata_contents two_claims two_cohorts_tape
                         two_cohorts [] first_cohort two_cohorts_run
                         first_cohort_in))).
Defined.

(** *** X16 *)

Lemma cohorts_partition_claims_witness :
  Reserves.generate_reserves two_claims two_cohorts_tape
    = inr (two_cohorts, []) /\
  Cohorts.total (map Reserves.claim_count two_cohorts)
    = Z.of_nat (length two_claims).
Proof.
  split; [exact two_cohorts_run|].
  exact (proj1 (cohorts_partition_claims two_claims two_cohorts_tape
                  two_cohorts [] two_cohorts_run)).
Defined.

(** *** X18 *)

Lemma contract_group_ids_unique_witness :
  Reserves.generate_reserves two_claims two_cohorts_tape
    = inr (two_cohorts, []) /\
  NoDup (map Reserves.contract_group_id two_cohorts).
Proof.
  split; [exact two_cohorts_run|].
  exact (proj2 (contract_group_ids_unique two_claims two_cohorts_tape
                  two_cohorts [] two_cohorts_run eq_refl)).
Defined.

(** *** X19 *)

Lemma coverage_period_by_line_witness :
  Reserves.generate_reserves two_claims two_cohorts_tape
    = inr (two_cohorts, []) /\
  In first_cohort two_cohorts /\
  Reserves.coverage_units_total first_cohort
    <= 2 * Reserves.coverage_units_current first_cohort + 1.
Proof.
  split; [exact two_cohorts_run|]. split; [exact first_cohort_in|].
  exact (proj2 (coverage_period_by_line two_claims two_cohorts_tape
                  two_cohorts [] first_cohort two_cohorts_run
                  first_cohort_in)).
Defined.

(** *** X20 *)

Lemma profitability_consequences_witness :
  Reserves.generate_reserves small_claims one_cohort_tape
    = inr ([small_cohort], []) /\
  In small_cohort [small_cohort] /\
  (0 <= Reserves.initial_csm small_cohort)%Q.
Proof.
  split; [exact small_cohort_run|]. split; [left; reflexivity|].
  exact (proj1 (profitability_consequences small_claims one_cohort_tape
                  [small_cohort] [] small_cohort small_cohort_run
                  (or_introl eq_refl))).
Defined.

(** *** X23 *)

Lemma loading_rates_in_range_witness :
  Reserves.generate_reserves small_claims one_cohort_tape
    = inr ([small_cohort], []) /\
  In small_cohort [small_cohort] /\
  (0 <= Reserves.pv_claims small_cohort)%Q /\
  (Reserves.pv_claims small_cohort
   <= Reserves.best_estimate_liability small_cohort)%Q.
Proof.
  assert (Hp : (0 <= Reserves.pv_claims small_cohort)%Q)
    by (vm_compute; discriminate).
  split; [exact small_cohort_run|]. split; [left; reflexivity|].
  split; [exact Hp|].
  exact (proj2 (proj2 (proj1 (loading_rates_in_range small_claims
                                one_cohort_tape [small_cohort] [] small_cohort
                                small_cohort_run (or_introl eq_refl)) Hp))).
Defined.

End ReplayedProperties.
